(** * Source-redshift sensitivity: cosmology engine, input validator and
      sensitivity kernel

    A shallow embedding of [src/cosmology.py], [src/validate.py] and
    [src/sensitivity.py].

    - Python floats are IEEE binary64 numbers: Rocq's primitive [float], with
      the operations of [PrimFloat] and their specification in [FloatAxioms].
    - A Python exception is a value of [exn]; a computation that may raise
      lives in the monad [result].
    - A scalar is a Python [float] or a [numpy.float64]; the two differ in
      how division by zero and overflowing powers behave, so a scalar carries
      its class ([num]).
    - What the interpreter and numpy provide and the repository does not
      define ([float.__pow__], [math.log], [numpy.linspace], [ndarray.sum],
      numpy's power) is a parameter of the development ([Section Runtime]).
      [np = None] is the module after a failed [import numpy]. *)

From Stdlib Require Import ZArith Floats List Lia Bool.
From Stdlib Require Uint63.
From stdpp Require Import gmap strings.

Set Warnings "-inexact-float".
Set Default Proof Using "Type".

(** ** Python values and exceptions *)

Module Py.

Inductive exn :=
  | ValueError (msg : string)
  | ZeroDivisionError
  | OverflowError
  | TypeError
  | IndexError
  | KeyError (key : string).

Inductive result (A : Type) :=
  | Ok (a : A)
  | Raise (e : exn).
Arguments Ok {A} a.
Arguments Raise {A} e.

#[export] Instance result_ret : MRet result := @Ok.
#[export] Instance result_bind : MBind result := λ A B f m,
  match m with Ok a => f a | Raise e => Raise e end.
#[export] Instance result_fmap : FMap result := λ A B f m,
  match m with Ok a => Ok (f a) | Raise e => Raise e end.

Definition returns {A} (m : result A) : bool :=
  match m with Ok _ => true | Raise _ => false end.

(** An [int] converted by [float(n)] or by mixed arithmetic.  The conversion
    is exact for [|n| <= 2^53] and rounded to nearest for [|n| < 2^63]. *)
Definition float_of_int (n : Z) : float :=
  if (n <? 0)%Z then (- of_uint63 (Uint63.of_Z (- n)))%float
  else of_uint63 (Uint63.of_Z n).

(** [x / y] on two Python floats. *)
Definition truediv (x y : float) : result float :=
  if (y =? 0)%float then Raise ZeroDivisionError else Ok (x / y)%float.

(** [math.sqrt] *)
Definition math_sqrt (x : float) : result float :=
  if (x <? 0)%float then Raise (ValueError "math domain error")
  else Ok (sqrt x).

(** [math.pi] *)
Definition math_pi : float := 0x1.921fb54442d18p+1%float.

(** [x != x], [x == float('inf') or x == float('-inf')] *)
Definition _is_nan (x : float) : bool := negb (x =? x)%float.
Definition _is_inf (x : float) : bool :=
  (x =? infinity)%float || (x =? neg_infinity)%float.

(** A scalar: a Python [float] or a [numpy.float64]. *)
Inductive num :=
  | PyFloat (x : float)
  | NpFloat64 (x : float).

Definition val (a : num) : float :=
  match a with PyFloat x | NpFloat64 x => x end.

(** [+], [-], [*]: the result is a [numpy.float64] as soon as one operand is. *)
Definition arith (op : float → float → float) (a b : num) : num :=
  match a, b with
  | PyFloat x, PyFloat y => PyFloat (op x y)
  | _, _ => NpFloat64 (op (val a) (val b))
  end.

Definition add := arith PrimFloat.add.
Definition sub := arith PrimFloat.sub.
Definition mul := arith PrimFloat.mul.

(** [/]: two Python floats raise on a zero divisor; numpy follows IEEE 754
    (and warns). *)
Definition div (a b : num) : result num :=
  match a, b with
  | PyFloat x, PyFloat y => PyFloat <$> truediv x y
  | _, _ => Ok (NpFloat64 (val a / val b)%float)
  end.

(** What a callable of one argument is applied to, and returns: a scalar or a
    one-dimensional [ndarray] of float64. *)
Inductive pyobj :=
  | Scalar (a : num)
  | Array (xs : list float).

Definition as_scalar (o : pyobj) : result num :=
  match o with Scalar a => Ok a | Array _ => Raise TypeError end.
Definition as_array (o : pyobj) : result (list float) :=
  match o with Array xs => Ok xs | Scalar _ => Raise TypeError end.

(** [y[0]], [y[-1]], and the slices [y[1:-1:2]], [y[2:-1:2]]. *)
Definition index_first (ys : list float) : result float :=
  match ys with y :: _ => Ok y | [] => Raise IndexError end.
Definition index_last (ys : list float) : result float :=
  match last ys with Some y => Ok y | None => Raise IndexError end.

Fixpoint stride2 {A} (ys : list A) : list A :=
  match ys with
  | y :: _ :: ys' => y :: stride2 ys'
  | ys => ys
  end.
Definition slice_to_last_by_2 {A} (start : nat) (ys : list A) : list A :=
  stride2 (drop start (removelast ys)).

(** A [for] loop whose body may raise. *)
Fixpoint for_each {S I} (body : S → I → result S) (l : list I) (s : S) : result S :=
  match l with
  | [] => Ok s
  | i :: l' => s' ← body s i; for_each body l' s'
  end.

End Py.
Export Py.

(** ** [src/cosmology.py] *)

Module Cosmology.
#[local] Open Scope float_scope.

Definition C_LIGHT : float := 299792458.0.
Definition G_NEWTON : float := 6.67430e-11.
Definition MPC_TO_M : float := 3.0856775814913673e22.
Definition KM_TO_M : float := 1000.0.

(** The part of numpy the module uses. *)
Record numpy := {
  linspace : float → float → Z → list float;
  power : float → Z → float;
  sum : list float → float;
}.

Record FlatLambdaCDM := {
  H0_km_s_Mpc : float;
  Om0 : float;
  Ode0 : float;
  n_int : Z;
  H0_SI : float;
}.

(** [FlatLambdaCDM.__init__]; [MPC_TO_M] is a non-zero constant. *)
Definition __init__ (H0 : float) (Om : float) (Ode : option float) (n : Z)
    : FlatLambdaCDM :=
  {| H0_km_s_Mpc := H0;
     Om0 := Om;
     Ode0 := match Ode with None => 1.0 - Om | Some v => v end;
     n_int := if negb (n mod 2 =? 0)%Z then (n + 1)%Z else n;
     H0_SI := (H0 * KM_TO_M) / MPC_TO_M |}.

Section Runtime.
(** [try: import numpy as np / except Exception: np = None] *)
Variable np : option numpy.
(** [float.__pow__] with an [int] exponent: a float, or [OverflowError]. *)
Variable float_pow : float → Z → result float.

Definition _simpson_step (f : pyobj → result pyobj) (a h : float)
    (s : num * num) (i : Z) : result (num * num) :=
  let x := (a + float_of_int i * h)%float in
  y ← f (Scalar (PyFloat x)) ≫= as_scalar;
  if (i mod 2 =? 1)%Z then Ok (add s.1 y, s.2) else Ok (s.1, add s.2 y).

Definition _simpson_integrate (f : pyobj → result pyobj) (a b : float) (n : Z)
    : result num :=
  if (n <=? 0)%Z || negb (n mod 2 =? 0)%Z
  then Raise (ValueError "Simpson integration requires positive even n.")
  else
    h ← truediv (b - a) (float_of_int n);
    match np with
    | Some np =>
        let x := linspace np a b (n + 1)%Z in
        y ← f (Array x) ≫= as_array;
        h3 ← truediv h 3.0;
        y0 ← index_first y;
        yn ← index_last y;
        Ok (mul (PyFloat h3)
              (NpFloat64 (y0 + yn + 4.0 * sum np (slice_to_last_by_2 1 y)
                                  + 2.0 * sum np (slice_to_last_by_2 2 y))))
    | None =>
        fa ← f (Scalar (PyFloat a)) ≫= as_scalar;
        fb ← f (Scalar (PyFloat b)) ≫= as_scalar;
        let s0 := add fa fb in
        s ← for_each (_simpson_step f a h) (seqZ 1 (n - 1)%Z)
              (PyFloat 0.0, PyFloat 0.0);
        h3 ← truediv h 3.0;
        Ok (mul (PyFloat h3)
              (add (add s0 (mul (PyFloat 4.0) s.1)) (mul (PyFloat 2.0) s.2)))
    end.

Section Methods.
Variable self : FlatLambdaCDM.

Definition E (z : pyobj) : result pyobj :=
  match np, z with
  | Some np, Array zs =>
      Ok (Array ((λ z, sqrt (Om0 self * power np (1.0 + z) 3 + Ode0 self)) <$> zs))
  | _, _ =>
      z ← val <$> as_scalar z;
      p ← float_pow (1.0 + z) 3;
      r ← math_sqrt (Om0 self * p + Ode0 self);
      Ok (Scalar (PyFloat r))
  end.

Definition invE (x : pyobj) : result pyobj :=
  e ← E x;
  match e with
  | Scalar e => Scalar <$> div (PyFloat 1.0) e
  | Array es => Ok (Array ((λ e, 1.0 / e) <$> es))
  end.

Definition comoving_distance (z : float) : result num :=
  if z <? 0.0 then Raise (ValueError "z must be >= 0")
  else
    integral ← (if 0.0 <? z then _simpson_integrate invE 0.0 z (n_int self)
                else Ok (PyFloat 0.0));
    pref ← truediv C_LIGHT (H0_SI self);
    Ok (mul (PyFloat pref) integral).

Definition angular_diameter_distance (z : float) : result num :=
  if z <? 0.0 then Raise (ValueError "z must be >= 0")
  else
    Dc ← comoving_distance z;
    div Dc (PyFloat (1.0 + z)).

Definition angular_diameter_distance_z1z2 (z1 z2 : float) : result num :=
  if (z1 <? 0.0) || (z2 <? 0.0) then Raise (ValueError "z must be >= 0")
  else if z2 <=? z1 then Ok (PyFloat nan)
  else
    Dc1 ← comoving_distance z1;
    Dc2 ← comoving_distance z2;
    div (sub Dc2 Dc1) (PyFloat (1.0 + z2)).

Definition sigma_crit (z_l z_s : float) : result num :=
  if z_s <=? z_l then Ok (PyFloat nan)
  else
    D_l ← angular_diameter_distance z_l;
    D_s ← angular_diameter_distance z_s;
    D_ls ← angular_diameter_distance_z1z2 z_l z_s;
    if (val D_l <=? 0.0) || (val D_s <=? 0.0) || (val D_ls <=? 0.0)
       || _is_nan (val D_l) || _is_nan (val D_s) || _is_nan (val D_ls)
    then Ok (PyFloat nan)
    else
      c2 ← float_pow C_LIGHT 2;
      pref ← truediv c2 (4.0 * math_pi * G_NEWTON);
      q ← div D_s (mul D_l D_ls);
      Ok (mul (PyFloat pref) q).
End Methods.
End Runtime.

End Cosmology.

(** ** [src/validate.py] *)

Module Validate.
#[local] Open Scope float_scope.

(** A raw catalogue field: [None], an object [float()] converts to [v], or
    an object on which [float()] raises [TypeError] or [ValueError]. *)
Inductive pyraw :=
  | PyNone
  | PyNumber (v : float)
  | PyNonNumeric.

Record ValidationResult := {
  is_valid : bool;
  flags : list string;
  normalized : gmap string (option float);
}.

(** The closure [_to_float] appends to the enclosing [flags]: the list is
    passed in and handed back. *)
Definition _to_float (flags : list string) (x : pyraw) (name : string)
    : list string * option float :=
  match x with
  | PyNone => (flags ++ ["flag_missing_" +:+ name], None)
  | PyNonNumeric => (flags ++ ["flag_non_numeric_" +:+ name], None)
  | PyNumber v =>
      if _is_nan v then (flags ++ ["flag_nan_" +:+ name], None)
      else if _is_inf v then (flags ++ ["flag_inf_" +:+ name], None)
      else (flags, Some v)
  end.

Definition is_not_None (x : pyraw) : bool :=
  match x with PyNone => false | _ => true end.

(** [if c: flags.append(flag)] *)
Definition append_if (c : bool) (flag : string) (flags : list string) : list string :=
  if c then flags ++ [flag] else flags.

(** [x is not None and p(x)] *)
Definition present_and (x : option float) (p : float → bool) : bool :=
  match x with Some v => p v | None => false end.

Definition validate_lens_inputs (theta_E_arcsec z_l z_s : pyraw)
    (require_zs strict : bool) : ValidationResult :=
  let flags := [] in
  let normalized : gmap string (option float) := ∅ in
  let '(flags, th) := _to_float flags theta_E_arcsec "thetaE" in
  let '(flags, zl) := _to_float flags z_l "zl" in
  let '(flags, zs) :=
    if require_zs || is_not_None z_s then _to_float flags z_s "zs"
    else (flags, None) in
  let flags := append_if (present_and th (λ th, th <=? 0.0))
                 "flag_thetaE_nonpositive" flags in
  let flags := append_if (present_and zl (λ zl, zl <? 0.0))
                 "flag_zl_negative" flags in
  let flags :=
    if require_zs then
      let flags := append_if (present_and zs (λ zs, zs <? 0.0))
                     "flag_zs_negative" flags in
      append_if (present_and zs (λ zs, present_and zl (λ zl, negb (zl <? zs))))
        "flag_zs_le_zl" flags
    else
      match zs with
      | Some zs =>
          let flags := append_if (zs <? 0.0) "flag_zs_negative" flags in
          append_if (present_and zl (λ zl, negb (zl <? zs))) "flag_zs_le_zl" flags
      | None => flags
      end in
  let is_valid := if strict then bool_decide (length flags = 0%nat) else true in
  let normalized :=
    if is_valid then
      let normalized := <["z_l" := zl]> (<["theta_E_arcsec" := th]> ∅) in
      match zs with
      | Some _ => <["z_s" := zs]> normalized
      | None => normalized
      end
    else normalized in
  {| is_valid := is_valid; flags := flags; normalized := normalized |}.

End Validate.

(** ** [src/sensitivity.py] *)

Module Sensitivity.
#[local] Open Scope float_scope.
Import Validate.

Definition ARCSEC_TO_RAD : float := (math_pi / 180.0) / 3600.0.

Definition _is_finite (x : float) : bool := negb (_is_nan x) && negb (_is_inf x).

(** The [out] dictionary; its keys are fixed when it is created. *)
Record SensitivityResult := {
  is_valid : bool;
  flags : list string;
  theta_E_arcsec : pyraw;
  z_l : pyraw;
  z_s : pyraw;
  theta_E_rad : num;
  D_l_m : num;
  Sigma_crit_kg_m2 : num;
  M_inf_kg : num;
  S_dlnM_dzs : num;
  dM_over_M_for_delta_z : num;
}.

(** [out[key] = value] *)
Definition set_is_valid (b : bool) (o : SensitivityResult) :=
  {| is_valid := b; flags := flags o; theta_E_arcsec := theta_E_arcsec o;
     z_l := z_l o; z_s := z_s o; theta_E_rad := theta_E_rad o; D_l_m := D_l_m o;
     Sigma_crit_kg_m2 := Sigma_crit_kg_m2 o; M_inf_kg := M_inf_kg o;
     S_dlnM_dzs := S_dlnM_dzs o; dM_over_M_for_delta_z := dM_over_M_for_delta_z o |}.
Definition set_flags (l : list string) (o : SensitivityResult) :=
  {| is_valid := is_valid o; flags := l; theta_E_arcsec := theta_E_arcsec o;
     z_l := z_l o; z_s := z_s o; theta_E_rad := theta_E_rad o; D_l_m := D_l_m o;
     Sigma_crit_kg_m2 := Sigma_crit_kg_m2 o; M_inf_kg := M_inf_kg o;
     S_dlnM_dzs := S_dlnM_dzs o; dM_over_M_for_delta_z := dM_over_M_for_delta_z o |}.
Definition set_inputs (th zl zs : pyraw) (o : SensitivityResult) :=
  {| is_valid := is_valid o; flags := flags o; theta_E_arcsec := th;
     z_l := zl; z_s := zs; theta_E_rad := theta_E_rad o; D_l_m := D_l_m o;
     Sigma_crit_kg_m2 := Sigma_crit_kg_m2 o; M_inf_kg := M_inf_kg o;
     S_dlnM_dzs := S_dlnM_dzs o; dM_over_M_for_delta_z := dM_over_M_for_delta_z o |}.
Definition set_theta_E_rad (v : num) (o : SensitivityResult) :=
  {| is_valid := is_valid o; flags := flags o; theta_E_arcsec := theta_E_arcsec o;
     z_l := z_l o; z_s := z_s o; theta_E_rad := v; D_l_m := D_l_m o;
     Sigma_crit_kg_m2 := Sigma_crit_kg_m2 o; M_inf_kg := M_inf_kg o;
     S_dlnM_dzs := S_dlnM_dzs o; dM_over_M_for_delta_z := dM_over_M_for_delta_z o |}.
Definition set_D_l_m (v : num) (o : SensitivityResult) :=
  {| is_valid := is_valid o; flags := flags o; theta_E_arcsec := theta_E_arcsec o;
     z_l := z_l o; z_s := z_s o; theta_E_rad := theta_E_rad o; D_l_m := v;
     Sigma_crit_kg_m2 := Sigma_crit_kg_m2 o; M_inf_kg := M_inf_kg o;
     S_dlnM_dzs := S_dlnM_dzs o; dM_over_M_for_delta_z := dM_over_M_for_delta_z o |}.
Definition set_Sigma_crit_kg_m2 (v : num) (o : SensitivityResult) :=
  {| is_valid := is_valid o; flags := flags o; theta_E_arcsec := theta_E_arcsec o;
     z_l := z_l o; z_s := z_s o; theta_E_rad := theta_E_rad o; D_l_m := D_l_m o;
     Sigma_crit_kg_m2 := v; M_inf_kg := M_inf_kg o;
     S_dlnM_dzs := S_dlnM_dzs o; dM_over_M_for_delta_z := dM_over_M_for_delta_z o |}.
Definition set_M_inf_kg (v : num) (o : SensitivityResult) :=
  {| is_valid := is_valid o; flags := flags o; theta_E_arcsec := theta_E_arcsec o;
     z_l := z_l o; z_s := z_s o; theta_E_rad := theta_E_rad o; D_l_m := D_l_m o;
     Sigma_crit_kg_m2 := Sigma_crit_kg_m2 o; M_inf_kg := v;
     S_dlnM_dzs := S_dlnM_dzs o; dM_over_M_for_delta_z := dM_over_M_for_delta_z o |}.
Definition set_S_dlnM_dzs (v : num) (o : SensitivityResult) :=
  {| is_valid := is_valid o; flags := flags o; theta_E_arcsec := theta_E_arcsec o;
     z_l := z_l o; z_s := z_s o; theta_E_rad := theta_E_rad o; D_l_m := D_l_m o;
     Sigma_crit_kg_m2 := Sigma_crit_kg_m2 o; M_inf_kg := M_inf_kg o;
     S_dlnM_dzs := v; dM_over_M_for_delta_z := dM_over_M_for_delta_z o |}.
Definition set_dM_over_M_for_delta_z (v : num) (o : SensitivityResult) :=
  {| is_valid := is_valid o; flags := flags o; theta_E_arcsec := theta_E_arcsec o;
     z_l := z_l o; z_s := z_s o; theta_E_rad := theta_E_rad o; D_l_m := D_l_m o;
     Sigma_crit_kg_m2 := Sigma_crit_kg_m2 o; M_inf_kg := M_inf_kg o;
     S_dlnM_dzs := S_dlnM_dzs o; dM_over_M_for_delta_z := v |}.

(** The [cosmo] argument: any object with these two methods. *)
Record CosmologyObject := {
  angular_diameter_distance : float → result num;
  sigma_crit : float → float → result num;
}.

(** [d[key]] on the [normalized] dictionary, and the use of its value as a
    float. *)
Definition getitem (d : gmap string (option float)) (key : string)
    : result (option float) :=
  match d !! key with Some v => Ok v | None => Raise (KeyError key) end.
Definition as_float (v : option float) : result float :=
  match v with Some x => Ok x | None => Raise TypeError end.

Section Runtime.
Variable float_pow : float → Z → result float.
(** [numpy.float64.__pow__] with an [int] exponent. *)
Variable np_float64_pow : float → Z → float.
(** [math.log]: a float, or [ValueError]. *)
Variable math_log : float → result float.

Definition pow (a : num) (k : Z) : result num :=
  match a with
  | PyFloat x => PyFloat <$> float_pow x k
  | NpFloat64 x => Ok (NpFloat64 (np_float64_pow x k))
  end.

Definition ln_sigma (cosmo : CosmologyObject) (zl zv : float) : result float :=
  s ← sigma_crit cosmo zl zv;
  if negb (_is_finite (val s)) || (val s <=? 0.0) then Ok nan
  else math_log (val s).

(** [compute_sensitivity], on a step [h] that is [None] or a float and a
    float [delta_z], as its docstring has them: [float(h)] and
    [float(delta_z)] are then the identity. *)
Definition compute_sensitivity (theta_E_arcsec z_l z_s : pyraw)
    (cosmo : CosmologyObject) (h : option float) (delta_z : float)
    : result SensitivityResult :=
  let out :=
    {| is_valid := false; flags := [];
       theta_E_arcsec := theta_E_arcsec; z_l := z_l; z_s := z_s;
       theta_E_rad := PyFloat nan; D_l_m := PyFloat nan;
       Sigma_crit_kg_m2 := PyFloat nan; M_inf_kg := PyFloat nan;
       S_dlnM_dzs := PyFloat nan; dM_over_M_for_delta_z := PyFloat nan |} in
  let v := validate_lens_inputs theta_E_arcsec z_l z_s true true in
  if negb (Validate.is_valid v) then Ok (set_flags (Validate.flags v) out)
  else
    th_arcsec ← getitem (normalized v) "theta_E_arcsec";
    zl ← getitem (normalized v) "z_l";
    zs ← getitem (normalized v) "z_s";
    if match h with None => true | Some h => h <=? 0.0 end
    then Ok (set_flags ["flag_invalid_h"] out)
    else
      let h := default nan h in
      th_arcsec ← as_float th_arcsec;
      let theta_rad := th_arcsec * ARCSEC_TO_RAD in
      let out := set_theta_E_rad (PyFloat theta_rad) out in
      zl ← as_float zl;
      D_l ← angular_diameter_distance cosmo zl;
      let out := set_D_l_m D_l out in
      zs ← as_float zs;
      Sigma ← sigma_crit cosmo zl zs;
      let out := set_Sigma_crit_kg_m2 Sigma out in
      if negb (_is_finite (val D_l)) || (val D_l <=? 0.0)
      then Ok (set_flags ["flag_nonfinite_D_l"] out)
      else if negb (_is_finite (val Sigma)) || (val Sigma <=? 0.0)
      then Ok (set_flags ["flag_nonfinite_Sigma_crit"] out)
      else
        let R := mul D_l (PyFloat theta_rad) in
        R2 ← pow R 2;
        let M_inf := mul (mul (PyFloat math_pi) R2) Sigma in
        let out := set_M_inf_kg M_inf out in
        if negb (_is_finite (val M_inf)) || (val M_inf <=? 0.0)
        then Ok (set_flags ["flag_nonfinite_M_inf"] out)
        else
          let flags := [] in
          let z_minus := zs - h in
          let z_plus := zs + h in
          (** the value of [S] with the fallback flags, or the failure flag *)
          S_or_flag ←
            (ln_sp ← ln_sigma cosmo zl z_plus;
             ln_sm ← ln_sigma cosmo zl z_minus;
             if _is_finite ln_sp && _is_finite ln_sm then
               Sv ← truediv (ln_sp - ln_sm) (2.0 * h);
               Ok (inl (Sv, flags))
             else
               ln_s0 ← ln_sigma cosmo zl zs;
               if negb (_is_finite ln_s0)
               then Ok (inr "flag_nonfinite_lnSigma_at_zs")
               else
                 ln_sp ← ln_sigma cosmo zl z_plus;
                 if _is_finite ln_sp then
                   Sv ← truediv (ln_sp - ln_s0) h;
                   Ok (inl (Sv, flags ++ ["flag_used_forward_diff"]))
                 else
                   ln_sm ← ln_sigma cosmo zl z_minus;
                   if _is_finite ln_sm then
                     Sv ← truediv (ln_s0 - ln_sm) h;
                     Ok (inl (Sv, flags ++ ["flag_used_backward_diff"]))
                   else Ok (inr "flag_nonfinite_S"));
          match S_or_flag with
          | inr flag => Ok (set_flags [flag] out)
          | inl (Sv, flags) =>
              let out := set_S_dlnM_dzs (PyFloat Sv) out in
              if negb (_is_finite Sv)
              then Ok (set_flags ["flag_nonfinite_S"] out)
              else
                let dz := delta_z in
                let out := set_dM_over_M_for_delta_z (PyFloat (Sv * dz)) out in
                let out := set_is_valid true out in
                let out := set_flags flags out in
                Ok (set_inputs (PyNumber th_arcsec) (PyNumber zl) (PyNumber zs) out)
          end.
End Runtime.

(** A [FlatLambdaCDM] instance as the [cosmo] argument. *)
Definition cosmo_of (np : option Cosmology.numpy) (float_pow : float → Z → result float)
    (c : Cosmology.FlatLambdaCDM) : CosmologyObject :=
  {| angular_diameter_distance := Cosmology.angular_diameter_distance np float_pow c;
     sigma_crit := Cosmology.sigma_crit np float_pow c |}.

End Sensitivity.

(** ** A reference runtime

    Executable stand-ins for what the interpreter and numpy provide, used to
    run the model on concrete inputs.  They follow the documented behaviour
    of the originals (exceptions included) and agree with them up to the last
    digits of a result. *)

Module Reference.
#[local] Open Scope float_scope.
Import Cosmology.

(** [x ** k] for an [int] [k >= 0], by repeated multiplication. *)
Definition power (x : float) (k : Z) : float :=
  Z.iter k (λ acc, acc * x) 1.0.

(** [float.__pow__]: an overflowing power of a finite float raises. *)
Definition float_pow (x : float) (k : Z) : result float :=
  let r := power x k in
  if _is_inf r && negb (_is_inf x) then Raise OverflowError else Ok r.

(** The series [2 (t + t^3/3 + t^5/5 + ...)] of [ln ((1+t)/(1-t))], by
    Horner's rule on [t^2], from the term of degree [2 (k + n) + 1] down. *)
Fixpoint atanh_series (n : nat) (k : Z) (t2 : float) : float :=
  match n with
  | O => 0.0
  | S n' => 1.0 / float_of_int (2 * k + 1) + t2 * atanh_series n' (k + 1) t2
  end.

(** [math.log]: [ValueError] outside the domain, otherwise the logarithm of
    the mantissa in [[1/2, 1)] plus the exponent times [ln 2]. *)
Definition math_log (x : float) : result float :=
  if x <=? 0.0 then Raise (ValueError "math domain error")
  else if _is_nan x || _is_inf x then Ok x
  else
    let '(m, e) := Z.frexp x in
    let t := (m - 1.0) / (m + 1.0) in
    Ok (float_of_int e * 0x1.62e42fefa39efp-1 + 2.0 * t * atanh_series 40 0 (t * t)).

(** [numpy.linspace(a, b, num)] for [num >= 2]: the multiples of the step
    (of [delta] divided first, when the step underflows to zero) plus [a],
    with [b] as the last entry; numpy's power; and [ndarray.sum] as a running
    sum (numpy adds pairwise, which can change the last digits). *)
Definition linspace (a b : float) (num : Z) : list float :=
  let div := float_of_int (num - 1) in
  let delta := b - a in
  let step := delta / div in
  let y i := if step =? 0 then float_of_int i / div * delta
             else float_of_int i * step in
  ((λ i, y i + a) <$> seqZ 0 (num - 1)) ++ [b].

Definition numpy_ref : numpy :=
  {| Cosmology.linspace := linspace;
     Cosmology.power := power;
     sum := foldl PrimFloat.add 0.0 |}.

(** The engine of the tests, [FlatLambdaCDM(H0_km_s_Mpc=70.0, Om0=0.3,
    n_int=1024)], and the default one. *)
Definition cosmo_1024 : FlatLambdaCDM := __init__ 70.0 0.3 None 1024.
Definition cosmo_default : FlatLambdaCDM := __init__ 70.0 0.3 None 2048.

(** [compute_sensitivity] on floats, with the reference runtime. *)
Definition run (np : option numpy) (c : FlatLambdaCDM)
    (theta_E z_l z_s h delta_z : float) :=
  Sensitivity.compute_sensitivity float_pow power math_log
    (Validate.PyNumber theta_E) (Validate.PyNumber z_l) (Validate.PyNumber z_s)
    (Sensitivity.cosmo_of np float_pow c) (Some h) delta_z.

End Reference.

(** ** What the specification states: the quadrature rule, the difference
       ladder and the validity of a result *)

Module Spec.
#[local] Open Scope float_scope.

(** The interior nodes [1 .. n-1] of odd and of even index. *)
Definition odd_nodes (n : Z) : list Z := List.filter Z.odd (seqZ 1 (n - 1)).
Definition even_interior_nodes (n : Z) : list Z := List.filter Z.even (seqZ 1 (n - 1)).

(** Simpson's composite rule on [n] subintervals of [[a, b]]:
    [h = (b - a)/n] and
    [(h/3) (f(a) + f(b) + 4 Σ f(odd nodes) + 2 Σ f(even interior nodes))],
    with [y i] the value of the integrand at node [i] and [Σ] the summation
    in use. *)
Definition simpson_rule (Σ : list float → float) (a b : float) (n : Z)
    (y : Z → float) : float :=
  let h := (b - a) / float_of_int n in
  (h / 3) * (y 0%Z + y n + 4 * Σ (y <$> odd_nodes n)
                        + 2 * Σ (y <$> even_interior_nodes n)).

(** Node [i] of the subdivision: [a], [b], and [a + i h] in between. *)
Definition node (a b : float) (n i : Z) : float :=
  if (i =? 0)%Z then a
  else if (i =? n)%Z then b
  else a + float_of_int i * ((b - a) / float_of_int n).

(** A sum accumulated from [0.0], left to right. *)
Definition running_sum (ys : list float) : float := foldl PrimFloat.add 0 ys.

(** Entry [i] of an array. *)
Definition entry (ys : list float) (i : Z) : float := default nan (ys !! Z.to_nat i).

(** The guard of [sigma_crit] on the three distances. *)
Definition degenerate (D_l D_s D_ls : num) : bool :=
  (val D_l <=? 0) || (val D_s <=? 0) || (val D_ls <=? 0)
  || _is_nan (val D_l) || _is_nan (val D_s) || _is_nan (val D_ls).

(** The finite-difference ladder of the specification, on the three
    logarithms [ln Σ(z_s + h)], [ln Σ(z_s - h)], [ln Σ(z_s)]: central, then
    forward, then backward, then failure.  The result is [S] with the
    fallback flags, or the flag of the failure. *)
Definition difference_ladder (ln_plus ln_minus ln_zs h : float)
    : float * list string + string :=
  if Sensitivity._is_finite ln_plus && Sensitivity._is_finite ln_minus
  then inl ((ln_plus - ln_minus) / (2 * h), [])
  else if negb (Sensitivity._is_finite ln_zs)
  then inr "flag_nonfinite_lnSigma_at_zs"
  else if Sensitivity._is_finite ln_plus
  then inl ((ln_plus - ln_zs) / h, ["flag_used_forward_diff"])
  else if Sensitivity._is_finite ln_minus
  then inl ((ln_zs - ln_minus) / h, ["flag_used_backward_diff"])
  else inr "flag_nonfinite_S".

(** The block of [compute_sensitivity] that computes [S] (from
    [flags = []] to the assignment of [out['S_dlnM_dzs']]), on the coerced
    redshifts and step. *)
Definition finite_difference (math_log : float → result float)
    (cosmo : Sensitivity.CosmologyObject) (zl zs h : float)
    : result (float * list string + string) :=
  let ln_sigma := Sensitivity.ln_sigma math_log cosmo in
  let flags := [] in
  let z_minus := zs - h in
  let z_plus := zs + h in
  ln_sp ← ln_sigma zl z_plus;
  ln_sm ← ln_sigma zl z_minus;
  if Sensitivity._is_finite ln_sp && Sensitivity._is_finite ln_sm then
    Sv ← truediv (ln_sp - ln_sm) (2.0 * h);
    Ok (inl (Sv, flags))
  else
    ln_s0 ← ln_sigma zl zs;
    if negb (Sensitivity._is_finite ln_s0)
    then Ok (inr "flag_nonfinite_lnSigma_at_zs")
    else
      ln_sp ← ln_sigma zl z_plus;
      if Sensitivity._is_finite ln_sp then
        Sv ← truediv (ln_sp - ln_s0) h;
        Ok (inl (Sv, flags ++ ["flag_used_forward_diff"]))
      else
        ln_sm ← ln_sigma zl z_minus;
        if Sensitivity._is_finite ln_sm then
          Sv ← truediv (ln_s0 - ln_sm) h;
          Ok (inl (Sv, flags ++ ["flag_used_backward_diff"]))
        else Ok (inr "flag_nonfinite_S").

(** [x] is finite and positive. *)
Definition finite_positive (x : num) : bool :=
  Sensitivity._is_finite (val x) && (0 <? val x).

(** The outputs a valid result vouches for: every numeric output but the
    bias estimate, which is a plain product with [delta_z]. *)
Definition checked_outputs_ok (r : Sensitivity.SensitivityResult) : bool :=
  Sensitivity._is_finite (val (Sensitivity.theta_E_rad r))
  && finite_positive (Sensitivity.D_l_m r)
  && finite_positive (Sensitivity.Sigma_crit_kg_m2 r)
  && finite_positive (Sensitivity.M_inf_kg r)
  && Sensitivity._is_finite (val (Sensitivity.S_dlnM_dzs r)).

(** Every numeric output is finite, and the three physical ones positive. *)
Definition all_outputs_ok (r : Sensitivity.SensitivityResult) : bool :=
  checked_outputs_ok r
  && Sensitivity._is_finite (val (Sensitivity.dM_over_M_for_delta_z r)).

(** A call gets as far as the finite difference: raw validation passes on
    the three fields, the step is positive, and the distance, the surface
    density and the mass are computed, finite and positive. *)
Definition reaches_finite_difference (float_pow : float → Z → result float)
    (np_float64_pow : float → Z → float) (cosmo : Sensitivity.CosmologyObject)
    (theta_E z_l z_s h : float) (D_l Sigma : num) : Prop :=
  Validate.is_valid
    (Validate.validate_lens_inputs (Validate.PyNumber theta_E)
       (Validate.PyNumber z_l) (Validate.PyNumber z_s) true true) = true ∧
  (h <=? 0) = false ∧
  Sensitivity.angular_diameter_distance cosmo z_l = Ok D_l ∧
  Sensitivity.sigma_crit cosmo z_l z_s = Ok Sigma ∧
  finite_positive D_l = true ∧
  finite_positive Sigma = true ∧
  ∃ R2,
    Sensitivity.pow float_pow np_float64_pow
      (mul D_l (PyFloat (theta_E * Sensitivity.ARCSEC_TO_RAD))) 2 = Ok R2 ∧
    finite_positive (mul (mul (PyFloat math_pi) R2) Sigma) = true.

(** The "reasonably bounded" of the specification, on a distance or on
    [c^2]: a number of moderate size, between [2^-200] and [2^200]. *)
Definition moderate (x : float) : bool := (0x1p-200 <=? x) && (x <=? 0x1p200).

End Spec.

(** ** Further notions

    The value a raw field is coerced to, the flags of a validation slot by
    slot, the names of the flags, the [out] dictionary at the stages of the
    kernel, and the sign and the binade of a binary64 number. *)

Module Derived.
#[local] Open Scope float_scope.
Import Validate Sensitivity Spec.

(** What [_to_float] returns for a field: its float, or [None] when it is
    missing, non-numeric, NaN or infinite. *)
Definition coerced (x : pyraw) : option float :=
  match x with
  | PyNumber v => if _is_nan v then None else if _is_inf v then None else Some v
  | _ => None
  end.

(** The flags [validate_lens_inputs] can raise, in the order it raises them. *)
Definition validator_flags : list string :=
  ["flag_missing_thetaE"; "flag_non_numeric_thetaE"; "flag_nan_thetaE"; "flag_inf_thetaE";
   "flag_missing_zl"; "flag_non_numeric_zl"; "flag_nan_zl"; "flag_inf_zl";
   "flag_missing_zs"; "flag_non_numeric_zs"; "flag_nan_zs"; "flag_inf_zs";
   "flag_thetaE_nonpositive"; "flag_zl_negative"; "flag_zs_negative"; "flag_zs_le_zl"].

(** [[flag]] if [c] holds. *)
Definition flag_if (c : bool) (flag : string) : list string := if c then [flag] else [].

(** The flags of a validation, slot by slot: the coercion of the three
    fields, then the four domain checks. *)
Definition flag_slots (th zl zs : pyraw) (req : bool) : list string :=
  (_to_float [] th "thetaE").1 ++ (_to_float [] zl "zl").1 ++
  (if req || is_not_None zs then (_to_float [] zs "zs").1 else []) ++
  flag_if (present_and (coerced th) (λ t, t <=? 0)) "flag_thetaE_nonpositive" ++
  flag_if (present_and (coerced zl) (λ l, l <? 0)) "flag_zl_negative" ++
  flag_if (present_and (coerced zs) (λ s, s <? 0)) "flag_zs_negative" ++
  flag_if (present_and (coerced zs) (λ s, present_and (coerced zl) (λ l, negb (l <? s))))
    "flag_zs_le_zl".

(** The flags with which the kernel gives up. *)
Definition kernel_flags : list string :=
  ["flag_invalid_h"; "flag_nonfinite_D_l"; "flag_nonfinite_Sigma_crit";
   "flag_nonfinite_M_inf"; "flag_nonfinite_lnSigma_at_zs"; "flag_nonfinite_S"].

(** The [out] dictionary as [compute_sensitivity] creates it. *)
Definition out_init (th zl zs : pyraw) : SensitivityResult :=
  {| is_valid := false; flags := [];
     theta_E_arcsec := th; z_l := zl; z_s := zs;
     theta_E_rad := PyFloat nan; D_l_m := PyFloat nan;
     Sigma_crit_kg_m2 := PyFloat nan; M_inf_kg := PyFloat nan;
     S_dlnM_dzs := PyFloat nan; dM_over_M_for_delta_z := PyFloat nan |}.

(** [out] after the core quantities have been stored. *)
Definition out_core (t l s : float) (D_l Sigma : num) : SensitivityResult :=
  set_Sigma_crit_kg_m2 Sigma
    (set_D_l_m D_l
       (set_theta_E_rad (PyFloat (t * ARCSEC_TO_RAD))
          (out_init (PyNumber t) (PyNumber l) (PyNumber s)))).

(** The kernel past the raw validation and the check of the step. *)
Definition kernel (float_pow : float → Z → result float)
    (np_float64_pow : float → Z → float) (math_log : float → result float)
    (cosmo : CosmologyObject) (t l s hv dz : float) : result SensitivityResult :=
  D_l ← angular_diameter_distance cosmo l;
  Sigma ← sigma_crit cosmo l s;
  let out := out_core t l s D_l Sigma in
  if negb (finite_positive D_l) then Ok (set_flags ["flag_nonfinite_D_l"] out)
  else if negb (finite_positive Sigma) then Ok (set_flags ["flag_nonfinite_Sigma_crit"] out)
  else
    R2 ← pow float_pow np_float64_pow (mul D_l (PyFloat (t * ARCSEC_TO_RAD))) 2;
    let out := set_M_inf_kg (mul (mul (PyFloat math_pi) R2) Sigma) out in
    if negb (finite_positive (mul (mul (PyFloat math_pi) R2) Sigma))
    then Ok (set_flags ["flag_nonfinite_M_inf"] out)
    else
      S_or_flag ← finite_difference math_log cosmo l s hv;
      match S_or_flag with
      | inr flag => Ok (set_flags [flag] out)
      | inl (Sv, fl) =>
          let out := set_S_dlnM_dzs (PyFloat Sv) out in
          if negb (_is_finite Sv) then Ok (set_flags ["flag_nonfinite_S"] out)
          else Ok (set_inputs (PyNumber t) (PyNumber l) (PyNumber s)
                     (set_flags fl (set_is_valid true
                        (set_dM_over_M_for_delta_z (PyFloat (Sv * dz)) out))))
      end.

(** A number whose sign bit is clear: [+0], a positive finite number or
    [+inf]. *)
Definition sign_clear (x : float) : bool :=
  match Prim2SF x with
  | S754_zero s | S754_infinity s | S754_finite s _ _ => negb s
  | S754_nan => false
  end.

(** A number that is [+0], positive, [+inf] or NaN. *)
Definition sign_clear_or_nan (x : float) : bool := sign_clear x || _is_nan x.

(** A positive finite number [m * 2^e] whose binade [digits m + e] lies
    between [lo] and [hi]: [2^(lo-1) <= x < 2^hi]. *)
Definition binade_within (lo hi : Z) (x : float) : Prop :=
  ∃ m e, Prim2SF x = S754_finite false m e ∧ (lo ≤ Zdigits2 (Z.pos m) + e ≤ hi)%Z.

End Derived.

(** * Facts *)

(** ** Binary64 arithmetic *)

Module FloatFacts.
#[local] Open Scope Z_scope.

Lemma Prim2SF_inj x y : Prim2SF x = Prim2SF y → x = y.
Proof.
  intros H. rewrite <- (SF2Prim_Prim2SF x), <- (SF2Prim_Prim2SF y). now rewrite H.
Qed.

(** *** Shifting a mantissa to the right *)

Lemma iter_pos_iter {A} (f : A → A) p x : SpecFloat.iter_pos f p x = Pos.iter f x p.
Proof.
  revert x. induction p as [p IH|p IH|]; intros x; simpl.
  - rewrite !IH. now rewrite <- !Pos.iter_swap.
  - now rewrite !IH.
  - reflexivity.
Qed.

Lemma shr_1_m mrs : 0 ≤ shr_m mrs → shr_m (shr_1 mrs) = Z.div2 (shr_m mrs).
Proof. destruct mrs as [[|[p|p|]|p] r s]; simpl; intros; try reflexivity; lia. Qed.

Lemma shiftr_pos_iter a p : Z.shiftr a (Z.pos p) = Pos.iter Z.div2 a p.
Proof. reflexivity. Qed.

Lemma shr_iter_m p mrs :
  0 ≤ shr_m mrs →
  shr_m (Pos.iter shr_1 mrs p) = Z.shiftr (shr_m mrs) (Z.pos p).
Proof.
  intros Hm. rewrite shiftr_pos_iter.
  induction p as [|p IH] using Pos.peano_ind; simpl.
  - now apply shr_1_m.
  - rewrite !Pos.iter_succ, shr_1_m, IH; [reflexivity|].
    rewrite IH, <- shiftr_pos_iter. now apply Z.shiftr_nonneg.
Qed.

Lemma shr_spec mrs e n :
  0 ≤ shr_m mrs →
  shr_m (shr mrs e n).1 = Z.shiftr (shr_m mrs) (Z.max 0 n) ∧
  (shr mrs e n).2 = e + Z.max 0 n.
Proof.
  intros Hm. destruct n as [|p|p]; simpl.
  - split; [reflexivity|lia].
  - rewrite iter_pos_iter, shr_iter_m by done.
    replace (Z.max 0 (Z.pos p)) with (Z.pos p) by lia. done.
  - split; [reflexivity|lia].
Qed.

Lemma shr_1_exact a :
  0 ≤ a →
  shr_1 {| shr_m := 2 * a; shr_r := false; shr_s := false |}
    = {| shr_m := a; shr_r := false; shr_s := false |}.
Proof. destruct a; simpl; intros; try reflexivity; lia. Qed.

Lemma shr_iter_exact p c :
  0 ≤ c →
  Pos.iter shr_1 {| shr_m := c * 2 ^ Z.pos p; shr_r := false; shr_s := false |} p
    = {| shr_m := c; shr_r := false; shr_s := false |}.
Proof.
  intros Hc. induction p as [|p IH] using Pos.peano_ind.
  - simpl Pos.iter. replace (c * 2 ^ 1) with (2 * c) by lia. now apply shr_1_exact.
  - rewrite Pos.iter_succ_r, Pos2Z.inj_succ, Z.pow_succ_r by lia.
    replace (c * (2 * 2 ^ Z.pos p)) with (2 * (c * 2 ^ Z.pos p)) by lia.
    rewrite shr_1_exact; [exact IH|]. pose proof (Z.pow_pos_nonneg 2 (Z.pos p)). nia.
Qed.

Lemma shr_record_of_loc_m m l : shr_m (shr_record_of_loc m l) = m.
Proof. now destruct l as [|[]]. Qed.

Lemma Zdigits2_log2 p : Zdigits2 (Z.pos p) = Z.log2 (Z.pos p) + 1.
Proof.
  simpl. induction p as [p IH|p IH|]; simpl; try reflexivity.
  - rewrite Pos2Z.inj_succ, IH. destruct p; simpl; lia.
  - rewrite Pos2Z.inj_succ, IH. destruct p; simpl; lia.
Qed.


Lemma Zdigits2_nonneg m : 0 ≤ Zdigits2 m.
Proof. destruct m; simpl; lia. Qed.

Lemma Zdigits2_shiftr m k :
  0 ≤ m → 0 ≤ k → Zdigits2 (Z.shiftr m k) = Z.max 0 (Zdigits2 m - k).
Proof.
  intros Hm Hk. destruct m as [|p|p]; [rewrite Z.shiftr_0_l; simpl; lia| |lia].
  destruct (Z.shiftr (Z.pos p) k) as [|q|q] eqn:Hs.
  - apply Z.shiftr_eq_0_iff in Hs as [|[_ Hs]]; [lia|].
    rewrite Zdigits2_log2. change (Zdigits2 0) with 0. lia.
  - rewrite !Zdigits2_log2, <- Hs, Z.log2_shiftr by lia.
    assert (Z.shiftr (Z.pos p) k ≠ 0) as Hne by (rewrite Hs; lia).
    rewrite Z.shiftr_eq_0_iff in Hne. lia.
  - pose proof (Z.shiftr_nonneg (Z.pos p) k). lia.
Qed.

Lemma Zdigits2_succ_le m : 0 ≤ m → Zdigits2 (m + 1) ≤ Zdigits2 m + 1.
Proof.
  intros Hm. destruct m as [|p|p]; [simpl; lia| |lia].
  replace (Z.pos p + 1) with (Z.pos (p + 1)) by lia.
  rewrite !Zdigits2_log2. replace (Z.pos (p + 1)) with (Z.succ (Z.pos p)) by lia.
  pose proof (Z.log2_succ_le (Z.pos p)). lia.
Qed.

Lemma Zdigits2_mono a b : 0 ≤ a ≤ b → Zdigits2 a ≤ Zdigits2 b.
Proof.
  intros [Ha Hab]. destruct a as [|p|p]; [apply Zdigits2_nonneg| |lia].
  destruct b as [|q|q]; try lia. rewrite !Zdigits2_log2.
  pose proof (Z.log2_le_mono _ _ Hab). lia.
Qed.

Lemma Zdigits2_le_iff m n : 0 ≤ m → 0 ≤ n → Zdigits2 m ≤ n ↔ m < 2 ^ n.
Proof.
  intros Hm Hn. destruct m as [|p|p]; [|rewrite Zdigits2_log2, Z.log2_lt_pow2; lia|lia].
  change (Zdigits2 0) with 0. pose proof (Z.pow_pos_nonneg 2 n). lia.
Qed.

(** *** Rounding to binary64 *)

Abbreviation fexp := (SpecFloat.fexp prec emax).

Lemma fexp_unfold e : fexp e = Z.max (e - 53) (-1074).
Proof. reflexivity. Qed.

Lemma shr_fexp_spec m e l :
  0 ≤ m →
  let r := shr_fexp prec emax m e l in
  0 ≤ shr_m r.1 ∧
  r.2 = Z.max e (fexp (Zdigits2 m + e)) ∧
  Zdigits2 (shr_m r.1) + r.2 = Z.max r.2 (Zdigits2 m + e) ∧
  (0 < m → -1074 < Zdigits2 m + e → 0 < shr_m r.1).
Proof.
  intros Hm r. subst r. unfold shr_fexp.
  set (k := fexp (Zdigits2 m + e) - e).
  destruct (shr_spec (shr_record_of_loc m l) e k) as [H1 H2].
  { now rewrite shr_record_of_loc_m. }
  rewrite shr_record_of_loc_m in H1. rewrite H1, H2.
  pose proof (Zdigits2_nonneg m) as Hd.
  rewrite Zdigits2_shiftr by lia.
  assert (Hk : k = Z.max (Zdigits2 m - 53) (-1074 - e)).
  { unfold k. rewrite fexp_unfold. lia. }
  clearbody k.
  repeat split.
  - apply Z.shiftr_nonneg; lia.
  - rewrite fexp_unfold. lia.
  - lia.
  - intros Hpos Hlow.
    assert (Z.shiftr m (Z.max 0 k) ≠ 0) as Hne.
    { rewrite Z.shiftr_eq_0_iff. destruct m as [|p|p]; try lia.
      rewrite Zdigits2_log2 in *. pose proof (Z.log2_nonneg (Z.pos p)). lia. }
    pose proof (Z.shiftr_nonneg m (Z.max 0 k)). lia.
Qed.

Lemma shr_fexp_value m e l :
  0 ≤ m →
  let r := shr_fexp prec emax m e l in
  shr_m r.1 = Z.shiftr m (r.2 - e) ∧
  (l = loc_Exact → m = shr_m r.1 * 2 ^ (r.2 - e) → loc_of_shr_record r.1 = loc_Exact).
Proof.
  intros Hm r. subst r. unfold shr_fexp.
  destruct (fexp (Zdigits2 m + e) - e) as [|p|p]; simpl.
  - rewrite Z.sub_diag, shr_record_of_loc_m. split; [reflexivity|]. now intros ->.
  - rewrite iter_pos_iter, shr_iter_m by now rewrite shr_record_of_loc_m.
    rewrite shr_record_of_loc_m. replace (e + Z.pos p - e) with (Z.pos p) by lia.
    split; [reflexivity|]. intros -> Heq. simpl. rewrite Heq at 1.
    rewrite shr_iter_exact; [reflexivity|]. apply Z.shiftr_nonneg; lia.
  - rewrite Z.sub_diag, shr_record_of_loc_m. split; [reflexivity|]. now intros ->.
Qed.

Lemma round_nearest_even_spec m l :
  0 ≤ m → m ≤ round_nearest_even m l ≤ m + 1.
Proof. intros Hm. destruct l as [|[]]; simpl; try destruct (Z.even m); lia. Qed.

(** The result of rounding a non-negative mantissa: a zero, a finite number
    or an infinity of the given sign, with an exponent bounded by that of the
    input; and never a zero for an input above the subnormal range. *)
Lemma binary_round_aux_spec s m e l :
  0 ≤ m →
  ∃ m' e',
    binary_round_aux prec emax s m e l =
      match m' with
      | Z0 => S754_zero s
      | Z.pos p => if e' <=? 971 then S754_finite s p e' else S754_infinity s
      | Z.neg _ => S754_nan
      end ∧
    0 ≤ m' ∧
    e' ≤ Z.max e (fexp (Zdigits2 m + e + 1)) ∧
    (0 < m → -1074 < Zdigits2 m + e → 0 < m').
Proof.
  intros Hm. unfold binary_round_aux.
  destruct (shr_fexp_spec m e l Hm) as (Hm1 & He1 & Hd1 & Hp1).
  destruct (shr_fexp prec emax m e l) as [mrs1 e1]; simpl in *.
  set (m2 := round_nearest_even (shr_m mrs1) (loc_of_shr_record mrs1)).
  pose proof (round_nearest_even_spec (shr_m mrs1) (loc_of_shr_record mrs1) Hm1) as Hr.
  fold m2 in Hr.
  assert (Hm2 : 0 ≤ m2) by lia.
  destruct (shr_fexp_spec m2 e1 loc_Exact Hm2) as (Hm3 & He3 & Hd3 & Hp3).
  destruct (shr_fexp prec emax m2 e1 loc_Exact) as [mrs3 e3]; simpl in *.
  exists (shr_m mrs3), e3. split; [reflexivity|].
  assert (Hdm2 : Zdigits2 m2 ≤ Zdigits2 (shr_m mrs1) + 1).
  { etransitivity; [apply (Zdigits2_mono m2 (shr_m mrs1 + 1)); lia|].
    now apply Zdigits2_succ_le. }
  assert (Hdm2' : Zdigits2 (shr_m mrs1) ≤ Zdigits2 m2).
  { apply Zdigits2_mono; lia. }
  rewrite !fexp_unfold in *.
  repeat split; [done|lia|].
  intros Hpos Hlow. apply Hp3; lia.
Qed.

Lemma binary_round_aux_lower s m e l :
  0 < m → -1074 < Zdigits2 m + e →
  match binary_round_aux prec emax s m e l with
  | S754_finite s' m' e' => s' = s ∧ Zdigits2 m + e ≤ Zdigits2 (Z.pos m') + e'
  | S754_infinity s' => s' = s
  | _ => False
  end.
Proof.
  intros Hm Hlow. unfold binary_round_aux.
  destruct (shr_fexp_spec m e l) as (Hm1 & He1 & Hd1 & Hp1); [lia|].
  destruct (shr_fexp prec emax m e l) as [mrs1 e1]; simpl in *.
  set (m2 := round_nearest_even (shr_m mrs1) (loc_of_shr_record mrs1)).
  pose proof (round_nearest_even_spec (shr_m mrs1) (loc_of_shr_record mrs1) Hm1) as Hr.
  fold m2 in Hr.
  assert (Hm2 : 0 ≤ m2) by lia.
  destruct (shr_fexp_spec m2 e1 loc_Exact Hm2) as (Hm3 & He3 & Hd3 & Hp3).
  destruct (shr_fexp prec emax m2 e1 loc_Exact) as [mrs3 e3]; simpl in *.
  assert (Hdm2 : Zdigits2 (shr_m mrs1) ≤ Zdigits2 m2) by (apply Zdigits2_mono; lia).
  rewrite !fexp_unfold in *.
  assert (0 < shr_m mrs3) by (apply Hp3; lia).
  destruct (shr_m mrs3) as [|p|p] eqn:E; try lia.
  destruct (e3 <=? emax - prec); [|reflexivity]. split; [reflexivity|].
  change (Zdigits2 (Z.pos p)) with (Z.pos (digits2_pos p)) in Hd3. lia.
Qed.

(** Rounding a mantissa that does not exceed the largest binary64 number
    never overflows. *)
Lemma binary_round_aux_no_overflow s m e l s' :
  0 ≤ m → e ≤ 971 →
  (l = loc_Exact ∧ m ≤ (2 ^ 53 - 1) * 2 ^ (971 - e)) ∨
    m + 1 ≤ (2 ^ 53 - 1) * 2 ^ (971 - e) →
  binary_round_aux prec emax s m e l ≠ S754_infinity s'.
Proof.
  intros Hm He Hb. unfold binary_round_aux.
  destruct (shr_fexp_spec m e l Hm) as (Hm1 & He1 & Hd1 & _).
  destruct (shr_fexp_value m e l Hm) as (Hv1 & Hl1).
  destruct (shr_fexp prec emax m e l) as [mrs1 e1]; simpl in *.
  set (m2 := round_nearest_even (shr_m mrs1) (loc_of_shr_record mrs1)).
  pose proof (round_nearest_even_spec (shr_m mrs1) (loc_of_shr_record mrs1) Hm1) as Hr.
  fold m2 in Hr.
  assert (Hm2 : 0 ≤ m2) by lia.
  destruct (shr_fexp_spec m2 e1 loc_Exact Hm2) as (Hm3 & He3 & _).
  destruct (shr_fexp prec emax m2 e1 loc_Exact) as [mrs3 e3]; simpl in *.
  assert (Hpow : 0 < 2 ^ (971 - e)) by (apply Z.pow_pos_nonneg; lia).
  assert (Hlt : m < 2 ^ (1024 - e)).
  { replace (1024 - e) with (53 + (971 - e)) by lia. rewrite Z.pow_add_r by lia.
    nia. }
  assert (Hd : Zdigits2 m + e ≤ 1024).
  { apply (Zdigits2_le_iff m (1024 - e)) in Hlt; lia. }
  rewrite !fexp_unfold in *.
  assert (Hd1' : Zdigits2 (shr_m mrs1) ≤ 53) by lia.
  assert (He1' : e1 ≤ 971) by lia.
  assert (Hd2 : Zdigits2 m2 + e1 ≤ 1024).
  { destruct (Z.le_gt_cases (Zdigits2 m2) 53) as [|Hgt]; [lia|].
    assert (Zdigits2 m2 ≤ Zdigits2 (shr_m mrs1) + 1).
    { etransitivity; [apply (Zdigits2_mono m2 (shr_m mrs1 + 1)); lia|].
      now apply Zdigits2_succ_le. }
    destruct (Z.le_gt_cases e1 970) as [|He971]; [lia|].
    exfalso. assert (e1 = 971) as -> by lia.
    assert (H1 : shr_m mrs1 < 2 ^ 53) by (apply Zdigits2_le_iff; lia).
    assert (H2 : ¬ m2 < 2 ^ 53) by (rewrite <- Zdigits2_le_iff; lia).
    assert (Hm1v : shr_m mrs1 = 2 ^ 53 - 1) by lia.
    rewrite Z.shiftr_div_pow2 in Hv1 by lia.
    pose proof (Z.mul_div_le m (2 ^ (971 - e)) Hpow) as Hle.
    rewrite <- Hv1, Hm1v in Hle.
    destruct Hb as [[-> Hb]|Hb]; [|lia].
    assert (Hex : loc_of_shr_record mrs1 = loc_Exact).
    { apply Hl1; [reflexivity|]. rewrite Hm1v. lia. }
    unfold m2 in H2. rewrite Hex in H2. simpl in H2. lia. }
  destruct (shr_m mrs3); try discriminate.
  destruct (Z.leb_spec e3 (emax - prec)); [discriminate|].
  change (emax - prec) with 971 in *. lia.
Qed.

(** *** Alignment and normalisation *)

Lemma digits2_pos_iter_xO m d :
  Z.pos (digits2_pos (Pos.iter xO m d)) = Z.pos (digits2_pos m) + Z.pos d.
Proof.
  induction d as [|d IH] using Pos.peano_ind; simpl; [lia|].
  rewrite Pos.iter_succ. simpl. lia.
Qed.

Lemma shl_align_spec m e e' :
  Z.pos (digits2_pos (shl_align m e e').1) + (shl_align m e e').2
    = Z.pos (digits2_pos m) + e ∧
  (shl_align m e e').2 = Z.min e e'.
Proof.
  unfold shl_align. destruct (e' - e) as [|d|d] eqn:Hd; simpl; try lia.
  rewrite digits2_pos_iter_xO. lia.
Qed.

(** Rounding a positive integer times a power of two whose exponent is not
    below the smallest one: a finite number or an infinity, never a zero. *)
Lemma binary_round_pos s m e :
  -1074 ≤ e →
  ∃ m' e', binary_round prec emax s m e =
    if e' <=? 971 then S754_finite s m' e' else S754_infinity s.
Proof.
  intros He. unfold binary_round.
  destruct (shl_align_spec m e (fexp (Z.pos (digits2_pos m) + e))) as [Hd Hm].
  destruct (shl_align m e _) as [mz ez]; simpl in *.
  destruct (binary_round_aux_spec s (Z.pos mz) ez loc_Exact) as (m' & e' & -> & _ & _ & Hp);
    [lia|].
  destruct m' as [|p|p].
  - exfalso. rewrite fexp_unfold in Hm. simpl Zdigits2 in Hp. lia.
  - now exists p, e'.
  - exfalso. rewrite fexp_unfold in Hm. simpl Zdigits2 in Hp. lia.
Qed.

Lemma binary_round_lower s p e :
  -1074 ≤ e →
  match binary_round prec emax s p e with
  | S754_finite s' m' e' => s' = s ∧ Zdigits2 (Z.pos p) + e ≤ Zdigits2 (Z.pos m') + e'
  | S754_infinity s' => s' = s
  | _ => False
  end.
Proof.
  intros He. unfold binary_round.
  destruct (shl_align_spec p e (fexp (Z.pos (digits2_pos p) + e))) as [Hd Hm].
  destruct (shl_align p e _) as [mz ez]; simpl in *.
  pose proof (binary_round_aux_lower s (Z.pos mz) ez loc_Exact) as H.
  rewrite fexp_unfold in Hm. simpl Zdigits2 in *.
  destruct (binary_round_aux prec emax s (Z.pos mz) ez loc_Exact); try (apply H; lia).
  destruct H as [-> H]; [lia..|]. split; [reflexivity|]. lia.
Qed.

Lemma pos_iter_xO m d : Z.pos (Pos.iter xO m d) = Z.pos m * 2 ^ Z.pos d.
Proof.
  induction d as [|d IH] using Pos.peano_ind; [simpl; lia|].
  rewrite Pos.iter_succ, Pos2Z.inj_succ, Z.pow_succ_r by lia.
  rewrite Pos2Z.inj_xO, IH. lia.
Qed.

Lemma shl_align_value m e e' :
  Z.pos (shl_align m e e').1 = Z.pos m * 2 ^ (e - (shl_align m e e').2).
Proof.
  unfold shl_align. destruct (e' - e) as [|d|d] eqn:Hd; simpl.
  - rewrite Z.sub_diag. simpl. lia.
  - rewrite Z.sub_diag. simpl. lia.
  - rewrite pos_iter_xO. f_equal. f_equal. lia.
Qed.

(** A positive integer times a power of two, below the largest binary64
    number, is rounded without overflow. *)
Lemma binary_round_no_overflow s p e s' :
  e ≤ 971 → Z.pos p ≤ (2 ^ 53 - 1) * 2 ^ (971 - e) →
  binary_round prec emax s p e ≠ S754_infinity s'.
Proof.
  intros He Hb. unfold binary_round.
  pose proof (shl_align_value p e (fexp (Z.pos (digits2_pos p) + e))) as Hv.
  destruct (shl_align_spec p e (fexp (Z.pos (digits2_pos p) + e))) as [_ Hm].
  destruct (shl_align p e _) as [mz ez]; simpl in *.
  apply binary_round_aux_no_overflow; [lia..|].
  left. split; [reflexivity|]. rewrite Hv.
  replace (971 - ez) with (971 - e + (e - ez)) by lia.
  rewrite Z.pow_add_r by lia.
  assert (0 < 2 ^ (e - ez)) by (apply Z.pow_pos_nonneg; lia). nia.
Qed.

Lemma binary_round_sign s p e s' :
  binary_round prec emax s p e = S754_infinity s' → s' = s.
Proof.
  unfold binary_round. destruct (shl_align p e _) as [mz ez].
  destruct (binary_round_aux_spec s (Z.pos mz) ez loc_Exact) as (m' & e' & -> & _); [lia|].
  destruct m' as [|q|q]; try discriminate.
  destruct (e' <=? 971); [discriminate|]. now intros [= <-].
Qed.

(** *** Quotients and differences that cannot overflow *)

Lemma new_location_0 n : new_location n 0 = loc_Exact.
Proof. unfold new_location. destruct (Z.even n); reflexivity. Qed.

(** The quotient of a finite number by a finite number that is at least
    one is finite, with the sign of the dividend. *)
Lemma SFdiv_ge_1 s m e mw ew :
  e ≤ 971 → Zdigits2 (Z.pos m) ≤ 53 → 1 ≤ Zdigits2 (Z.pos mw) + ew →
  match SF64div (S754_finite s m e) (S754_finite false mw ew) with
  | S754_zero s' | S754_finite s' _ _ => s' = s
  | _ => False
  end.
Proof.
  intros He Hd Hw. unfold SF64div, SFdiv, SFdiv_core_binary.
  rewrite xorb_false_r.
  set (e' := Z.min (fexp (Zdigits2 (Z.pos m) + e - (Zdigits2 (Z.pos mw) + ew))) (e - ew)).
  set (sh := e - ew - e').
  set (m' := match sh with Z.pos _ => Z.shiftl (Z.pos m) sh | Z0 => Z.pos m | Z.neg _ => 0 end).
  assert (He' : e' ≤ 970 ∧ 0 ≤ sh).
  { unfold sh, e'. rewrite fexp_unfold. pose proof (Zdigits2_nonneg (Z.pos m)). lia. }
  assert (Hm' : m' = Z.pos m * 2 ^ sh).
  { unfold m'. destruct sh as [|p|p] eqn:E; [lia| |lia]. now rewrite Z.shiftl_mul_pow2. }
  pose proof (Z_div_mod m' (Z.pos mw) ltac:(lia)) as Hdiv.
  destruct (Z.div_eucl m' (Z.pos mw)) as [q r]. destruct Hdiv as [Hdiv Hr].
  set (t := Z.max 0 (- ew)).
  assert (Ht : t = Z.max 0 (- ew)) by reflexivity.
  assert (Hshv : sh = e - ew - e') by reflexivity.
  clearbody t sh e'.
  assert (Hmw : 2 ^ t ≤ Z.pos mw).
  { destruct (Z.le_gt_cases (2 ^ t) (Z.pos mw)) as [|Hlt]; [done|].
    apply Zdigits2_le_iff in Hlt; [|lia..].
    rewrite Zdigits2_log2 in *. pose proof (Z.log2_nonneg (Z.pos mw)). lia. }
  assert (Hmx : Z.pos m ≤ 2 ^ 53 - 1).
  { assert (Z.pos m < 2 ^ 53) by (apply Zdigits2_le_iff; lia). lia. }
  assert (Hsh : 2 ^ sh ≤ 2 ^ (971 - e') * 2 ^ t).
  { rewrite <- Z.pow_add_r by lia. apply Z.pow_le_mono_r; lia. }
  assert (Hpt : 0 < 2 ^ t) by (apply Z.pow_pos_nonneg; lia).
  assert (Hps : 0 < 2 ^ sh) by (apply Z.pow_pos_nonneg; lia).
  assert (Hpe : 0 < 2 ^ (971 - e')) by (apply Z.pow_pos_nonneg; lia).
  assert (Hq : 0 ≤ q) by nia.
  assert (Hbound : q * 2 ^ t + (if r =? 0 then 0 else 1) ≤ (2 ^ 53 - 1) * 2 ^ (971 - e') * 2 ^ t).
  { assert (Z.pos m * 2 ^ sh ≤ (2 ^ 53 - 1) * (2 ^ (971 - e') * 2 ^ t)) by nia.
    assert (q * 2 ^ t ≤ q * Z.pos mw) by nia.
    destruct (Z.eqb_spec r 0); nia. }
  destruct (binary_round_aux_spec s q e' (new_location (Z.pos mw) r) Hq)
    as (m'' & e'' & Heq & Hm'' & _).
  pose proof (binary_round_aux_no_overflow s q e' (new_location (Z.pos mw) r) s Hq
                ltac:(lia)) as Hno.
  rewrite Heq in *. destruct m'' as [|p|p]; [reflexivity| |lia].
  destruct (e'' <=? 971); [reflexivity|]. apply Hno; [|reflexivity].
  destruct (Z.eqb_spec r 0) as [->|Hne].
  - left. split; [apply new_location_0|].
    apply (Z.mul_le_mono_pos_r _ _ (2 ^ t)); lia.
  - right. apply Z.lt_pred_le. apply (Z.mul_lt_mono_pos_r (2 ^ t)); [lia|].
    apply Z.lt_le_trans with (q * 2 ^ t + 1); [|lia].
    nia.
Qed.

(** A finite number minus a positive finite number does not overflow
    upwards. *)
Lemma SFsub_pos_no_overflow sx mx ex ma ea :
  ex ≤ 971 → Zdigits2 (Z.pos mx) ≤ 53 →
  SF64sub (S754_finite sx mx ex) (S754_finite false ma ea) ≠ S754_infinity false.
Proof.
  intros He Hd. unfold SF64sub, SFsub. change IntDef.Z.min with Z.min.
  set (ez := Z.min ex ea).
  pose proof (shl_align_value mx ex ez) as Hv.
  destruct (shl_align_spec mx ex ez) as [_ H2]. rewrite H2 in Hv. clear H2.
  replace (Z.min ex ez) with ez in Hv by (unfold ez; lia).
  assert (Hez : ez ≤ ex) by (unfold ez; lia).
  destruct (shl_align mx ex ez) as [a ?], (shl_align ma ea ez) as [b ?]. simpl fst in *.
  clearbody ez. unfold cond_Zopp.
  destruct (_ - Z.pos b) as [|p|p] eqn:HM; unfold binary_normalize.
  - discriminate.
  - apply binary_round_no_overflow; [lia|].
    assert (Hmx : Z.pos mx < 2 ^ 53) by (apply Zdigits2_le_iff; lia).
    assert (Hp : Z.pos p < Z.pos a) by (destruct sx; lia).
    replace (971 - ez) with (971 - ex + (ex - ez)) by lia.
    rewrite Z.pow_add_r by lia.
    assert (0 < 2 ^ (ex - ez)) by (apply Z.pow_pos_nonneg; lia).
    assert (0 < 2 ^ (971 - ex)) by (apply Z.pow_pos_nonneg; lia).
    nia.
  - intros Hinf. now apply binary_round_sign in Hinf.
Qed.

(** *** Classes of binary64 numbers, read off the specification *)

#[local] Open Scope float_scope.

Lemma valid_finite x s m e :
  Prim2SF x = S754_finite s m e →
  (-1074 ≤ e ≤ 971)%Z ∧ (Z.pos (digits2_pos m) ≤ 53)%Z.
Proof.
  intros Hx. pose proof (Prim2SF_valid x) as Hv. rewrite Hx in Hv.
  simpl in Hv. unfold bounded, canonical_mantissa in Hv.
  apply andb_prop in Hv as [Hc Hb]. apply Z.eqb_eq in Hc. apply Z.leb_le in Hb.
  rewrite fexp_unfold in Hc. change (emax - prec)%Z with 971%Z in Hb. lia.
Qed.

Lemma SFcompare_refl x : SFcompare x x = match x with S754_nan => None | _ => Some Eq end.
Proof.
  destruct x as [[]|[]| |[] m e]; simpl; try reflexivity;
    rewrite Z.compare_refl, Pcompare_refl; reflexivity.
Qed.

Lemma SFcompare_antisym x y : SFcompare y x = CompOpp <$> SFcompare x y.
Proof.
  destruct x as [[]|[]| |[] m1 e1], y as [[]|[]| |[] m2 e2]; simpl; try reflexivity;
    rewrite (Z.compare_antisym e1 e2); destruct (e1 ?= e2)%Z; simpl; try reflexivity;
    change (Pos.compare_cont Eq m2 m1) with (Pos.compare m2 m1);
    change (Pos.compare_cont Eq m1 m2) with (Pos.compare m1 m2);
    rewrite (Pos.compare_antisym m1 m2); destruct (m1 ?= m2)%positive; reflexivity.
Qed.

Lemma _is_nan_sf x :
  _is_nan x = match Prim2SF x with S754_nan => true | _ => false end.
Proof.
  unfold _is_nan. rewrite FloatAxioms.eqb_spec. unfold SFeqb. rewrite SFcompare_refl.
  now destruct (Prim2SF x).
Qed.

Lemma _is_inf_sf x :
  _is_inf x = match Prim2SF x with S754_infinity _ => true | _ => false end.
Proof.
  unfold _is_inf. rewrite !FloatAxioms.eqb_spec.
  change (Prim2SF infinity) with (S754_infinity false).
  change (Prim2SF neg_infinity) with (S754_infinity true).
  now destruct (Prim2SF x) as [[]|[]| |[] m e].
Qed.

Lemma ltb_0_sf x :
  (x <? 0) = match Prim2SF x with
             | S754_infinity true | S754_finite true _ _ => true
             | _ => false
             end.
Proof.
  rewrite ltb_spec. change (Prim2SF 0) with (S754_zero false).
  now destruct (Prim2SF x) as [[]|[]| |[] m e].
Qed.

Lemma leb_0_sf x :
  (x <=? 0) = match Prim2SF x with
              | S754_zero _ | S754_infinity true | S754_finite true _ _ => true
              | _ => false
              end.
Proof.
  rewrite leb_spec. change (Prim2SF 0) with (S754_zero false).
  now destruct (Prim2SF x) as [[]|[]| |[] m e].
Qed.

Lemma gtb_0_sf x :
  (0 <? x) = match Prim2SF x with
             | S754_infinity false | S754_finite false _ _ => true
             | _ => false
             end.
Proof.
  rewrite ltb_spec. change (Prim2SF 0) with (S754_zero false).
  now destruct (Prim2SF x) as [[]|[]| |[] m e].
Qed.

Lemma geb_0_sf x :
  (0 <=? x) = match Prim2SF x with
              | S754_zero _ | S754_infinity false | S754_finite false _ _ => true
              | _ => false
              end.
Proof.
  rewrite leb_spec. change (Prim2SF 0) with (S754_zero false).
  now destruct (Prim2SF x) as [[]|[]| |[] m e].
Qed.

Lemma eqb_0_sf x :
  (x =? 0) = match Prim2SF x with S754_zero _ => true | _ => false end.
Proof.
  rewrite FloatAxioms.eqb_spec. change (Prim2SF 0) with (S754_zero false).
  now destruct (Prim2SF x) as [[]|[]| |[] m e].
Qed.


Lemma _is_finite_sf x :
  Sensitivity._is_finite x =
    match Prim2SF x with S754_zero _ | S754_finite _ _ _ => true | _ => false end.
Proof.
  unfold Sensitivity._is_finite. rewrite _is_nan_sf, _is_inf_sf.
  now destruct (Prim2SF x).
Qed.

Lemma finite_pos x :
  Sensitivity._is_finite x = true → (x <=? 0) = false → (0 <? x) = true.
Proof. rewrite _is_finite_sf, leb_0_sf, gtb_0_sf. now destruct (Prim2SF x) as [[]|[]| |[] m e]. Qed.

Lemma leb_0_false_neq x : (x <=? 0) = false → (x =? 0) = false.
Proof. rewrite leb_0_sf, eqb_0_sf. now destruct (Prim2SF x) as [[]|[]| |[] m e]. Qed.

Lemma geb_0_ltb x : (0 <=? x) = true → (x <? 0) = false.
Proof. rewrite geb_0_sf, ltb_0_sf. now destruct (Prim2SF x) as [[]|[]| |[] m e]. Qed.

Lemma eqb_0_ltb x : (x =? 0) = true → (x <? 0) = false ∧ (0 <? x) = false.
Proof.
  rewrite eqb_0_sf, ltb_0_sf, gtb_0_sf. now destruct (Prim2SF x) as [[]|[]| |[] m e].
Qed.

Lemma ltb_leb_antisym x y : (x <? y) = true → (y <=? x) = false.
Proof.
  rewrite ltb_spec, leb_spec. unfold SFltb, SFleb. rewrite (SFcompare_antisym (Prim2SF x)).
  now destruct (SFcompare (Prim2SF x) (Prim2SF y)) as [[]|].
Qed.

Lemma leb_ltb_antisym x y : (x <=? y) = true → (y <? x) = false.
Proof.
  rewrite ltb_spec, leb_spec. unfold SFltb, SFleb. rewrite (SFcompare_antisym (Prim2SF x)).
  now destruct (SFcompare (Prim2SF x) (Prim2SF y)) as [[]|].
Qed.

(** Below a negative number there are only negative numbers. *)
Lemma ltb_neg_trans x y : (x <? y) = true → (y <? 0) = true → (x <? 0) = true.
Proof.
  rewrite !ltb_0_sf, ltb_spec.
  now destruct (Prim2SF x) as [[]|[]| |[] m1 e1], (Prim2SF y) as [[]|[]| |[] m2 e2].
Qed.

(** *** Products, sums and differences that cannot vanish or overflow *)

Lemma mul_0_r_sf x :
  Prim2SF (x * 0) = match Prim2SF x with
                    | S754_zero s | S754_finite s _ _ => S754_zero (xorb s false)
                    | _ => S754_nan
                    end.
Proof.
  rewrite mul_spec. change (Prim2SF 0) with (S754_zero false).
  now destruct (Prim2SF x) as [[]|[]| |[] m e].
Qed.

Lemma mul_0_r_finite x : Sensitivity._is_finite x = true → (x * 0 =? 0) = true.
Proof.
  rewrite _is_finite_sf, eqb_0_sf, mul_0_r_sf. now destruct (Prim2SF x).
Qed.

(** [x * 0] is a zero or a NaN, and so is its quotient by anything. *)
Lemma div_mul_0_r x y :
  (0 <? x * 0 / y) = false ∧
  ((x * 0 / y <=? 0) || _is_nan (x * 0 / y)) = true.
Proof.
  rewrite gtb_0_sf, leb_0_sf, _is_nan_sf, div_spec, mul_0_r_sf.
  now destruct (Prim2SF x) as [[]|[]| |[] m1 e1], (Prim2SF y) as [[]|[]| |[] m2 e2].
Qed.

Lemma add_1_nonneg z : (z <? 0) = false → (1 + z =? 0) = false.
Proof.
  rewrite ltb_0_sf, eqb_0_sf, add_spec.
  change (Prim2SF 1) with (S754_finite false 4503599627370496 (-52)).
  destruct (Prim2SF z) as [[]|[]| |[] m e] eqn:Hz; simpl; try done.
  intros _. apply valid_finite in Hz as [He _].
  match goal with |- context [binary_round _ _ ?s ?p ?e] =>
    destruct (binary_round_pos s p e) as (m' & e' & ->); [lia|]
  end.
  now destruct (e' <=? 971)%Z.
Qed.

Lemma mul_2_pos h : (h <=? 0) = false → (2 * h =? 0) = false.
Proof.
  rewrite leb_0_sf, eqb_0_sf, mul_spec.
  change (Prim2SF 2) with (S754_finite false 4503599627370496 (-51)).
  destruct (Prim2SF h) as [[]|[]| |[] m e] eqn:Hh; simpl; try done.
  intros _. apply valid_finite in Hh as [He _].
  match goal with |- context [binary_round_aux _ _ ?s ?p ?e ?l] =>
    destruct (binary_round_aux_spec s p e l) as (m' & e' & -> & Hm' & _ & Hp); [lia|]
  end.
  assert (53 ≤ Zdigits2 (Z.pos (4503599627370496 * m)))%Z.
  { change 53%Z with (Zdigits2 4503599627370496). apply Zdigits2_mono. lia. }
  destruct m' as [|p|p]; [lia| |lia]. now destruct (e' <=? 971)%Z.
Qed.

Lemma float_of_int_pos n : (0 < n < 2 ^ 63)%Z → (float_of_int n =? 0) = false.
Proof.
  intros Hn. unfold float_of_int. destruct (Z.ltb_spec n 0); [lia|].
  rewrite eqb_0_sf, of_uint63_spec, Uint63.of_Z_spec.
  rewrite Z.mod_small by (change Uint63.wB with (2 ^ 63)%Z; lia).
  destruct n as [|p|p]; try lia. simpl.
  destruct (binary_round_pos false p 0) as (m' & e' & ->); [lia|].
  now destruct (e' <=? 971)%Z.
Qed.

Lemma digits_mul_le a b :
  (Zdigits2 (Z.pos (a * b)) ≤ Zdigits2 (Z.pos a) + Zdigits2 (Z.pos b))%Z.
Proof.
  rewrite !Zdigits2_log2, Pos2Z.inj_mul.
  pose proof (Z.log2_mul_above (Z.pos a) (Z.pos b)). lia.
Qed.

Lemma mul_ARCSEC_TO_RAD_finite x :
  Sensitivity._is_finite x = true →
  Sensitivity._is_finite (x * Sensitivity.ARCSEC_TO_RAD) = true.
Proof.
  rewrite !_is_finite_sf, mul_spec.
  change (Prim2SF Sensitivity.ARCSEC_TO_RAD)
    with (S754_finite false 5723669695270813 (-70)).
  destruct (Prim2SF x) as [[]|[]| |s m e] eqn:Hx; simpl; try done.
  intros _. apply valid_finite in Hx as [He Hd].
  match goal with |- context [binary_round_aux _ _ ?s ?p ?e ?l] =>
    destruct (binary_round_aux_spec s p e l) as (m' & e' & -> & Hm' & He' & _); [lia|]
  end.
  pose proof (digits_mul_le m 5723669695270813) as Hmul.
  change (Zdigits2 5723669695270813) with 53%Z in Hmul.
  rewrite fexp_unfold in He'. simpl Zdigits2 in *.
  destruct m' as [|p|p]; [done| |lia].
  destruct (Z.leb_spec e' 971); [done|lia].
Qed.

Lemma sub_diag_finite x :
  Sensitivity._is_finite x = true → Prim2SF (x - x) = S754_zero false.
Proof.
  rewrite _is_finite_sf, sub_spec.
  destruct (Prim2SF x) as [[]|[]| |s m e]; simpl; try done.
  intros _. unfold SF64sub; simpl. now rewrite Z.sub_diag.
Qed.

Lemma abs_sub_diag_small x :
  Sensitivity._is_finite x = true → (abs (x - x) <? 1e-6) = true.
Proof.
  intros Hx. rewrite ltb_spec, abs_spec, (sub_diag_finite x Hx). reflexivity.
Qed.

(** *** Infinite distances *)

(** [1 + z] for [z] not below zero: NaN, [+inf], or a finite number that
    is at least one. *)
Lemma one_plus_ge_1 z :
  (z <? 0) = false →
  match Prim2SF (1 + z) with
  | S754_nan | S754_infinity false => True
  | S754_finite false m e => (1 ≤ Zdigits2 (Z.pos m) + e)%Z
  | _ => False
  end.
Proof.
  rewrite ltb_0_sf, add_spec.
  change (Prim2SF 1) with (S754_finite false 4503599627370496 (-52)).
  destruct (Prim2SF z) as [[]|[]| |[] m e] eqn:Hz; simpl; try done.
  intros _. apply valid_finite in Hz as [He _].
  match goal with |- context [binary_round _ _ ?s ?p ?e] =>
    pose proof (binary_round_lower s p e ltac:(lia)) as H;
    destruct (binary_round prec emax s p e) as [| s0 | | s0 m0 e0]
  end; try done.
  - now subst s0.
  - destruct H as [-> H].
    etransitivity; [|exact H].
    destruct (shl_align_spec 4503599627370496 (-52) (Z.min (-52) e)) as [Hd Hm].
    simpl Zdigits2.
    match goal with |- (_ ≤ Z.pos (digits2_pos (?a + ?b)) + _)%Z =>
      pose proof (Zdigits2_mono (Z.pos a) (Z.pos (a + b)) ltac:(lia)) as Hmono
    end.
    simpl Zdigits2 in Hmono. change (Z.pos (digits2_pos 4503599627370496)) with 53%Z in Hd.
    rewrite Hm in Hd. change IntDef.Z.min with Z.min in *. lia.
Qed.

Lemma pos_inf_sf x :
  (0 <? x) = true → _is_inf x = true → Prim2SF x = S754_infinity false.
Proof.
  rewrite gtb_0_sf, _is_inf_sf. now destruct (Prim2SF x) as [[]|[]| |[] m e].
Qed.

(** Dividing by [1 + z], for [z] not below zero, keeps a positive quotient's
    dividend positive and is infinite only on an infinite dividend. *)
Lemma div_one_plus x z :
  (z <? 0) = false → (0 <? x / (1 + z)) = true →
  (0 <? x) = true ∧ _is_inf (x / (1 + z)) = _is_inf x.
Proof.
  intros Hz. pose proof (one_plus_ge_1 z Hz) as Hw.
  rewrite !gtb_0_sf, !_is_inf_sf, div_spec.
  destruct (Prim2SF (1 + z)) as [[]|[]| |[] mw ew] eqn:Ew; try done;
    destruct (Prim2SF x) as [[]|[]| |s m e] eqn:Ex; try done.
  apply valid_finite in Ex as [He Hd].
  pose proof (SFdiv_ge_1 s m e mw ew ltac:(lia) Hd Hw) as H.
  destruct (SF64div _ _) as [s'|s'| |s' m' e']; try done; subst s'; now destruct s.
Qed.

(** Subtracting a positive finite number: a positive difference is
    infinite only on an infinite minuend; subtracting [+inf] never gives a
    positive number. *)
Lemma sub_pos a b :
  (0 <? a) = true → (0 <? b - a) = true →
  _is_inf a = false ∧ _is_inf (b - a) = _is_inf b.
Proof.
  rewrite !gtb_0_sf, !_is_inf_sf, sub_spec.
  destruct (Prim2SF a) as [[]|[]| |[] ma ea] eqn:Ea; try done;
    destruct (Prim2SF b) as [[]|[]| |sb mb eb] eqn:Eb; try done.
  intros _ Hpos. split; [reflexivity|].
  apply valid_finite in Eb as [He Hd].
  pose proof (SFsub_pos_no_overflow sb mb eb ma ea ltac:(lia) Hd) as H.
  destruct (SF64sub _ _) as [s'|[]| |s' m' e']; done.
Qed.

(** A positive finite number times [+inf] is [+inf], and [inf / inf] is NaN. *)
Lemma div_inf_mul_inf x y w :
  (0 <? x) = true → Prim2SF y = S754_infinity false → Prim2SF w = S754_infinity false →
  _is_nan (w / (x * y)) = true.
Proof.
  rewrite gtb_0_sf, _is_nan_sf, div_spec, mul_spec. intros Hx -> ->.
  now destruct (Prim2SF x) as [[]|[]| |[] m e].
Qed.

Lemma mul_nan_r x y : _is_nan y = true → _is_nan (x * y) = true.
Proof.
  rewrite !_is_nan_sf, mul_spec.
  now destruct (Prim2SF y) as [[]|[]| |[] m e], (Prim2SF x) as [[]|[]| |[] m' e'].
Qed.

Lemma inf_neq_0 x : _is_inf x = true → (x =? 0) = false.
Proof. rewrite _is_inf_sf, eqb_0_sf. now destruct (Prim2SF x). Qed.

(** The three distances of [sigma_crit], as functions of the comoving
    distances [a] (lens) and [b] (source): if they are all positive and one
    of them is infinite, then [D_s] and [D_l * D_ls] are both [+inf]. *)
Lemma distances_infinite a b zl zs :
  (zl <? 0) = false → (zs <? 0) = false →
  (0 <? a / (1 + zl)) = true →
  (0 <? b / (1 + zs)) = true →
  (0 <? (b - a) / (1 + zs)) = true →
  _is_inf (a / (1 + zl)) || _is_inf (b / (1 + zs)) || _is_inf ((b - a) / (1 + zs)) = true →
  _is_inf (a / (1 + zl) * ((b - a) / (1 + zs))) = true ∧
  _is_nan (b / (1 + zs) / (a / (1 + zl) * ((b - a) / (1 + zs)))) = true.
Proof.
  intros Hzl Hzs Hl Hs Hls Hinf.
  destruct (div_one_plus _ _ Hzl Hl) as [Ha Hil].
  destruct (div_one_plus _ _ Hzs Hs) as [Hb His].
  destruct (div_one_plus _ _ Hzs Hls) as [Hba Hils].
  destruct (sub_pos _ _ Ha Hba) as [Hia Hib].
  rewrite Hil, His, Hils, Hia, Hib, orb_diag in Hinf. simpl in Hinf.
  assert (Hy : Prim2SF ((b - a) / (1 + zs)) = S754_infinity false).
  { apply pos_inf_sf; [done|]. now rewrite Hils, Hib. }
  assert (Hw : Prim2SF (b / (1 + zs)) = S754_infinity false).
  { apply pos_inf_sf; [done|]. now rewrite His. }
  split; [|now apply div_inf_mul_inf].
  rewrite _is_inf_sf, mul_spec, Hy. rewrite gtb_0_sf in Hl.
  now destruct (Prim2SF (a / (1 + zl))) as [[]|[]| |[] m e].
Qed.

End FloatFacts.

Import FloatFacts.

(** ** Signs, zeros and NaNs of binary64 arithmetic *)

Module SignFacts.
Import Derived.
#[local] Open Scope float_scope.

Lemma binary_round_aux_sign s m e l :
  (0 ≤ m)%Z →
  match binary_round_aux prec emax s m e l with
  | S754_zero s' | S754_infinity s' | S754_finite s' _ _ => s' = s
  | S754_nan => False
  end.
Proof.
  intros Hm.
  destruct (binary_round_aux_spec s m e l Hm) as (m' & e' & -> & Hm' & _).
  destruct m' as [|p|p]; [reflexivity| |lia]. now destruct (e' <=? 971)%Z.
Qed.

Lemma SFmul_finite_sign sx mx ex sy my ey :
  match SF64mul (S754_finite sx mx ex) (S754_finite sy my ey) with
  | S754_zero s' | S754_infinity s' | S754_finite s' _ _ => s' = xorb sx sy
  | S754_nan => False
  end.
Proof. unfold SF64mul, SFmul. apply binary_round_aux_sign. lia. Qed.

Lemma SFdiv_finite_sign sx mx ex sy my ey :
  match SF64div (S754_finite sx mx ex) (S754_finite sy my ey) with
  | S754_zero s' | S754_infinity s' | S754_finite s' _ _ => s' = xorb sx sy
  | S754_nan => False
  end.
Proof.
  unfold SF64div, SFdiv, SFdiv_core_binary.
  set (e' := Z.min _ _). set (sh := (ex - ey - e')%Z).
  set (m' := match sh with Z.pos _ => Z.shiftl (Z.pos mx) sh | Z0 => Z.pos mx | Z.neg _ => 0%Z end).
  assert (0 ≤ m')%Z as Hm'.
  { unfold m'. destruct sh; [lia| |lia]. apply Z.shiftl_nonneg. lia. }
  clearbody m'.
  pose proof (Z_div_mod m' (Z.pos my) ltac:(lia)) as Hdiv.
  destruct (Z.div_eucl m' (Z.pos my)) as [q r]. destruct Hdiv as [Hdiv Hr].
  apply binary_round_aux_sign. nia.
Qed.

Lemma sign_clear_pos x : (0 <? x) = true → sign_clear x = true.
Proof.
  unfold sign_clear. rewrite gtb_0_sf. now destruct (Prim2SF x) as [[]|[]| |[] m e].
Qed.

Lemma sign_clear_not_neg x : sign_clear x = true ∨ _is_nan x = true → (x <? 0) = false.
Proof.
  unfold sign_clear. rewrite _is_nan_sf, ltb_0_sf.
  destruct (Prim2SF x) as [[]|[]| |[] m e]; intros [?|?]; done.
Qed.

Lemma sign_clear_mul x y :
  sign_clear x = true → sign_clear y = true →
  sign_clear (x * y) = true ∨ _is_nan (x * y) = true.
Proof.
  unfold sign_clear. rewrite _is_nan_sf, mul_spec.
  destruct (Prim2SF x) as [[]|[]| |[] mx ex], (Prim2SF y) as [[]|[]| |[] my ey];
    try done; try (intros _ _; now left); try (intros _ _; now right).
  intros _ _. pose proof (SFmul_finite_sign false mx ex false my ey) as H.
  destruct (SF64mul _ _) as [s|s| |s m e]; try done; subst s; now left.
Qed.

Lemma sign_clear_div x y :
  sign_clear x = true → sign_clear y = true →
  sign_clear (x / y) = true ∨ _is_nan (x / y) = true.
Proof.
  unfold sign_clear. rewrite _is_nan_sf, div_spec.
  destruct (Prim2SF x) as [[]|[]| |[] mx ex], (Prim2SF y) as [[]|[]| |[] my ey];
    try done; try (intros _ _; now left); try (intros _ _; now right).
  intros _ _. pose proof (SFdiv_finite_sign false mx ex false my ey) as H.
  destruct (SF64div _ _) as [s|s| |s m e]; try done; subst s; now left.
Qed.

Lemma is_nan_mul_l x y : _is_nan x = true → _is_nan (x * y) = true.
Proof.
  rewrite !_is_nan_sf, mul_spec.
  now destruct (Prim2SF x) as [[]|[]| |[] m e], (Prim2SF y) as [[]|[]| |[] m' e'].
Qed.

Lemma is_nan_div_r x y : _is_nan y = true → _is_nan (x / y) = true.
Proof.
  rewrite !_is_nan_sf, div_spec.
  now destruct (Prim2SF y) as [[]|[]| |[] m e], (Prim2SF x) as [[]|[]| |[] m' e'].
Qed.

(** [x - 0.0] is [x]. *)
Lemma sub_0_r x : x - 0 = x.
Proof.
  apply Prim2SF_inj. rewrite sub_spec. change (Prim2SF 0) with (S754_zero false).
  now destruct (Prim2SF x) as [[]|[]| |[] m e].
Qed.

(** A positive finite number times [0.0] is [0.0]. *)
Lemma mul_pos_0 p : (0 <? p) = true → Sensitivity._is_finite p = true → p * 0 = 0.
Proof.
  intros Hp Hf. apply Prim2SF_inj. rewrite mul_0_r_sf.
  rewrite gtb_0_sf in Hp. rewrite _is_finite_sf in Hf.
  now destruct (Prim2SF p) as [[]|[]| |[] m e].
Qed.

Lemma nan_not_lt x y : _is_nan x = true → (x <? y) = false ∧ (y <? x) = false ∧ (y <=? x) = false.
Proof.
  rewrite _is_nan_sf, !ltb_spec, leb_spec.
  destruct (Prim2SF x) as [[]|[]| |[] m e]; try done.
  now destruct (Prim2SF y) as [[]|[]| |[] m' e'].
Qed.

Lemma add_nan_r x y : _is_nan y = true → _is_nan (x + y) = true.
Proof.
  rewrite !_is_nan_sf, add_spec.
  now destruct (Prim2SF y) as [[]|[]| |[] m e], (Prim2SF x) as [[]|[]| |[] m' e'].
Qed.

Lemma is_nan_eq x : _is_nan x = true → x = nan.
Proof.
  rewrite _is_nan_sf. intros H. apply Prim2SF_inj.
  change (Prim2SF nan) with S754_nan. now destruct (Prim2SF x).
Qed.

Lemma sign_clear_or_nan_sf x :
  sign_clear_or_nan x =
    match Prim2SF x with
    | S754_zero s | S754_infinity s | S754_finite s _ _ => negb s
    | S754_nan => true
    end.
Proof.
  unfold sign_clear_or_nan, sign_clear. rewrite _is_nan_sf.
  now destruct (Prim2SF x) as [[]|[]| |[] m e].
Qed.

Lemma sign_clear_or_nan_pos x : (0 <? x) = true → sign_clear_or_nan x = true.
Proof.
  rewrite sign_clear_or_nan_sf, gtb_0_sf. now destruct (Prim2SF x) as [[]|[]| |[] m e].
Qed.

Lemma sign_clear_or_nan_add x y :
  sign_clear_or_nan x = true → sign_clear_or_nan y = true →
  sign_clear_or_nan (x + y) = true.
Proof.
  rewrite !sign_clear_or_nan_sf, add_spec.
  destruct (Prim2SF x) as [[]|[]| |[] mx ex] eqn:Hx; try done;
    destruct (Prim2SF y) as [[]|[]| |[] my ey] eqn:Hy; try done.
  intros _ _. apply valid_finite in Hx as [Hex _]. apply valid_finite in Hy as [Hey _].
  unfold SF64add, SFadd. change IntDef.Z.min with Z.min.
  destruct (shl_align mx ex (Z.min ex ey)) as [a ?], (shl_align my ey (Z.min ex ey)) as [b ?].
  cbn [fst cond_Zopp Z.add binary_normalize].
  change (Z.pos a + Z.pos b)%Z with (Z.pos (a + b)). cbn [binary_normalize].
  destruct (binary_round_pos false (a + b) (Z.min ex ey)) as (m' & e' & ->); [lia|].
  now destruct (e' <=? 971)%Z.
Qed.

Lemma sign_clear_or_nan_mul x y :
  sign_clear_or_nan x = true → sign_clear_or_nan y = true →
  sign_clear_or_nan (x * y) = true.
Proof.
  rewrite !sign_clear_or_nan_sf, mul_spec.
  destruct (Prim2SF x) as [[]|[]| |[] mx ex], (Prim2SF y) as [[]|[]| |[] my ey]; try done.
  intros _ _. pose proof (SFmul_finite_sign false mx ex false my ey) as H.
  destruct (SF64mul _ _) as [s|s| |s m e]; try done; now subst s.
Qed.

Lemma sign_clear_or_nan_div x y :
  sign_clear_or_nan x = true → sign_clear_or_nan y = true →
  sign_clear_or_nan (x / y) = true.
Proof.
  rewrite !sign_clear_or_nan_sf, div_spec.
  destruct (Prim2SF x) as [[]|[]| |[] mx ex], (Prim2SF y) as [[]|[]| |[] my ey]; try done.
  intros _ _. pose proof (SFdiv_finite_sign false mx ex false my ey) as H.
  destruct (SF64div _ _) as [s|s| |s m e]; try done; now subst s.
Qed.

(** A square root is never negative: it is [-0] (of [-0]) or has a clear
    sign bit, or is NaN. *)
Lemma sign_clear_or_nan_sqrt x :
  (sqrt x =? 0) = false → sign_clear_or_nan (sqrt x) = true.
Proof.
  rewrite sign_clear_or_nan_sf, eqb_0_sf, sqrt_spec.
  destruct (Prim2SF x) as [[]|[]| |[] mx ex]; try done.
  intros _. unfold SF64sqrt, SFsqrt.
  destruct (SFsqrt_core_binary prec emax (Z.pos mx) ex) as [[mz ez] lz] eqn:Hc.
  assert (0 ≤ mz)%Z as Hmz.
  { unfold SFsqrt_core_binary in Hc.
    match type of Hc with context [Z.sqrtrem ?n] =>
      pose proof (Z.sqrtrem_sqrt n) as Hs; pose proof (Z.sqrt_nonneg n) as Hn;
      destruct (Z.sqrtrem n) as [q r] end.
    injection Hc as <- _ _. change q with (q, r).1. rewrite Hs. exact Hn. }
  pose proof (binary_round_aux_sign false mz ez lz Hmz) as H.
  destruct (binary_round_aux prec emax false mz ez lz) as [s|s| |s m e]; try done; now subst s.
Qed.

(** [float(n)] of a non-negative [int]. *)
Lemma sign_clear_or_nan_float_of_int n :
  (0 ≤ n)%Z → sign_clear_or_nan (float_of_int n) = true.
Proof.
  intros Hn. unfold float_of_int. destruct (Z.ltb_spec n 0); [lia|].
  rewrite sign_clear_or_nan_sf, of_uint63_spec.
  pose proof (Uint63.to_Z_bounded (Uint63.of_Z n)) as Hb.
  destruct (Uint63.to_Z (Uint63.of_Z n)) as [|p|p]; [reflexivity| |lia].
  simpl. destruct (binary_round_pos false p 0) as (m' & e' & ->); [lia|].
  now destruct (e' <=? 971)%Z.
Qed.

(** Two finite products with the same factor and factors of clear sign have
    the same sign bit. *)
Lemma mul_sign_shared p x y :
  sign_clear_or_nan x = true → sign_clear_or_nan y = true →
  Sensitivity._is_finite (p * x) = true → Sensitivity._is_finite (p * y) = true →
  sign_clear (p * x) = sign_clear (p * y).
Proof.
  unfold sign_clear. rewrite !sign_clear_or_nan_sf, !_is_finite_sf, !mul_spec.
  destruct (Prim2SF p) as [sp|sp| |sp mp ep]; try done;
    destruct (Prim2SF x) as [[]|[]| |[] mx ex]; try done;
    destruct (Prim2SF y) as [[]|[]| |[] my ey]; try done; intros _ _;
    try (pose proof (SFmul_finite_sign sp mp ep false mx ex) as H1;
         destruct (SF64mul (S754_finite sp mp ep) (S754_finite false mx ex))
           as [s1|s1| |s1 m1 e1]; try done; subst s1);
    try (pose proof (SFmul_finite_sign sp mp ep false my ey) as H2;
         destruct (SF64mul (S754_finite sp mp ep) (S754_finite false my ey))
           as [s2|s2| |s2 m2 e2]; try done; subst s2);
    simpl; intros _ _; now destruct sp.
Qed.

(** The difference of two finite numbers with the same sign bit does not
    overflow. *)
Lemma SFsub_same_sign s mx ex my ey :
  (-1074 ≤ ex ≤ 971)%Z → (Zdigits2 (Z.pos mx) ≤ 53)%Z →
  (-1074 ≤ ey ≤ 971)%Z → (Zdigits2 (Z.pos my) ≤ 53)%Z →
  match SF64sub (S754_finite s mx ex) (S754_finite s my ey) with
  | S754_zero _ | S754_finite _ _ _ => True
  | _ => False
  end.
Proof.
  intros Hex Hdx Hey Hdy. unfold SF64sub, SFsub. change IntDef.Z.min with Z.min.
  set (ez := Z.min ex ey).
  pose proof (shl_align_value mx ex ez) as Hva.
  destruct (shl_align_spec mx ex ez) as [_ H2]. rewrite H2 in Hva. clear H2.
  replace (Z.min ex ez) with ez in Hva by (unfold ez; lia).
  pose proof (shl_align_value my ey ez) as Hvb.
  destruct (shl_align_spec my ey ez) as [_ H2]. rewrite H2 in Hvb. clear H2.
  replace (Z.min ey ez) with ez in Hvb by (unfold ez; lia).
  assert (Hez : (ez ≤ ex ∧ ez ≤ ey ∧ -1074 ≤ ez)%Z) by (unfold ez; lia).
  destruct (shl_align mx ex ez) as [a ?], (shl_align my ey ez) as [b ?]. simpl fst in *.
  clearbody ez.
  assert (Hmx : (Z.pos mx < 2 ^ 53)%Z) by (apply Zdigits2_le_iff; lia).
  assert (Hmy : (Z.pos my < 2 ^ 53)%Z) by (apply Zdigits2_le_iff; lia).
  assert (Ha : (Z.pos a ≤ (2 ^ 53 - 1) * 2 ^ (971 - ez))%Z).
  { replace (971 - ez)%Z with (971 - ex + (ex - ez))%Z by lia.
    rewrite Z.pow_add_r by lia.
    assert (0 < 2 ^ (ex - ez))%Z by (apply Z.pow_pos_nonneg; lia).
    assert (0 < 2 ^ (971 - ex))%Z by (apply Z.pow_pos_nonneg; lia). nia. }
  assert (Hb : (Z.pos b ≤ (2 ^ 53 - 1) * 2 ^ (971 - ez))%Z).
  { replace (971 - ez)%Z with (971 - ey + (ey - ez))%Z by lia.
    rewrite Z.pow_add_r by lia.
    assert (0 < 2 ^ (ey - ez))%Z by (apply Z.pow_pos_nonneg; lia).
    assert (0 < 2 ^ (971 - ey))%Z by (apply Z.pow_pos_nonneg; lia). nia. }
  destruct (cond_Zopp s (Z.pos a) - cond_Zopp s (Z.pos b))%Z as [|p|p] eqn:HM;
    unfold binary_normalize; [exact I| |].
  - assert (Z.pos p ≤ (2 ^ 53 - 1) * 2 ^ (971 - ez))%Z as Hp
      by (unfold cond_Zopp in HM; destruct s; lia).
    pose proof (binary_round_no_overflow false p ez false ltac:(lia) Hp) as Hno.
    destruct (binary_round_pos false p ez) as (m' & e' & Heq); [lia|].
    rewrite Heq in *. destruct (e' <=? 971)%Z; [exact I|]. now apply Hno.
  - assert (Z.pos p ≤ (2 ^ 53 - 1) * 2 ^ (971 - ez))%Z as Hp
      by (unfold cond_Zopp in HM; destruct s; lia).
    pose proof (binary_round_no_overflow true p ez true ltac:(lia) Hp) as Hno.
    destruct (binary_round_pos true p ez) as (m' & e' & Heq); [lia|].
    rewrite Heq in *. destruct (e' <=? 971)%Z; [exact I|]. now apply Hno.
Qed.

Lemma sub_same_sign_finite x y :
  Sensitivity._is_finite x = true → Sensitivity._is_finite y = true →
  sign_clear x = sign_clear y →
  Sensitivity._is_finite (x - y) = true.
Proof.
  unfold sign_clear. rewrite !_is_finite_sf, sub_spec.
  destruct (Prim2SF x) as [sx|sx| |sx mx ex] eqn:Hx; try done;
    destruct (Prim2SF y) as [sy|sy| |sy my ey] eqn:Hy; try done; intros _ _ Hs;
    try (now destruct sx, sy).
  assert (sx = sy) as -> by (now destruct sx, sy).
  apply valid_finite in Hx as [? ?]. apply valid_finite in Hy as [? ?].
  pose proof (SFsub_same_sign sy mx ex my ey ltac:(lia) ltac:(simpl Zdigits2; lia)
                ltac:(lia) ltac:(simpl Zdigits2; lia)) as Hsub.
  now destruct (SF64sub _ _).
Qed.

(** Dividing a finite number by [1 + z], for a positive [z], gives a finite
    number. *)
Lemma div_one_plus_finite x z :
  (0 <? z) = true → Sensitivity._is_finite x = true →
  Sensitivity._is_finite (x / (1 + z)) = true.
Proof.
  intros Hz Hx.
  assert ((z <? 0) = false) as Hz'.
  { rewrite ltb_0_sf. rewrite gtb_0_sf in Hz. now destruct (Prim2SF z) as [[]|[]| |[] m e]. }
  pose proof (one_plus_ge_1 z Hz') as Hw.
  assert (_is_nan (1 + z) = false) as Hn.
  { rewrite _is_nan_sf, add_spec. rewrite gtb_0_sf in Hz.
    change (Prim2SF 1) with (S754_finite false 4503599627370496 (-52)).
    destruct (Prim2SF z) as [[]|[]| |[] m e] eqn:Ez; try done.
    apply valid_finite in Ez as [He _]. simpl.
    match goal with |- context [binary_round _ _ ?s ?p ?e] =>
      destruct (binary_round_pos s p e) as (m' & e' & ->); [lia|] end.
    now destruct (e' <=? 971)%Z. }
  rewrite _is_nan_sf in Hn. rewrite _is_finite_sf in Hx |- *. rewrite div_spec.
  destruct (Prim2SF (1 + z)) as [[]|[]| |[] mw ew] eqn:Ew; try done;
    destruct (Prim2SF x) as [sx|sx| |sx mx ex] eqn:Ex; try done.
  apply valid_finite in Ex as [He Hd].
  pose proof (SFdiv_ge_1 sx mx ex mw ew ltac:(lia) Hd Hw) as H.
  now destruct (SF64div _ _).
Qed.

End SignFacts.

(** ** Products and quotients of numbers of moderate size *)

Module RangeFacts.
Import Spec Derived.
#[local] Open Scope Z_scope.

Lemma binary_round_aux_upper s m e l :
  0 < m → -1074 ≤ Zdigits2 m + e →
  match binary_round_aux prec emax s m e l with
  | S754_finite _ m' e' => Zdigits2 (Z.pos m') + e' ≤ Zdigits2 m + e + 1
  | _ => True
  end.
Proof.
  intros Hm Hlow. unfold binary_round_aux.
  destruct (shr_fexp_spec m e l) as (Hm1 & He1 & Hd1 & Hp1); [lia|].
  destruct (shr_fexp prec emax m e l) as [mrs1 e1]; simpl in *.
  set (m2 := round_nearest_even (shr_m mrs1) (loc_of_shr_record mrs1)).
  pose proof (round_nearest_even_spec (shr_m mrs1) (loc_of_shr_record mrs1) Hm1) as Hr.
  fold m2 in Hr.
  assert (Hm2 : 0 ≤ m2) by lia.
  destruct (shr_fexp_spec m2 e1 loc_Exact Hm2) as (Hm3 & He3 & Hd3 & Hp3).
  destruct (shr_fexp prec emax m2 e1 loc_Exact) as [mrs3 e3]; simpl in *.
  assert (Hdm2 : Zdigits2 m2 ≤ Zdigits2 (shr_m mrs1) + 1).
  { etransitivity; [apply (Zdigits2_mono m2 (shr_m mrs1 + 1)); lia|].
    now apply Zdigits2_succ_le. }
  assert (1 ≤ Zdigits2 m).
  { destruct m as [|p|p]; try lia. rewrite Zdigits2_log2.
    pose proof (Z.log2_nonneg (Z.pos p)). lia. }
  rewrite !fexp_unfold in *.
  destruct (shr_m mrs3) as [|p|p] eqn:E; try exact I.
  destruct (e3 <=? emax - prec); [|exact I].
  change (Zdigits2 (Z.pos p)) with (Z.pos (digits2_pos p)) in Hd3. lia.
Qed.

Lemma digits_mul_ge a b :
  Zdigits2 (Z.pos a) + Zdigits2 (Z.pos b) - 1 ≤ Zdigits2 (Z.pos (a * b)).
Proof.
  rewrite !Zdigits2_log2, Pos2Z.inj_mul.
  pose proof (Z.log2_mul_below (Z.pos a) (Z.pos b) ltac:(lia) ltac:(lia)). lia.
Qed.

(** The product of two finite numbers, away from the overflow and underflow
    thresholds: finite, in the binade of the sum or next to it. *)
Lemma SFmul_binade sx mx ex sy my ey :
  let M := Zdigits2 (Z.pos mx) + ex + (Zdigits2 (Z.pos my) + ey) in
  -1072 ≤ M → M ≤ 1023 → ex + ey ≤ 971 →
  ∃ m e, SF64mul (S754_finite sx mx ex) (S754_finite sy my ey)
           = S754_finite (xorb sx sy) m e ∧
         M - 1 ≤ Zdigits2 (Z.pos m) + e ≤ M + 1.
Proof.
  intros M Hlo Hhi He. unfold SF64mul, SFmul.
  pose proof (digits_mul_le mx my) as Hle. pose proof (digits_mul_ge mx my) as Hge.
  set (D := Zdigits2 (Z.pos (mx * my))) in *.
  pose proof (binary_round_aux_lower (xorb sx sy) (Z.pos (mx * my)) (ex + ey) loc_Exact
                ltac:(lia) ltac:(unfold M in *; fold D; lia)) as Hl.
  pose proof (binary_round_aux_upper (xorb sx sy) (Z.pos (mx * my)) (ex + ey) loc_Exact
                ltac:(lia) ltac:(unfold M in *; fold D; lia)) as Hu.
  pose proof (binary_round_aux_no_overflow (xorb sx sy) (Z.pos (mx * my)) (ex + ey)
                loc_Exact (xorb sx sy) ltac:(lia) He) as Hno.
  destruct (binary_round_aux prec emax (xorb sx sy) (Z.pos (mx * my)) (ex + ey) loc_Exact)
    as [s'|s'| |s' m' e']; try done.
  - exfalso. subst s'. apply Hno; [|reflexivity]. left. split; [reflexivity|].
    assert (Z.pos (mx * my) < 2 ^ (1023 - (ex + ey))) as Hlt.
    { apply Zdigits2_le_iff; [lia| |fold D; unfold M in *; lia].
      pose proof (Zdigits2_nonneg (Z.pos (mx * my))). fold D in H. unfold M in *. lia. }
    replace (1023 - (ex + ey)) with (52 + (971 - (ex + ey))) in Hlt by lia.
    rewrite Z.pow_add_r in Hlt by lia.
    assert (0 < 2 ^ (971 - (ex + ey))) by (apply Z.pow_pos_nonneg; lia). nia.
  - destruct Hl as [-> Hl]. exists m', e'. split; [reflexivity|].
    fold D in Hl, Hu. unfold M. lia.
Qed.

(** The quotient of two finite numbers, away from the thresholds: finite,
    in the binade of the difference or one of the next two. *)
Lemma SFdiv_binade sx mx ex sy my ey :
  let M := Zdigits2 (Z.pos mx) + ex - (Zdigits2 (Z.pos my) + ey) in
  -1020 ≤ M → M ≤ 1020 →
  ∃ m e, SF64div (S754_finite sx mx ex) (S754_finite sy my ey)
           = S754_finite (xorb sx sy) m e ∧
         M ≤ Zdigits2 (Z.pos m) + e ≤ M + 2.
Proof.
  intros M Hlo Hhi. unfold SF64div, SFdiv, SFdiv_core_binary.
  set (d1 := Zdigits2 (Z.pos mx)) in *. set (d2 := Zdigits2 (Z.pos my)) in *.
  assert (Hd1 : 1 ≤ d1).
  { unfold d1. rewrite Zdigits2_log2. pose proof (Z.log2_nonneg (Z.pos mx)). lia. }
  assert (Hd2 : 1 ≤ d2).
  { unfold d2. rewrite Zdigits2_log2. pose proof (Z.log2_nonneg (Z.pos my)). lia. }
  set (e' := Z.min (fexp (d1 + ex - (d2 + ey))) (ex - ey)).
  set (sh := ex - ey - e').
  set (m' := match sh with Z.pos _ => Z.shiftl (Z.pos mx) sh | Z0 => Z.pos mx | Z.neg _ => 0 end).
  assert (He' : e' ≤ M - 53 ∧ 0 ≤ sh ∧ 53 - d1 + d2 ≤ sh).
  { unfold sh, e'. rewrite fexp_unfold. unfold M in *. lia. }
  assert (Hm' : m' = Z.pos mx * 2 ^ sh).
  { unfold m'. destruct sh as [|p|p] eqn:E; [lia| |lia]. now rewrite Z.shiftl_mul_pow2. }
  pose proof (Z_div_mod m' (Z.pos my) ltac:(lia)) as Hdiv.
  destruct (Z.div_eucl m' (Z.pos my)) as [q r]. destruct Hdiv as [Hdiv Hr].
  assert (Hshv : sh = ex - ey - e') by reflexivity.
  clearbody sh e' m'.
  assert (Hmx : 2 ^ (d1 - 1) ≤ Z.pos mx < 2 ^ d1).
  { split; [|apply Zdigits2_le_iff; unfold d1; lia].
    unfold d1. rewrite Zdigits2_log2. replace (Z.log2 (Z.pos mx) + 1 - 1) with (Z.log2 (Z.pos mx)) by lia.
    apply Z.log2_spec. lia. }
  assert (Hmy : 2 ^ (d2 - 1) ≤ Z.pos my < 2 ^ d2).
  { split; [|apply Zdigits2_le_iff; unfold d2; lia].
    unfold d2. rewrite Zdigits2_log2. replace (Z.log2 (Z.pos my) + 1 - 1) with (Z.log2 (Z.pos my)) by lia.
    apply Z.log2_spec. lia. }
  set (k := d1 - 1 + sh - d2).
  assert (Hk : 52 ≤ k) by (unfold k; lia).
  assert (Hq_lo : 2 ^ k ≤ q).
  { assert (2 ^ k * 2 ^ d2 ≤ m').
    { rewrite <- Z.pow_add_r by lia. replace (k + d2) with (d1 - 1 + sh) by (unfold k; lia).
      rewrite Z.pow_add_r by lia. rewrite Hm'.
      assert (0 < 2 ^ sh) by (apply Z.pow_pos_nonneg; lia). nia. }
    assert (0 < 2 ^ k) by (apply Z.pow_pos_nonneg; lia).
    assert (0 < 2 ^ d2) by (apply Z.pow_pos_nonneg; lia).
    destruct (Z.le_gt_cases (2 ^ k) q) as [|Hlt]; [done|]. exfalso.
    assert (q + 1 ≤ 2 ^ k) by lia. nia. }
  assert (Hq_hi : q < 2 ^ (k + 2)).
  { assert (m' < 2 ^ (k + 2) * 2 ^ (d2 - 1)).
    { rewrite <- Z.pow_add_r by lia. replace (k + 2 + (d2 - 1)) with (d1 + sh) by (unfold k; lia).
      rewrite Z.pow_add_r by lia. rewrite Hm'.
      assert (0 < 2 ^ sh) by (apply Z.pow_pos_nonneg; lia). nia. }
    assert (0 < 2 ^ (d2 - 1)) by (apply Z.pow_pos_nonneg; lia).
    destruct (Z.lt_ge_cases q (2 ^ (k + 2))) as [|Hge]; [done|]. exfalso. nia. }
  assert (Hq : 0 < q). { assert (0 < 2 ^ k) by (apply Z.pow_pos_nonneg; lia). lia. }
  assert (Hdq : k + 1 ≤ Zdigits2 q ≤ k + 2).
  { split.
    - destruct (Z.le_gt_cases (k + 1) (Zdigits2 q)) as [|Hlt]; [done|]. exfalso.
      assert (Zdigits2 q ≤ k) as Hle by lia.
      apply Zdigits2_le_iff in Hle; lia.
    - apply Zdigits2_le_iff; lia. }
  assert (HD : M ≤ Zdigits2 q + e' ≤ M + 1) by (unfold k, M in *; fold d1 d2; lia).
  pose proof (binary_round_aux_lower (xorb sx sy) q e' (new_location (Z.pos my) r)
                Hq ltac:(lia)) as Hl.
  pose proof (binary_round_aux_upper (xorb sx sy) q e' (new_location (Z.pos my) r)
                Hq ltac:(lia)) as Hu.
  pose proof (binary_round_aux_no_overflow (xorb sx sy) q e' (new_location (Z.pos my) r)
                (xorb sx sy) ltac:(lia) ltac:(lia)) as Hno.
  destruct (binary_round_aux prec emax (xorb sx sy) q e' (new_location (Z.pos my) r))
    as [s'|s'| |s' m'' e'']; try done.
  - exfalso. subst s'. apply Hno; [|reflexivity]. right.
    assert (q + 1 ≤ 2 ^ (1022 - e')).
    { assert (q < 2 ^ (1022 - e')); [|lia].
      apply Z.lt_le_trans with (2 ^ (k + 2)); [done|]. apply Z.pow_le_mono_r; lia. }
    replace (1022 - e') with (51 + (971 - e')) in H by lia.
    rewrite Z.pow_add_r in H by lia.
    assert (0 < 2 ^ (971 - e')) by (apply Z.pow_pos_nonneg; lia). nia.
  - destruct Hl as [-> Hl]. exists m'', e''. split; [reflexivity|]. lia.
Qed.


#[local] Open Scope float_scope.

Lemma valid_canonical x s m e :
  Prim2SF x = S754_finite s m e → e = Z.max (Zdigits2 (Z.pos m) + e - 53) (-1074).
Proof.
  intros Hx. pose proof (Prim2SF_valid x) as Hv. rewrite Hx in Hv.
  simpl in Hv. unfold bounded, canonical_mantissa in Hv.
  apply andb_prop in Hv as [Hc Hb]. apply Z.eqb_eq in Hc.
  rewrite fexp_unfold in Hc. simpl Zdigits2. lia.
Qed.

Lemma moderate_binade x : moderate x = true → binade_within (-199) 201 x.
Proof.
  unfold moderate. rewrite !leb_spec.
  change (Prim2SF 0x1p-200) with (S754_finite false 4503599627370496 (-252)).
  change (Prim2SF 0x1p200) with (S754_finite false 4503599627370496 148).
  destruct (Prim2SF x) as [[]|[]| |[] m e] eqn:Hx; try done.
  pose proof (valid_canonical _ _ _ _ Hx) as Hc.
  unfold SFleb, SFcompare. intros H. exists m, e. split; [exact Hx|].
  apply andb_prop in H as [H1 H2].
  destruct (Z.compare_spec (-252) e), (Z.compare_spec e 148); try done; lia.
Qed.

Lemma binade_within_pos lo hi x :
  binade_within lo hi x →
  (0 <? x) = true ∧ Sensitivity._is_finite x = true ∧ (x =? 0) = false.
Proof.
  intros (m & e & Hx & _). rewrite gtb_0_sf, _is_finite_sf, eqb_0_sf, Hx. done.
Qed.

(** Products and quotients of positive numbers of known binades. *)
Lemma mul_binade a b c d x y :
  binade_within a b x → binade_within c d y →
  (-1072 ≤ a + c)%Z → (b + d ≤ 973)%Z →
  binade_within (a + c - 1) (b + d + 1) (x * y).
Proof.
  intros (mx & ex & Hx & Hbx) (my & ey & Hy & Hby) Hlo Hhi.
  unfold binade_within. rewrite mul_spec, Hx, Hy.
  assert (1 ≤ Zdigits2 (Z.pos mx) ∧ 1 ≤ Zdigits2 (Z.pos my))%Z as [Hdx Hdy].
  { rewrite !Zdigits2_log2. pose proof (Z.log2_nonneg (Z.pos mx)).
    pose proof (Z.log2_nonneg (Z.pos my)). lia. }
  destruct (SFmul_binade false mx ex false my ey) as (m & e & -> & Hm); [lia..|].
  exists m, e. split; [reflexivity|]. lia.
Qed.

Lemma div_binade a b c d x y :
  binade_within a b x → binade_within c d y →
  (-1020 ≤ a - d)%Z → (b - c ≤ 1020)%Z →
  binade_within (a - d) (b - c + 2) (x / y).
Proof.
  intros (mx & ex & Hx & Hbx) (my & ey & Hy & Hby) Hlo Hhi.
  unfold binade_within. rewrite div_spec, Hx, Hy.
  destruct (SFdiv_binade false mx ex false my ey) as (m & e & -> & H); [lia..|].
  exists m, e. split; [reflexivity|]. lia.
Qed.

(** [4 pi G] lies between [2^-31] and [2^-30]. *)
Lemma four_pi_G_binade :
  binade_within (-30) (-30) (4 * math_pi * Cosmology.G_NEWTON).
Proof.
  eexists _, _. split; [vm_compute; reflexivity|]. vm_compute. split; discriminate.
Qed.

(** [c^2/(4 pi G) * (D_s / (D_l * D_ls))] on numbers of moderate size is
    positive and finite, and no intermediate result is zero. *)
Lemma sigma_crit_formula_moderate c2 Dl Ds Dls :
  moderate c2 = true → moderate Dl = true → moderate Ds = true → moderate Dls = true →
  (Dl * Dls =? 0) = false ∧
  (0 <? c2 / (4 * math_pi * Cosmology.G_NEWTON) * (Ds / (Dl * Dls))) = true ∧
  Sensitivity._is_finite (c2 / (4 * math_pi * Cosmology.G_NEWTON) * (Ds / (Dl * Dls))) = true.
Proof.
  intros Hc Hl Hs Hls.
  apply moderate_binade in Hc, Hl, Hs, Hls.
  pose proof (mul_binade _ _ _ _ _ _ Hl Hls ltac:(lia) ltac:(lia)) as Hp.
  pose proof (div_binade _ _ _ _ _ _ Hs Hp ltac:(lia) ltac:(lia)) as Hq.
  pose proof (div_binade _ _ _ _ _ _ Hc four_pi_G_binade ltac:(lia) ltac:(lia)) as Hpref.
  pose proof (mul_binade _ _ _ _ _ _ Hpref Hq ltac:(lia) ltac:(lia)) as Hr.
  split; [now apply binade_within_pos in Hp|].
  apply binade_within_pos in Hr. tauto.
Qed.

End RangeFacts.

(** ** The cosmology engine *)

Module CosmologyFacts.
Import Cosmology Spec Derived SignFacts RangeFacts.
#[local] Open Scope float_scope.

(** Reduction of the monad's operations on a returned value. *)
Ltac rsimpl := cbn [mbind result_bind fmap result_fmap mret result_ret].

Lemma truediv_ok x y : (y =? 0) = false → truediv x y = Ok (x / y).
Proof. unfold truediv. now intros ->. Qed.

Lemma odd_mod_2 i : (i mod 2 =? 1)%Z = Z.odd i.
Proof. rewrite Zmod_odd. now destruct (Z.odd i). Qed.

Lemma even_mod_2 i : (i mod 2 =? 0)%Z = Z.even i.
Proof. rewrite Zmod_even. now destruct (Z.even i). Qed.

(** [__init__] makes the subinterval count even. *)
Lemma n_int_init H0 Om Ode n :
  n_int (__init__ H0 Om Ode n) = (if Z.odd n then n + 1 else n)%Z ∧
  Z.even (n_int (__init__ H0 Om Ode n)) = true.
Proof.
  simpl. rewrite even_mod_2, <- Z.negb_odd, negb_involutive.
  destruct (Z.odd n) eqn:Ho; split; try reflexivity.
  - rewrite Z.even_add, <- Z.negb_odd, Ho. reflexivity.
  - now rewrite <- Z.negb_odd, Ho.
Qed.

Lemma simpson_step_ok f a h i v s1 s2 :
  f (Scalar (PyFloat (a + float_of_int i * h))) = Ok (Scalar (PyFloat v)) →
  _simpson_step f a h (PyFloat s1, PyFloat s2) i =
    Ok (if Z.odd i then (PyFloat (s1 + v), PyFloat s2)
        else (PyFloat s1, PyFloat (s2 + v))).
Proof.
  intros Hf. unfold _simpson_step. cbv zeta. rewrite Hf. cbn.
  rewrite odd_mod_2. now destruct (Z.odd i).
Qed.

(** The loop of the pure-Python branch adds the values at the odd nodes to
    one accumulator and those at the even nodes to the other, in order. *)
Lemma simpson_loop f a h y l s1 s2 :
  (∀ i, i ∈ l → f (Scalar (PyFloat (a + float_of_int i * h))) = Ok (Scalar (PyFloat (y i)))) →
  for_each (_simpson_step f a h) l (PyFloat s1, PyFloat s2) =
    Ok (PyFloat (foldl PrimFloat.add s1 (y <$> List.filter Z.odd l)),
        PyFloat (foldl PrimFloat.add s2 (y <$> List.filter Z.even l))).
Proof.
  revert s1 s2. induction l as [|i l IH]; intros s1 s2 Hf; [reflexivity|].
  cbn [for_each]. rewrite (simpson_step_ok f a h i (y i)) by (apply Hf; left).
  cbn [List.filter]. rewrite <- (Z.negb_odd i).
  destruct (Z.odd i); cbn; apply IH; intros j Hj; apply Hf; now right.
Qed.


(** *** Slices of an array and the nodes they select *)

Lemma seqZ_cons2 s n :
  seqZ s (Z.of_nat (S (S n))) = s :: (s + 1)%Z :: seqZ (s + 2) (Z.of_nat n).
Proof.
  rewrite (seqZ_cons s) by lia. rewrite (seqZ_cons (Z.succ s)) by lia.
  repeat f_equal; lia.
Qed.

Lemma stride2_seqZ s n :
  stride2 (seqZ s (Z.of_nat n)) =
    List.filter (λ i, Bool.eqb (Z.odd i) (Z.odd s)) (seqZ s (Z.of_nat n)).
Proof.
  revert s. induction n as [n IH] using lt_wf_ind. intros s.
  destruct n as [|[|n]].
  - reflexivity.
  - change (Z.of_nat 1) with 1%Z. rewrite seqZ_cons by lia. simpl.
    rewrite seqZ_nil by lia. now rewrite eqb_reflx.
  - rewrite seqZ_cons2. cbn [stride2 List.filter]. rewrite eqb_reflx.
    replace (Z.odd (s + 1)) with (negb (Z.odd s))
      by (rewrite Z.odd_add; now destruct (Z.odd s)).
    rewrite (IH n) by lia.
    replace (Bool.eqb (negb (Z.odd s)) (Z.odd s)) with false by now destruct (Z.odd s).
    f_equal. apply List.filter_ext. intros i.
    rewrite Z.odd_add. now destruct (Z.odd i), (Z.odd s).
Qed.

Lemma stride2_fmap {A B} (f : A → B) l : stride2 (f <$> l) = f <$> stride2 l.
Proof.
  induction l as [l IH] using (induction_ltof1 _ length). unfold ltof in IH.
  destruct l as [|x [|x' l]]; try reflexivity.
  cbn. f_equal. apply IH. simpl. lia.
Qed.

Lemma removelast_fmap {A B} (f : A → B) l : removelast (f <$> l) = f <$> removelast l.
Proof.
  induction l as [|x l IH]; [reflexivity|]. destruct l as [|x' l]; [reflexivity|].
  cbn [fmap list_fmap removelast] in *. now rewrite IH.
Qed.

Lemma removelast_seqZ s n : removelast (seqZ s (Z.of_nat (S n))) = seqZ s (Z.of_nat n).
Proof.
  replace (Z.of_nat (S n)) with (Z.of_nat n + 1)%Z by lia.
  rewrite seqZ_app by lia. change (seqZ (s + Z.of_nat n) 1) with [(s + Z.of_nat n)%Z].
  apply removelast_last.
Qed.

(** A list is its entries, in order. *)
Lemma list_entries (ys : list float) :
  ys = entry ys <$> seqZ 0 (Z.of_nat (length ys)).
Proof.
  apply list_eq. intros k. rewrite list_lookup_fmap.
  destruct (ys !! k) as [y|] eqn:Hk.
  - rewrite (lookup_seqZ_lt 0 _ k) by (apply lookup_lt_Some in Hk; lia).
    cbn. unfold entry. replace (Z.to_nat (0 + Z.of_nat k)) with k by lia.
    now rewrite Hk.
  - rewrite lookup_seqZ_ge; [reflexivity|]. apply lookup_ge_None in Hk. lia.
Qed.

Lemma slices_nodes (ys : list float) (n : Z) :
  (0 < n)%Z → Z.even n = true → length ys = Z.to_nat (n + 1) →
  index_first ys = Ok (entry ys 0) ∧
  index_last ys = Ok (entry ys n) ∧
  slice_to_last_by_2 1 ys = entry ys <$> odd_nodes n ∧
  slice_to_last_by_2 2 ys = entry ys <$> even_interior_nodes n.
Proof.
  intros Hn Hev Hlen.
  assert (∃ k, n = Z.of_nat (S (S k))) as [k ->].
  { exists (Z.to_nat n - 2)%nat. destruct (Z.eq_dec n 1%Z) as [->|]; [done|lia]. }
  split; [|split; [|split]].
  - destruct ys; [simpl in Hlen; lia|reflexivity].
  - unfold index_last, entry. rewrite last_lookup, Hlen.
    replace (Z.to_nat (Z.of_nat (S (S k)))) with (Init.Nat.pred (Z.to_nat (Z.of_nat (S (S k)) + 1))) by lia.
    destruct (ys !! _) eqn:Hl; [reflexivity|].
    apply lookup_ge_None in Hl. lia.
  - unfold slice_to_last_by_2, odd_nodes.
    rewrite (list_entries ys) at 1. rewrite Hlen, removelast_fmap.
    replace (Z.of_nat (Z.to_nat (Z.of_nat (S (S k)) + 1))) with (Z.of_nat (S (S (S k)))) by lia.
    rewrite removelast_seqZ, <- fmap_drop, stride2_fmap. f_equal.
    rewrite (seqZ_cons 0) by lia. cbn [drop].
    replace (Z.pred (Z.of_nat (S (S k)))) with (Z.of_nat (S k)) by lia.
    replace (Z.of_nat (S (S k)) - 1)%Z with (Z.of_nat (S k)) by lia.
    rewrite drop_0. change (Z.succ 0) with 1%Z. rewrite stride2_seqZ.
    apply List.filter_ext. intros i. now destruct (Z.odd i).
  - unfold slice_to_last_by_2, even_interior_nodes.
    rewrite (list_entries ys) at 1. rewrite Hlen, removelast_fmap.
    replace (Z.of_nat (Z.to_nat (Z.of_nat (S (S k)) + 1))) with (Z.of_nat (S (S (S k)))) by lia.
    rewrite removelast_seqZ, <- fmap_drop, stride2_fmap. f_equal.
    rewrite seqZ_cons2. cbn [drop]. rewrite drop_0.
    replace (Z.of_nat (S (S k)) - 1)%Z with (Z.of_nat (S k)) by lia.
    rewrite stride2_seqZ. rewrite (seqZ_cons 1) by lia.
    cbn [List.filter]. change (Z.even 1) with false.
    replace (Z.pred (Z.of_nat (S k))) with (Z.of_nat k) by lia.
    apply List.filter_ext. intros i. rewrite <- Z.negb_odd. now destruct (Z.odd i).
Qed.


(** *** [_simpson_integrate] is Simpson's composite rule *)

Lemma simpson_integrate_python f a b n y :
  (0 < n < 2 ^ 63)%Z → Z.even n = true →
  (∀ i, (0 ≤ i ≤ n)%Z → f (Scalar (PyFloat (node a b n i))) = Ok (Scalar (PyFloat (y i)))) →
  _simpson_integrate None f a b n = Ok (PyFloat (simpson_rule running_sum a b n y)).
Proof.
  intros Hn Hev Hf. unfold _simpson_integrate.
  rewrite even_mod_2, Hev. destruct (Z.leb_spec n 0) as [|_]; [lia|]. cbn [orb negb].
  rewrite truediv_ok by now apply float_of_int_pos. cbn.
  pose proof (Hf 0%Z ltac:(lia)) as Ha. pose proof (Hf n ltac:(lia)) as Hb.
  unfold node in Ha, Hb. rewrite Z.eqb_refl in *.
  destruct (Z.eqb_spec n 0) as [|_]; [lia|].
  rewrite Ha, Hb. cbn.
  rewrite (simpson_loop f a _ y).
  - reflexivity.
  - intros i Hi. apply elem_of_seqZ in Hi. specialize (Hf i ltac:(lia)).
    unfold node in Hf.
    destruct (Z.eqb_spec i 0) as [|_]; [lia|]. destruct (Z.eqb_spec i n) as [|_]; [lia|].
    exact Hf.
Qed.

Lemma simpson_integrate_numpy m f a b n ys :
  (0 < n < 2 ^ 63)%Z → Z.even n = true →
  f (Array (linspace m a b (n + 1))) = Ok (Array ys) →
  length ys = Z.to_nat (n + 1) →
  _simpson_integrate (Some m) f a b n =
    Ok (NpFloat64 (simpson_rule (sum m) a b n (entry ys))).
Proof.
  intros Hn Hev Hf Hlen. unfold _simpson_integrate.
  rewrite even_mod_2, Hev. destruct (Z.leb_spec n 0) as [|_]; [lia|]. cbn [orb negb].
  rewrite truediv_ok by now apply float_of_int_pos. cbn.
  rewrite Hf. cbn.
  destruct (slices_nodes ys n) as (-> & -> & -> & ->); [lia|done|done|].
  reflexivity.
Qed.

(** The integrand on an array is evaluated entry by entry and cannot raise. *)
Lemma invE_array m float_pow self xs :
  invE (Some m) float_pow self (Array xs) =
    Ok (Array ((λ x, 1 / sqrt (Om0 self * power m (1 + x) 3 + Ode0 self)) <$> xs)).
Proof. unfold invE, E. cbn. now rewrite <- list_fmap_compose. Qed.

(** *** The integrand at a scalar *)

Lemma invE_scalar np float_pow self x :
  invE np float_pow self (Scalar (PyFloat x)) =
    p ← float_pow (1 + x) 3%Z;
    r ← math_sqrt (Om0 self * p + Ode0 self);
    q ← truediv 1 r;
    Ok (Scalar (PyFloat q)).
Proof.
  unfold invE, E. destruct np; cbn [as_scalar]; rsimpl; cbn [val];
    (destruct (float_pow (1 + x) 3%Z) as [p|]; [|reflexivity]); rsimpl;
    (destruct (math_sqrt (Om0 self * p + Ode0 self)) as [r|]; [|reflexivity]); rsimpl;
    cbn [div]; now destruct (truediv 1 r).
Qed.

(** Where the integrand is defined: the power returns, the radicand is not
    negative and its root is not zero. *)
Lemma invE_scalar_ok np float_pow self x p :
  float_pow (1 + x) 3%Z = Ok p →
  (Om0 self * p + Ode0 self <? 0) = false →
  (sqrt (Om0 self * p + Ode0 self) =? 0) = false →
  invE np float_pow self (Scalar (PyFloat x)) =
    Ok (Scalar (PyFloat (1 / sqrt (Om0 self * p + Ode0 self)))).
Proof.
  intros Hp Hr Hs. rewrite invE_scalar, Hp. rsimpl. unfold math_sqrt. rewrite Hr. rsimpl.
  unfold truediv. now rewrite Hs.
Qed.

Lemma invE_scalar_raise np float_pow self x e :
  float_pow (1 + x) 3%Z = Raise e →
  invE np float_pow self (Scalar (PyFloat x)) = Raise e.
Proof. intros Hp. now rewrite invE_scalar, Hp. Qed.

(** A value of the integrand is never negative. *)
Lemma invE_scalar_sign np float_pow self x v :
  invE np float_pow self (Scalar (PyFloat x)) ≫= as_scalar = Ok v →
  sign_clear_or_nan (val v) = true.
Proof.
  rewrite invE_scalar.
  destruct (float_pow (1 + x) 3%Z) as [p|]; [|done]. rsimpl.
  unfold math_sqrt. destruct (_ <? 0); [done|]. rsimpl.
  unfold truediv. destruct (sqrt _ =? 0) eqn:Hs; [done|]. rsimpl. cbn [as_scalar].
  intros [= <-]. cbn [val].
  apply sign_clear_or_nan_div; [reflexivity|]. now apply sign_clear_or_nan_sqrt.
Qed.

(** C1 (amended). [comoving_distance] raises the domain error for [z < 0];
    for [z = 0] it returns zero whatever the integrand does (the integrand is
    not evaluated); for [z > 0] it returns [c/H0_SI] times Simpson's
    composite rule [(h/3) (f(a) + f(b) + 4 Σ f(odd) + 2 Σ f(even interior))],
    [h = (b - a)/n], of the integrand [1 / sqrt (Om0 (1 + x)^3 + Ode0)] over
    [[0, z]], with [n] the engine's subinterval count: the count given to the
    constructor, plus one when it was odd.  In the pure-Python branch this
    holds where the integrand is defined at the nodes [0, h, 2h, ..., z] (the
    cube [(1 + x) ** 3] returns, the radicand is not negative and its root
    is not zero), and the sums are running sums; if the cube raises at [z]
    while the integrand is defined at [0], the call raises with it.  With
    numpy the nodes are those of [linspace], the sums are [ndarray.sum], and
    nothing raises. *)
Theorem comoving_distance_simpson np float_pow H0 Om Ode n z pref :
  let self := __init__ H0 Om Ode n in
  let N := n_int self in
  (0 < n < 2 ^ 63 - 1)%Z →
  truediv C_LIGHT (H0_SI self) = Ok pref →
  Sensitivity._is_finite pref = true →
  (N = (if Z.odd n then n + 1 else n)%Z ∧ Z.even N = true) ∧
  ((z <? 0) = true →
     comoving_distance np float_pow self z = Raise (ValueError "z must be >= 0")) ∧
  ((z =? 0) = true →
     ∃ d, comoving_distance np float_pow self z = Ok (PyFloat d) ∧ (d =? 0) = true) ∧
  ((0 <? z) = true →
     match np with
     | None =>
         (∀ p,
            (∀ i, (0 ≤ i ≤ N)%Z →
               float_pow (1 + node 0 z N i) 3%Z = Ok (p i) ∧
               (Om0 self * p i + Ode0 self <? 0) = false ∧
               (sqrt (Om0 self * p i + Ode0 self) =? 0) = false) →
            comoving_distance None float_pow self z =
              Ok (PyFloat (pref * simpson_rule running_sum 0 z N
                             (λ i, 1 / sqrt (Om0 self * p i + Ode0 self))))) ∧
         (∀ e,
            returns (invE None float_pow self (Scalar (PyFloat 0))) = true →
            float_pow (1 + z) 3%Z = Raise e →
            comoving_distance None float_pow self z = Raise e)
     | Some m =>
         length (linspace m 0 z (N + 1)) = Z.to_nat (N + 1) →
         comoving_distance (Some m) float_pow self z =
           Ok (NpFloat64 (pref * simpson_rule (sum m) 0 z N
                 (entry ((λ x, 1 / sqrt (Om0 self * power m (1 + x) 3 + Ode0 self))
                           <$> linspace m 0 z (N + 1)))))
     end).
Proof.
  intros self N Hn Hpref Hfin.
  destruct (n_int_init H0 Om Ode n) as [HN Hev]. fold self N in HN, Hev.
  assert (0 < N < 2 ^ 63)%Z as HNr by (rewrite HN; destruct (Z.odd n); lia).
  split; [done|]. split; [|split].
  - intros Hz. unfold comoving_distance. now rewrite Hz.
  - intros Hz. destruct (eqb_0_ltb z Hz) as [Hlt Hgt].
    unfold comoving_distance. rewrite Hlt, Hgt. rsimpl. rewrite Hpref. rsimpl.
    eexists; split; [reflexivity|]. now apply mul_0_r_finite.
  - intros Hz.
    assert ((z <? 0) = false) as Hlt.
    { rewrite ltb_0_sf. rewrite gtb_0_sf in Hz.
      now destruct (Prim2SF z) as [[]|[]| |[] m e]. }
    destruct np as [m|].
    + intros Hlen. unfold comoving_distance. rewrite Hlt, Hz.
      fold N. rewrite (simpson_integrate_numpy m _ 0 z N _ HNr Hev (invE_array _ _ _ _)).
      * rsimpl. rewrite Hpref. reflexivity.
      * now rewrite length_fmap.
    + split.
      * intros p Hp. unfold comoving_distance. rewrite Hlt, Hz. fold N.
        rewrite (simpson_integrate_python _ 0 z N
                   (λ i, 1 / sqrt (Om0 self * p i + Ode0 self)) HNr Hev).
        -- rsimpl. rewrite Hpref. reflexivity.
        -- intros i Hi. destruct (Hp i Hi) as (Hpow & Hrad & Hroot).
           now apply (invE_scalar_ok None float_pow self _ (p i)).
      * intros e H0' He. unfold comoving_distance. rewrite Hlt, Hz. fold N.
        unfold _simpson_integrate.
        rewrite even_mod_2, Hev. destruct (Z.leb_spec N 0) as [|_]; [lia|]. cbn [orb negb].
        rewrite (truediv_ok (z - 0) (float_of_int N)) by now apply float_of_int_pos.
        rsimpl.
        rewrite (invE_scalar_raise None float_pow self z e He).
        rewrite invE_scalar in H0' |- *.
        destruct (float_pow (1 + 0) 3%Z) as [p0|]; [|done]. rsimpl.
        cbn [mbind result_bind] in H0'.
        destruct (math_sqrt _) as [r0|]; [|done]. rsimpl.
        cbn [mbind result_bind] in H0'.
        now destruct (truediv 1 r0).
Qed.


(** *** Angular-diameter distances and the critical surface density *)

Lemma div_ok a b :
  (val b =? 0) = false → div a b = Ok (arith PrimFloat.div a b).
Proof.
  intros Hb. destruct a as [x|x], b as [y|y]; try reflexivity.
  cbn in *. unfold truediv. now rewrite Hb.
Qed.

Lemma div_val a b D : div a b = Ok D → val D = val a / val b.
Proof.
  destruct a as [x|x], b as [y|y]; cbn; try (now intros [= <-]).
  unfold truediv. destruct (y =? 0); [done|]. now intros [= <-].
Qed.

Lemma val_arith op a b : val (arith op a b) = op (val a) (val b).
Proof. now destruct a, b. Qed.

Lemma nonneg_ltb_nonneg x y : (0 <=? x) = true → (x <? y) = true → (y <? 0) = false.
Proof.
  rewrite geb_0_sf, ltb_0_sf, ltb_spec.
  now destruct (Prim2SF x) as [[]|[]| |[] m1 e1], (Prim2SF y) as [[]|[]| |[] m2 e2].
Qed.

Lemma not_leb_0_nan x : ((x <=? 0) || _is_nan x) = negb (0 <? x).
Proof.
  rewrite leb_0_sf, _is_nan_sf, gtb_0_sf. now destruct (Prim2SF x) as [[]|[]| |[] m e].
Qed.

Lemma degenerate_false D_l D_s D_ls :
  degenerate D_l D_s D_ls = false ↔
  (0 <? val D_l) = true ∧ (0 <? val D_s) = true ∧ (0 <? val D_ls) = true.
Proof.
  unfold degenerate.
  pose proof (not_leb_0_nan (val D_l)). pose proof (not_leb_0_nan (val D_s)).
  pose proof (not_leb_0_nan (val D_ls)).
  destruct (val D_l <=? 0), (val D_s <=? 0), (val D_ls <=? 0),
    (_is_nan (val D_l)), (_is_nan (val D_s)), (_is_nan (val D_ls)),
    (0 <? val D_l), (0 <? val D_s), (0 <? val D_ls); cbn in *; intuition congruence.
Qed.

(** *** In the pure-Python branch the integral is never negative *)

Lemma val_add a b : val (add a b) = val a + val b.
Proof. apply val_arith. Qed.
Lemma val_mul a b : val (mul a b) = val a * val b.
Proof. apply val_arith. Qed.

Lemma simpson_loop_sign f a h l s s' :
  (∀ x v, f (Scalar (PyFloat x)) ≫= as_scalar = Ok v → sign_clear_or_nan (val v) = true) →
  sign_clear_or_nan (val s.1) = true → sign_clear_or_nan (val s.2) = true →
  for_each (_simpson_step f a h) l s = Ok s' →
  sign_clear_or_nan (val s'.1) = true ∧ sign_clear_or_nan (val s'.2) = true.
Proof.
  intros Hf. revert s. induction l as [|i l IH]; intros s H1 H2.
  - now intros [= <-].
  - cbn [for_each].
    destruct (_simpson_step f a h s i) as [s1|] eqn:Hstep; rsimpl; [|done].
    apply IH; unfold _simpson_step in Hstep; cbv zeta in Hstep;
      destruct (f (Scalar (PyFloat (a + float_of_int i * h))) ≫= as_scalar) as [y|] eqn:Hy;
      cbn [mbind result_bind] in Hstep; try done; apply Hf in Hy;
      destruct (i mod 2 =? 1)%Z; injection Hstep as <-; cbn [fst snd]; try done;
      rewrite val_add; now apply sign_clear_or_nan_add.
Qed.

Lemma simpson_integrate_sign f z n I :
  (∀ x v, f (Scalar (PyFloat x)) ≫= as_scalar = Ok v → sign_clear_or_nan (val v) = true) →
  (0 <? z) = true →
  _simpson_integrate None f 0 z n = Ok I →
  sign_clear_or_nan (val I) = true.
Proof.
  intros Hf Hz. unfold _simpson_integrate.
  destruct (Z.leb_spec n 0) as [|Hn]; cbn [orb]. { intros HH. discriminate HH. }
  destruct (negb _); [done|].
  destruct (truediv (z - 0) (float_of_int n)) as [h|] eqn:Hh; rsimpl; [|done].
  destruct (f (Scalar (PyFloat 0)) ≫= as_scalar) as [fa|] eqn:Ha; rsimpl; [|done].
  destruct (f (Scalar (PyFloat z)) ≫= as_scalar) as [fb|] eqn:Hb; rsimpl; [|done].
  destruct (for_each _ _ _) as [s|] eqn:Hs; rsimpl; [|done].
  apply simpson_loop_sign in Hs as [H1 H2]; [|done..].
  rewrite truediv_ok by reflexivity. rsimpl. intros HI.
  match type of HI with Ok ?x = Ok I => assert (I = x) as -> by congruence end. clear HI.
  apply Hf in Ha, Hb.
  assert (sign_clear_or_nan h = true) as Hh'.
  { unfold truediv in Hh. destruct (float_of_int n =? 0); [done|]. injection Hh as <-.
    rewrite sub_0_r. apply sign_clear_or_nan_div; [now apply sign_clear_or_nan_pos|].
    apply sign_clear_or_nan_float_of_int. lia. }
  rewrite !val_mul, !val_add, !val_mul. cbn [val].
  repeat first [ apply sign_clear_or_nan_mul | apply sign_clear_or_nan_add
               | apply sign_clear_or_nan_div ]; done.
Qed.

Section PurePython.
Variable float_pow : float → Z → result float.
Variable self : FlatLambdaCDM.

(** Two finite comoving distances have the same sign bit, that of the
    prefactor [c/H0]. *)
Lemma comoving_distance_sign_shared z1 z2 Dc1 Dc2 :
  comoving_distance None float_pow self z1 = Ok Dc1 →
  comoving_distance None float_pow self z2 = Ok Dc2 →
  Sensitivity._is_finite (val Dc1) = true → Sensitivity._is_finite (val Dc2) = true →
  sign_clear (val Dc1) = sign_clear (val Dc2).
Proof.
  intros H1 H2.
  assert (∃ pref, truediv C_LIGHT (H0_SI self) = Ok pref) as [pref Hp].
  { unfold comoving_distance in H1. destruct (z1 <? 0); [done|].
    destruct (if 0 <? z1 then _ else _); [|done]. cbn [mbind result_bind] in H1.
    destruct (truediv C_LIGHT (H0_SI self)); [eauto|done]. }
  assert (∀ z Dc, comoving_distance None float_pow self z = Ok Dc →
            ∃ I, val Dc = pref * I ∧ sign_clear_or_nan I = true) as Hfac.
  { intros z Dc H. unfold comoving_distance in H. destruct (z <? 0); [done|].
    destruct (if 0 <? z then _ else _) as [J|] eqn:HJ; [|done]. cbn [mbind result_bind] in H.
    rewrite Hp in H. cbn [mbind result_bind] in H. injection H as <-.
    exists (val J). split; [now destruct J|].
    destruct (0 <? z) eqn:Hz; [|now injection HJ as <-].
    apply (simpson_integrate_sign (invE None float_pow self) z (n_int self) J); [|done..].
    apply invE_scalar_sign. }
  destruct (Hfac _ _ H1) as (I1 & -> & HI1). destruct (Hfac _ _ H2) as (I2 & -> & HI2).
  now apply mul_sign_shared.
Qed.
End PurePython.

Section Engine.
Variable np : option numpy.
Variable float_pow : float → Z → result float.
Variable self : FlatLambdaCDM.

Abbreviation comoving_distance := (comoving_distance np float_pow self).
Abbreviation angular_diameter_distance := (angular_diameter_distance np float_pow self).
Abbreviation angular_diameter_distance_z1z2 := (angular_diameter_distance_z1z2 np float_pow self).
Abbreviation sigma_crit := (sigma_crit np float_pow self).

Lemma sigma_crit_sentinel z_l z_s :
  (z_s <=? z_l) = true → sigma_crit z_l z_s = Ok (PyFloat nan).
Proof. intros H. unfold Cosmology.sigma_crit. now rewrite H. Qed.

Lemma sigma_crit_guard z_l z_s D_l D_s D_ls :
  (z_s <=? z_l) = false →
  angular_diameter_distance z_l = Ok D_l →
  angular_diameter_distance z_s = Ok D_s →
  angular_diameter_distance_z1z2 z_l z_s = Ok D_ls →
  sigma_crit z_l z_s =
    if degenerate D_l D_s D_ls then Ok (PyFloat nan)
    else
      c2 ← float_pow C_LIGHT 2;
      q ← div D_s (mul D_l D_ls);
      Ok (mul (PyFloat (c2 / (4 * math_pi * G_NEWTON))) q).
Proof.
  intros Hz Hl Hs Hls. unfold Cosmology.sigma_crit.
  rewrite Hz, Hl, Hs, Hls. rsimpl. fold (degenerate D_l D_s D_ls).
  destruct (degenerate D_l D_s D_ls); [reflexivity|].
  destruct (float_pow C_LIGHT 2) as [c2|]; [|reflexivity]. rsimpl.
  now rewrite truediv_ok by reflexivity.
Qed.

(** C9. [sigma_crit] compares the redshifts before it looks at their
    signs: for [z_s <= z_l], negative or not, it returns NaN and does not
    raise; for [z_s > z_l] with [z_l < 0] or [z_s < 0] it raises the domain
    error of the distance functions. *)
Theorem sigma_crit_order_before_domain z_l z_s :
  ((z_s <=? z_l) = true → sigma_crit z_l z_s = Ok (PyFloat nan)) ∧
  ((z_l <? z_s) = true → (z_l <? 0) = true ∨ (z_s <? 0) = true →
     sigma_crit z_l z_s = Raise (ValueError "z must be >= 0")).
Proof.
  split; [apply sigma_crit_sentinel|].
  intros Hlt Hneg.
  assert ((z_l <? 0) = true) as Hl.
  { destruct Hneg as [|Hs]; [done|]. now apply (ltb_neg_trans z_l z_s). }
  unfold Cosmology.sigma_crit, Cosmology.angular_diameter_distance.
  now rewrite (ltb_leb_antisym _ _ Hlt), Hl.
Qed.

(** C7 (amended). For [0 <= z1 < z2] the function returns
    [(D_C(z2) - D_C(z1)) / (1 + z2)], which is finite when both comoving
    distances are finite: in the pure-Python branch always, two finite
    comoving distances having the sign of [c/H0]; with numpy provided the two
    have the same sign bit.  Its sign is not checked.  For [z2 <= z1], both
    non-negative, it returns NaN. *)
Theorem angular_diameter_distance_z1z2_spec z1 z2 :
  ((0 <=? z1) = true → (z1 <? z2) = true →
     ∀ Dc1 Dc2,
       comoving_distance z1 = Ok Dc1 → comoving_distance z2 = Ok Dc2 →
       ∃ D, angular_diameter_distance_z1z2 z1 z2 = Ok D ∧
            val D = (val Dc2 - val Dc1) / (1 + z2) ∧
            (Sensitivity._is_finite (val Dc1) = true →
             Sensitivity._is_finite (val Dc2) = true →
             np = None ∨ sign_clear (val Dc1) = sign_clear (val Dc2) →
             Sensitivity._is_finite (val D) = true)) ∧
  ((0 <=? z1) = true → (0 <=? z2) = true → (z2 <=? z1) = true →
     angular_diameter_distance_z1z2 z1 z2 = Ok (PyFloat nan)).
Proof.
  split.
  - intros H1 H12 Dc1 Dc2 Hc1 Hc2.
    pose proof (nonneg_ltb_nonneg _ _ H1 H12) as H2.
    unfold Cosmology.angular_diameter_distance_z1z2.
    rewrite (geb_0_ltb _ H1), H2, (ltb_leb_antisym _ _ H12), Hc1, Hc2. rsimpl.
    rewrite div_ok by now apply add_1_nonneg.
    eexists; split; [reflexivity|].
    assert (val (arith PrimFloat.div (sub Dc2 Dc1) (PyFloat (1 + z2)))
            = (val Dc2 - val Dc1) / (1 + z2)) as -> by now destruct Dc1, Dc2.
    split; [reflexivity|]. intros F1 F2 Hs.
    assert ((0 <? z2) = true) as Hz2.
    { revert H1 H12. rewrite geb_0_sf, gtb_0_sf, ltb_spec.
      now destruct (Prim2SF z1) as [[]|[]| |[] m1 e1], (Prim2SF z2) as [[]|[]| |[] m2 e2]. }
    apply div_one_plus_finite; [done|].
    apply sub_same_sign_finite; [done..|].
    destruct Hs as [->|Hs]; [|done]. symmetry.
    now apply (comoving_distance_sign_shared float_pow self z1 z2).
  - intros H1 H2 H21. unfold Cosmology.angular_diameter_distance_z1z2.
    now rewrite (geb_0_ltb _ H1), (geb_0_ltb _ H2), H21.
Qed.

Lemma angular_diameter_distance_inv z D :
  angular_diameter_distance z = Ok D →
  (z <? 0) = false ∧
  ∃ Dc, comoving_distance z = Ok Dc ∧ val D = val Dc / (1 + z).
Proof.
  unfold Cosmology.angular_diameter_distance.
  destruct (z <? 0); [done|].
  destruct (Cosmology.comoving_distance np float_pow self z) as [Dc|]; [|done]. rsimpl.
  intros H. split; [reflexivity|]. exists Dc. split; [reflexivity|].
  now apply div_val in H.
Qed.

Lemma angular_diameter_distance_z1z2_inv z1 z2 D :
  (z2 <=? z1) = false →
  angular_diameter_distance_z1z2 z1 z2 = Ok D →
  (z2 <? 0) = false ∧
  ∃ Dc1 Dc2, comoving_distance z1 = Ok Dc1 ∧ comoving_distance z2 = Ok Dc2 ∧
             val D = (val Dc2 - val Dc1) / (1 + z2).
Proof.
  intros Hz. unfold Cosmology.angular_diameter_distance_z1z2. rewrite Hz.
  destruct (z1 <? 0); [done|]. destruct (z2 <? 0); [done|]. cbn [orb].
  destruct (Cosmology.comoving_distance np float_pow self z1) as [Dc1|]; [|done].
  destruct (Cosmology.comoving_distance np float_pow self z2) as [Dc2|]; [|done]. rsimpl.
  intros H. split; [reflexivity|]. exists Dc1, Dc2. split; [reflexivity|].
  split; [reflexivity|]. apply div_val in H. unfold sub in H. now rewrite H, val_arith.
Qed.

(** With all three distances positive and one of them infinite, the
    quotient [D_s / (D_l * D_ls)] is [inf / inf]. *)
Lemma sigma_crit_infinite z_l z_s D_l D_s D_ls :
  (z_s <=? z_l) = false →
  angular_diameter_distance z_l = Ok D_l →
  angular_diameter_distance z_s = Ok D_s →
  angular_diameter_distance_z1z2 z_l z_s = Ok D_ls →
  _is_inf (val D_l) || _is_inf (val D_s) || _is_inf (val D_ls) = true →
  returns (float_pow C_LIGHT 2) = true →
  val <$> sigma_crit z_l z_s = Ok nan.
Proof.
  intros Hz Hl Hs Hls Hinf Hpow.
  rewrite (sigma_crit_guard _ _ _ _ _ Hz Hl Hs Hls).
  destruct (degenerate D_l D_s D_ls) eqn:Hdeg; [reflexivity|].
  apply degenerate_false in Hdeg as (Hpl & Hps & Hpls).
  destruct (float_pow C_LIGHT 2) as [c2|]; [|done]. rsimpl.
  destruct (angular_diameter_distance_inv _ _ Hl) as (Hzl & a & Ha & Hvl).
  destruct (angular_diameter_distance_inv _ _ Hs) as (Hzs & b & Hb & Hvs).
  destruct (angular_diameter_distance_z1z2_inv _ _ _ Hz Hls)
    as (_ & a' & b' & Ha' & Hb' & Hvls).
  rewrite Ha in Ha'. rewrite Hb in Hb'. injection Ha' as <-. injection Hb' as <-.
  rewrite Hvl, Hvs, Hvls in *.
  destruct (distances_infinite _ _ _ _ Hzl Hzs Hpl Hps Hpls Hinf) as [Hden Hnan].
  rewrite div_ok.
  2:{ unfold mul. rewrite val_arith, Hvl, Hvls. now apply inf_neq_0. }
  rsimpl. unfold mul. rewrite !val_arith, Hvs, Hvl, Hvls. cbn [val].
  f_equal. apply Prim2SF_inj.
  pose proof (mul_nan_r (c2 / (4 * math_pi * G_NEWTON)) _ Hnan) as H.
  rewrite _is_nan_sf in H. now destruct (Prim2SF (_ * _)).
Qed.

(** At [z = 0] the angular-diameter distance is a zero or a NaN. *)
Lemma angular_diameter_distance_0 z D :
  (z =? 0) = true → angular_diameter_distance z = Ok D →
  ((val D <=? 0) || _is_nan (val D)) = true.
Proof.
  intros Hz. destruct (eqb_0_ltb z Hz) as [Hlt Hgt].
  unfold Cosmology.angular_diameter_distance, Cosmology.comoving_distance.
  rewrite Hlt, Hgt. rsimpl.
  destruct (truediv C_LIGHT (H0_SI self)) as [pref|]; [|done]. rsimpl.
  cbn [mul arith div]. unfold truediv.
  destruct (1 + z =? 0); [done|]. rsimpl. intros [= <-].
  apply div_mul_0_r.
Qed.

(** C4 (amended). [sigma_crit] returns NaN if [z_s <= z_l], or if one of
    the distances [D_l], [D_s], [D_ls] is non-positive or NaN, or infinite
    (once [C_LIGHT ** 2] has returned); otherwise, all three being positive
    and the product [D_l * D_ls] not zero, it returns
    [c^2/(4 pi G) * D_s/(D_l D_ls)].  The value is positive and finite when
    the three distances and [c^2] are of moderate size.  At [z_l = 0], where
    [D_l] is zero, the result is NaN. *)
Theorem sigma_crit_spec z_l z_s :
  ((z_s <=? z_l) = true → sigma_crit z_l z_s = Ok (PyFloat nan)) ∧
  (∀ D_l D_s D_ls,
     (z_s <=? z_l) = false →
     angular_diameter_distance z_l = Ok D_l →
     angular_diameter_distance z_s = Ok D_s →
     angular_diameter_distance_z1z2 z_l z_s = Ok D_ls →
     ((val D_l <=? 0) = true ∨ (val D_s <=? 0) = true ∨ (val D_ls <=? 0) = true ∨
      _is_nan (val D_l) = true ∨ _is_nan (val D_s) = true ∨ _is_nan (val D_ls) = true →
        sigma_crit z_l z_s = Ok (PyFloat nan)) ∧
     (_is_inf (val D_l) = true ∨ _is_inf (val D_s) = true ∨ _is_inf (val D_ls) = true →
      returns (float_pow C_LIGHT 2) = true →
        val <$> sigma_crit z_l z_s = Ok nan) ∧
     ((0 <? val D_l) = true → (0 <? val D_s) = true → (0 <? val D_ls) = true →
      (val D_l * val D_ls =? 0) = false →
        sigma_crit z_l z_s =
          c2 ← float_pow C_LIGHT 2;
          Ok (mul (PyFloat (c2 / (4 * math_pi * G_NEWTON)))
                (arith PrimFloat.div D_s (mul D_l D_ls)))) ∧
     (moderate (val D_l) = true → moderate (val D_s) = true →
      moderate (val D_ls) = true →
      ∀ c2, float_pow C_LIGHT 2 = Ok c2 → moderate c2 = true →
        ∃ Sigma,
          sigma_crit z_l z_s = Ok Sigma ∧
          val Sigma = c2 / (4 * math_pi * G_NEWTON) * (val D_s / (val D_l * val D_ls)) ∧
          (0 <? val Sigma) = true ∧ Sensitivity._is_finite (val Sigma) = true)) ∧
  ((z_l =? 0) = true →
     ∀ Sigma, sigma_crit z_l z_s = Ok Sigma → _is_nan (val Sigma) = true).
Proof.
  split; [apply sigma_crit_sentinel|]. split.
  - intros D_l D_s D_ls Hz Hl Hs Hls.
    assert (∀ c2, (0 <? val D_l) = true → (0 <? val D_s) = true → (0 <? val D_ls) = true →
              (val D_l * val D_ls =? 0) = false →
              float_pow C_LIGHT 2 = Ok c2 →
              sigma_crit z_l z_s =
                Ok (mul (PyFloat (c2 / (4 * math_pi * G_NEWTON)))
                      (arith PrimFloat.div D_s (mul D_l D_ls)))) as Hformula.
    { intros c2 H1 H2 H3 H0 Hc.
      rewrite (sigma_crit_guard _ _ _ _ _ Hz Hl Hs Hls).
      rewrite (proj2 (degenerate_false D_l D_s D_ls)) by done.
      rewrite Hc. rsimpl. rewrite div_ok; [reflexivity|]. now rewrite val_mul. }
    split; [|split; [|split]].
    + rewrite (sigma_crit_guard _ _ _ _ _ Hz Hl Hs Hls).
      intros Hbad. replace (degenerate D_l D_s D_ls) with true; [done|].
      symmetry. unfold degenerate.
      destruct Hbad as [-> | [-> | [-> | [-> | [-> | ->]]]]]; rewrite ?orb_true_r; reflexivity.
    + intros Hinf. apply (sigma_crit_infinite _ _ _ _ _ Hz Hl Hs Hls).
      destruct Hinf as [-> | [-> | ->]]; rewrite ?orb_true_r; reflexivity.
    + intros H1 H2 H3 H0.
      destruct (float_pow C_LIGHT 2) as [c2|] eqn:Hc.
      * now rewrite (Hformula c2).
      * rewrite (sigma_crit_guard _ _ _ _ _ Hz Hl Hs Hls).
        rewrite (proj2 (degenerate_false D_l D_s D_ls)) by done. now rewrite Hc.
    + intros M1 M2 M3 c2 Hc Mc.
      destruct (sigma_crit_formula_moderate c2 _ _ _ Mc M1 M2 M3) as (H0 & Hpos & Hfin).
      pose proof (binade_within_pos _ _ _ (moderate_binade _ M1)) as (P1 & _).
      pose proof (binade_within_pos _ _ _ (moderate_binade _ M2)) as (P2 & _).
      pose proof (binade_within_pos _ _ _ (moderate_binade _ M3)) as (P3 & _).
      eexists. split; [now apply (Hformula c2)|].
      rewrite val_mul. cbn [val]. rewrite val_arith, val_mul. done.
  - intros Hz Sigma.
    destruct (z_s <=? z_l) eqn:Hle.
    { rewrite sigma_crit_sentinel by done. now intros [= <-]. }
    destruct (angular_diameter_distance z_l) as [D_l|] eqn:Hl;
      [|unfold Cosmology.sigma_crit; now rewrite Hle, Hl].
    destruct (angular_diameter_distance z_s) as [D_s|] eqn:Hs;
      [|unfold Cosmology.sigma_crit; now rewrite Hle, Hl, Hs].
    destruct (angular_diameter_distance_z1z2 z_l z_s) as [D_ls|] eqn:Hls;
      [|unfold Cosmology.sigma_crit; now rewrite Hle, Hl, Hs, Hls].
    rewrite (sigma_crit_guard _ _ _ _ _ Hle Hl Hs Hls).
    replace (degenerate D_l D_s D_ls) with true; [now intros [= <-]|].
    symmetry. unfold degenerate.
    pose proof (angular_diameter_distance_0 z_l D_l Hz Hl) as H0.
    apply orb_prop in H0 as [->| ->]; rewrite ?orb_true_r; reflexivity.
Qed.
End Engine.

End CosmologyFacts.

(** ** The input validator *)

Module ValidateFacts.
Import Validate.
#[local] Open Scope float_scope.

Lemma elem_of_append_if c f l (x : string) :
  x ∈ append_if c f l ↔ x ∈ l ∨ (c = true ∧ x = f).
Proof.
  unfold append_if. destruct c.
  - rewrite elem_of_app, list_elem_of_singleton. intuition.
  - intuition congruence.
Qed.

Lemma snoc_not_nil {A} (l : list A) x : l ++ [x] ≠ [].
Proof. now destruct l. Qed.

Lemma append_if_nil c f l : append_if c f l = [] → l = [] ∧ c = false.
Proof.
  unfold append_if. destruct c; [|done]. intros H. now apply snoc_not_nil in H.
Qed.

Lemma _to_float_nil l x name l' v :
  _to_float l x name = (l', v) → l' = [] →
  l = [] ∧ ∃ t, x = PyNumber t ∧ Sensitivity._is_finite t = true ∧ v = Some t.
Proof.
  unfold _to_float, Sensitivity._is_finite.
  destruct x as [|t|].
  - intros [= <- <-] H. now apply snoc_not_nil in H.
  - destruct (_is_nan t) eqn:Hn; [intros [= <- <-] H; now apply snoc_not_nil in H|].
    destruct (_is_inf t) eqn:Hi; [intros [= <- <-] H; now apply snoc_not_nil in H|].
    intros [= <- <-] ->. split; [done|]. exists t. now rewrite Hn, Hi.
  - intros [= <- <-] H. now apply snoc_not_nil in H.
Qed.

(** C8. In strict mode [is_valid] says whether no flag was raised; in
    non-strict mode it is [True] whatever was flagged, and the flags are the
    same ones. *)
Theorem strict_and_lax_modes theta_E_arcsec z_l z_s require_zs :
  let strict := validate_lens_inputs theta_E_arcsec z_l z_s require_zs true in
  let lax := validate_lens_inputs theta_E_arcsec z_l z_s require_zs false in
  is_valid strict = bool_decide (flags strict = []) ∧
  is_valid lax = true ∧
  flags lax = flags strict.
Proof.
  unfold validate_lens_inputs.
  destruct (_to_float [] theta_E_arcsec "thetaE") as [f1 th].
  destruct (_to_float f1 z_l "zl") as [f2 zl].
  destruct (if require_zs || is_not_None z_s then _ else _) as [f3 zs].
  cbn. split; [|done].
  apply bool_decide_ext. apply length_zero_iff_nil.
Qed.

(** A field fails coercion when it is missing, non-numeric, NaN or infinite. *)
Lemma _to_float_fails l x name :
  x = PyNone ∨ x = PyNonNumeric ∨
    (∃ v, x = PyNumber v ∧ (_is_nan v = true ∨ _is_inf v = true)) →
  (_to_float l x name).2 = None.
Proof.
  intros [-> | [-> | (v & -> & Hv)]]; try reflexivity.
  unfold _to_float. destruct (_is_nan v); [done|]. destruct Hv as [? | ->]; done.
Qed.

(** C10. In non-strict mode a field that failed coercion does not make the
    result invalid, and [normalized] binds [theta_E_arcsec] and [z_l], to
    [None] for a field that failed. *)
Theorem lax_mode_binds_failed_fields theta_E_arcsec z_l z_s require_zs :
  let fails x :=
    x = PyNone ∨ x = PyNonNumeric ∨
    (∃ v, x = PyNumber v ∧ (_is_nan v = true ∨ _is_inf v = true)) in
  let r := validate_lens_inputs theta_E_arcsec z_l z_s require_zs false in
  is_valid r = true ∧
  is_Some (normalized r !! "theta_E_arcsec") ∧
  is_Some (normalized r !! "z_l") ∧
  (fails theta_E_arcsec → normalized r !! "theta_E_arcsec" = Some None) ∧
  (fails z_l → normalized r !! "z_l" = Some None).
Proof.
  intros fails r. subst r. unfold validate_lens_inputs.
  pose proof (_to_float_fails [] theta_E_arcsec "thetaE") as Hth.
  destruct (_to_float [] theta_E_arcsec "thetaE") as [f1 th].
  pose proof (_to_float_fails f1 z_l "zl") as Hzl.
  destruct (_to_float f1 z_l "zl") as [f2 zl].
  destruct (if require_zs || is_not_None z_s then _ else _) as [f3 zs].
  cbn [is_valid normalized]. cbn in Hth, Hzl.
  assert (∀ k v, k ≠ "z_s" →
    (match zs with
     | Some _ => <["z_s" := zs]> (<["z_l" := zl]> (<["theta_E_arcsec" := th]> ∅))
     | None => <["z_l" := zl]> (<["theta_E_arcsec" := th]> (∅ : gmap string (option float)))
     end) !! k = v ↔ (<["z_l" := zl]> (<["theta_E_arcsec" := th]> (∅ : gmap string (option float)))) !! k = v) as Hk.
  { intros k v Hne. destruct zs; [|done]. now rewrite lookup_insert_ne. }
  split; [done|]. unfold is_Some. setoid_rewrite Hk; try done.
  rewrite lookup_insert_ne by done. rewrite !lookup_insert_eq.
  split; [eauto|]. split; [eauto|]. split.
  - intros H. now rewrite (Hth H).
  - intros H. now rewrite (Hzl H).
Qed.

(** C5 (amended). The equal-redshift example is invalid, flagged
    ["flag_zs_le_zl"], with nothing normalized; and the flag is raised
    whenever [z_l] and [z_s] both coerce to finite numbers with [z_s <= z_l]. *)
Theorem zs_le_zl_flagged :
  (let r := validate_lens_inputs (PyNumber 1.2) (PyNumber 0.8) (PyNumber 0.8) true true in
   is_valid r = false ∧ "flag_zs_le_zl" ∈ flags r ∧ normalized r = ∅) ∧
  (∀ theta_E_arcsec zl zs require_zs strict,
     Sensitivity._is_finite zl = true → Sensitivity._is_finite zs = true →
     (zs <=? zl) = true →
     "flag_zs_le_zl" ∈
       flags (validate_lens_inputs theta_E_arcsec (PyNumber zl) (PyNumber zs)
                require_zs strict)).
Proof.
  split.
  - vm_compute. split; [done|]. split; [|done]. apply list_elem_of_singleton. done.
  - intros th zl zs require_zs strict Hl Hs Hle.
    apply leb_ltb_antisym in Hle.
    unfold Sensitivity._is_finite in Hl, Hs.
    apply andb_prop in Hl as [Hl1 Hl2]. apply andb_prop in Hs as [Hs1 Hs2].
    apply negb_true_iff in Hl1, Hl2, Hs1, Hs2.
    unfold validate_lens_inputs.
    destruct (_to_float [] th "thetaE") as [f1 t].
    unfold _to_float at 1. rewrite Hl1, Hl2.
    rewrite orb_true_r. unfold _to_float at 1. rewrite Hs1, Hs2.
    cbn [flags]. destruct require_zs.
    + apply elem_of_append_if. right. cbn. now rewrite Hle.
    + apply elem_of_append_if. right. cbn. now rewrite Hle.
Qed.

End ValidateFacts.

(** ** The sensitivity kernel *)

Import CosmologyFacts ValidateFacts.

Module SensitivityFacts.
Import Validate Sensitivity Spec.
#[local] Open Scope float_scope.

(** Strict validation with a required [z_s] passes on three finite numbers
    with [theta_E > 0] and [0 <= z_l < z_s], and on nothing else. *)
Lemma validate_strict_inv th zl zs :
  Validate.is_valid (validate_lens_inputs th zl zs true true) = true →
  ∃ t l s,
    th = PyNumber t ∧ zl = PyNumber l ∧ zs = PyNumber s ∧
    _is_finite t = true ∧ _is_finite l = true ∧ _is_finite s = true ∧
    (t <=? 0) = false ∧ (l <? 0) = false ∧ (s <? 0) = false ∧ (l <? s) = true ∧
    validate_lens_inputs th zl zs true true =
      {| Validate.is_valid := true; Validate.flags := [];
         normalized := <["z_s" := Some s]> (<["z_l" := Some l]>
                         (<["theta_E_arcsec" := Some t]> ∅)) |}.
Proof.
  unfold validate_lens_inputs.
  destruct (_to_float [] th "thetaE") as [f1 oth] eqn:H1.
  destruct (_to_float f1 zl "zl") as [f2 ozl] eqn:H2.
  cbn [orb]. destruct (_to_float f2 zs "zs") as [f3 ozs] eqn:H3.
  cbn [Validate.is_valid]. intros Hv. apply bool_decide_eq_true in Hv.
  apply length_zero_iff_nil in Hv.
  apply append_if_nil in Hv as [Hv C4]. apply append_if_nil in Hv as [Hv C3].
  apply append_if_nil in Hv as [Hv C2]. apply append_if_nil in Hv as [Hv C1].
  destruct (_to_float_nil _ _ _ _ _ H3 Hv) as (-> & s & -> & Fs & ->).
  destruct (_to_float_nil _ _ _ _ _ H2 eq_refl) as (-> & l & -> & Fl & ->).
  destruct (_to_float_nil _ _ _ _ _ H1 eq_refl) as (_ & t & -> & Ft & ->).
  cbn in C1, C2, C3, C4. apply negb_false_iff in C4.
  exists t, l, s. repeat (split; [done|]).
  cbn [present_and]. rewrite C1, C2, C3, C4. subst f3. reflexivity.
Qed.

Lemma finite_positive_check x :
  negb (_is_finite (val x)) || (val x <=? 0) = negb (finite_positive x).
Proof.
  unfold finite_positive. rewrite _is_finite_sf, gtb_0_sf, leb_0_sf.
  now destruct (Prim2SF (val x)) as [[]|[]| |[] m e].
Qed.

Lemma getitem_normalized t l s :
  let d : gmap string (option float) :=
    <["z_s" := Some s]> (<["z_l" := Some l]> (<["theta_E_arcsec" := Some t]> ∅)) in
  getitem d "theta_E_arcsec" = Ok (Some t) ∧
  getitem d "z_l" = Ok (Some l) ∧
  getitem d "z_s" = Ok (Some s).
Proof. unfold getitem. now simplify_map_eq. Qed.

(** Projections of an updated [out]. *)
Ltac proj :=
  cbn [is_valid flags theta_E_arcsec z_l z_s theta_E_rad D_l_m Sigma_crit_kg_m2
       M_inf_kg S_dlnM_dzs dM_over_M_for_delta_z
       set_is_valid set_flags set_inputs set_theta_E_rad set_D_l_m
       set_Sigma_crit_kg_m2 set_M_inf_kg set_S_dlnM_dzs
       set_dM_over_M_for_delta_z val].

(** A result that left a stage early. *)
Ltac failed :=
  left; repeat split; try reflexivity;
  unfold checked_outputs_ok; proj;
  repeat match goal with H : _ = _ :> bool |- _ => rewrite H end;
  rewrite ?andb_false_r; reflexivity.

Section Kernel.
Variable float_pow : float → Z → result float.
Variable np_float64_pow : float → Z → float.
Variable math_log : float → result float.

Abbreviation compute_sensitivity :=
  (Sensitivity.compute_sensitivity float_pow np_float64_pow math_log).
Abbreviation pow := (Sensitivity.pow float_pow np_float64_pow).

(** What a call that returns has done: it failed, leaving the bias estimate
    NaN and one of the checked outputs NaN, non-finite or non-positive; or it
    went through every stage. *)
Lemma compute_sensitivity_inv th zl zs cosmo h dz r :
  compute_sensitivity th zl zs cosmo h dz = Ok r →
  (is_valid r = false ∧ dM_over_M_for_delta_z r = PyFloat nan ∧
   checked_outputs_ok r = false) ∨
  (∃ t l s hv D_l Sigma R2 Sv,
     th = PyNumber t ∧ zl = PyNumber l ∧ zs = PyNumber s ∧ h = Some hv ∧
     _is_finite t = true ∧ (hv <=? 0) = false ∧
     angular_diameter_distance cosmo l = Ok D_l ∧
     sigma_crit cosmo l s = Ok Sigma ∧
     pow (mul D_l (PyFloat (t * ARCSEC_TO_RAD))) 2 = Ok R2 ∧
     finite_difference math_log cosmo l s hv = Ok (inl (Sv, flags r)) ∧
     is_valid r = true ∧
     theta_E_rad r = PyFloat (t * ARCSEC_TO_RAD) ∧
     D_l_m r = D_l ∧ Sigma_crit_kg_m2 r = Sigma ∧
     M_inf_kg r = mul (mul (PyFloat math_pi) R2) Sigma ∧
     S_dlnM_dzs r = PyFloat Sv ∧
     dM_over_M_for_delta_z r = PyFloat (Sv * dz) ∧
     finite_positive D_l = true ∧ finite_positive Sigma = true ∧
     finite_positive (M_inf_kg r) = true ∧ _is_finite Sv = true).
Proof.
  unfold Sensitivity.compute_sensitivity. cbv zeta.
  destruct (Validate.is_valid _) eqn:Hv; cbn [negb];
    [|intros [= <-]; left; repeat split; reflexivity].
  apply validate_strict_inv in Hv
    as (t & l & s & -> & -> & -> & Ft & Fl & Fs & Ht & Hl & Hs & Hls & ->).
  cbn [normalized]. destruct (getitem_normalized t l s) as (-> & -> & ->).
  rsimpl. cbn [as_float].
  destruct h as [hv|]; [|intros [= <-]; left; repeat split; reflexivity].
  destruct (hv <=? 0) eqn:Hh; [intros [= <-]; left; repeat split; reflexivity|].
  cbn [default from_option id]. rsimpl.
  destruct (angular_diameter_distance cosmo l) as [D_l|] eqn:HDl; [|done]. rsimpl.
  destruct (sigma_crit cosmo l s) as [Sigma|] eqn:HSig; [|done]. rsimpl.
  rewrite !finite_positive_check.
  destruct (finite_positive D_l) eqn:PDl; cbn [negb]; [|intros [= <-]; failed].
  destruct (finite_positive Sigma) eqn:PSig; cbn [negb]; [|intros [= <-]; failed].
  destruct (Sensitivity.pow _ _ _ 2) as [R2|] eqn:HR2; [|done]. rsimpl.
  rewrite finite_positive_check.
  destruct (finite_positive (mul (mul (PyFloat math_pi) R2) Sigma)) eqn:PM; cbn [negb];
    [|intros [= <-]; failed].
  lazymatch goal with |- mbind _ ?m = _ → _ =>
    change m with (finite_difference math_log cosmo l s hv) end.
  destruct (finite_difference math_log cosmo l s hv) as [[[Sv fl]|flag]|] eqn:HS;
    rsimpl; [| |done].
  - destruct (_is_finite Sv) eqn:FS; cbn [negb]; intros [= <-]; [|failed].
    right. exists t, l, s, hv, D_l, Sigma, R2, Sv. proj. repeat (split; [done|]). done.
  - intros [= <-]. failed.
Qed.


(** C3 (amended). A returned result is valid exactly when [theta_E_rad],
    [D_l_m], [Sigma_crit_kg_m2], [M_inf_kg] and [S_dlnM_dzs] are finite and
    the three physical quantities positive.  The bias estimate of a valid
    result is the product [S * delta_z], whatever [delta_z] is; that of an
    invalid one is NaN.  So all six outputs being finite implies validity,
    and a valid result has all six finite exactly when the product is. *)
Theorem valid_iff_checked_outputs theta_E_arcsec z_l z_s cosmo h delta_z r :
  compute_sensitivity theta_E_arcsec z_l z_s cosmo h delta_z = Ok r →
  is_valid r = checked_outputs_ok r ∧
  (is_valid r = true →
     dM_over_M_for_delta_z r = PyFloat (val (S_dlnM_dzs r) * delta_z)) ∧
  (is_valid r = false → dM_over_M_for_delta_z r = PyFloat nan) ∧
  (all_outputs_ok r = true → is_valid r = true) ∧
  (is_valid r = true →
     all_outputs_ok r = _is_finite (val (S_dlnM_dzs r) * delta_z)).
Proof.
  intros H. apply compute_sensitivity_inv in H
    as [(Hv & Hd & Hc)|(t & l & s & hv & D_l & Sigma & R2 & Sv & _ & _ & _ & _ & Ft & _ &
          _ & _ & _ & _ & Hv & Hth & HD & HS & HM & HSv & Hd & PD & PS & PM & FS)].
  - unfold all_outputs_ok. rewrite Hv, Hd, Hc. now repeat split.
  - unfold all_outputs_ok, checked_outputs_ok.
    rewrite Hv, Hd, Hth, HD, HS, PD, PS, PM, HSv. proj.
    rewrite (mul_ARCSEC_TO_RAD_finite t Ft), FS. now repeat split.
Qed.

(** C6. Two valid calls that differ in [theta_E_arcsec] alone return the
    same [S_dlnM_dzs], so the two values differ by less than [1e-6]. *)
Theorem S_invariant_to_theta_E theta1 theta2 z_l z_s cosmo h delta_z r1 r2 :
  compute_sensitivity theta1 z_l z_s cosmo h delta_z = Ok r1 →
  compute_sensitivity theta2 z_l z_s cosmo h delta_z = Ok r2 →
  is_valid r1 = true → is_valid r2 = true →
  S_dlnM_dzs r1 = S_dlnM_dzs r2 ∧
  (abs (val (S_dlnM_dzs r1) - val (S_dlnM_dzs r2)) <? 1e-6) = true.
Proof.
  intros H1 H2 V1 V2.
  apply compute_sensitivity_inv in H1
    as [(Hv & _)|(t & l & s & hv & D_l & Sigma & R2 & Sv & _ & -> & -> & -> & _ & _ &
          _ & _ & _ & HS1 & _ & _ & _ & _ & _ & -> & _ & _ & _ & _ & FS)]; [congruence|].
  apply compute_sensitivity_inv in H2
    as [(Hv & _)|(t' & l' & s' & hv' & D_l' & Sigma' & R2' & Sv' & _ & [= <-] & [= <-] &
          [= <-] & _ & _ & _ & _ & _ & HS2 & _ & _ & _ & _ & _ & -> & _)]; [congruence|].
  rewrite HS1 in HS2. injection HS2 as <- _.
  split; [reflexivity|]. proj. now apply abs_sub_diag_small.
Qed.

Lemma finite_difference_eval cosmo l s hv lp lm l0 :
  (hv <=? 0) = false →
  ln_sigma math_log cosmo l (s + hv) = Ok lp →
  ln_sigma math_log cosmo l (s - hv) = Ok lm →
  ln_sigma math_log cosmo l s = Ok l0 →
  finite_difference math_log cosmo l s hv = Ok (difference_ladder lp lm l0 hv).
Proof.
  intros Hh Hp Hm H0. unfold finite_difference, difference_ladder. cbv zeta.
  rewrite Hp, Hm, H0. rsimpl.
  rewrite !truediv_ok by (now apply mul_2_pos || now apply leb_0_false_neq).
  rsimpl.
  destruct (_is_finite lp), (_is_finite lm), (_is_finite l0); reflexivity.
Qed.

(** C2 (amended). Once the raw validation and the quantity checks have
    passed, [S] follows the ladder central, forward, backward, failure of
    [difference_ladder], with the flags ["flag_used_forward_diff"],
    ["flag_used_backward_diff"], ["flag_nonfinite_lnSigma_at_zs"] and
    ["flag_nonfinite_S"]; a difference quotient that is not finite fails with
    ["flag_nonfinite_S"].  On a [FlatLambdaCDM] with [z_s - h <= z_l] the
    central difference is never taken: the call succeeds with
    ["flag_used_forward_diff"] when [ln Σ(z_s + h)] and the forward quotient
    are finite, and fails with ["flag_nonfinite_S"] otherwise. *)
Theorem fallback_ladder cosmo theta_E z_l z_s h delta_z D_l Sigma ln_zs ln_plus :
  reaches_finite_difference float_pow np_float64_pow cosmo theta_E z_l z_s h D_l Sigma →
  math_log (val Sigma) = Ok ln_zs →
  ln_sigma math_log cosmo z_l (z_s + h) = Ok ln_plus →
  (∀ ln_minus,
     ln_sigma math_log cosmo z_l (z_s - h) = Ok ln_minus →
     ∃ r,
       compute_sensitivity (PyNumber theta_E) (PyNumber z_l) (PyNumber z_s)
         cosmo (Some h) delta_z = Ok r ∧
       match difference_ladder ln_plus ln_minus ln_zs h with
       | inr flag => is_valid r = false ∧ flags r = [flag]
       | inl (Sv, fl) =>
           S_dlnM_dzs r = PyFloat Sv ∧
           if _is_finite Sv then is_valid r = true ∧ flags r = fl
           else is_valid r = false ∧ flags r = ["flag_nonfinite_S"]
       end) ∧
  (∀ np c,
     cosmo = cosmo_of np float_pow c →
     (z_s - h <=? z_l) = true →
     _is_finite ln_zs = true →
     ∃ r,
       compute_sensitivity (PyNumber theta_E) (PyNumber z_l) (PyNumber z_s)
         cosmo (Some h) delta_z = Ok r ∧
       if _is_finite ln_plus && _is_finite ((ln_plus - ln_zs) / h)
       then is_valid r = true ∧ flags r = ["flag_used_forward_diff"] ∧
            S_dlnM_dzs r = PyFloat ((ln_plus - ln_zs) / h)
       else is_valid r = false ∧ flags r = ["flag_nonfinite_S"]).
Proof.
  intros (Hv & Hh & HD & HS & PD & PS & R2 & HR2 & PM) H0 Hp.
  assert (ln_sigma math_log cosmo z_l z_s = Ok ln_zs) as H0'.
  { unfold ln_sigma. rewrite HS. rsimpl.
    now rewrite finite_positive_check, PS. }
  assert (∀ ln_minus,
    ln_sigma math_log cosmo z_l (z_s - h) = Ok ln_minus →
    compute_sensitivity (PyNumber theta_E) (PyNumber z_l) (PyNumber z_s)
      cosmo (Some h) delta_z =
    match difference_ladder ln_plus ln_minus ln_zs h with
    | inr flag =>
        Ok (set_flags [flag]
              (set_M_inf_kg (mul (mul (PyFloat math_pi) R2) Sigma)
                 (set_Sigma_crit_kg_m2 Sigma (set_D_l_m D_l
                    (set_theta_E_rad (PyFloat (theta_E * ARCSEC_TO_RAD))
                       {| is_valid := false; flags := [];
                          theta_E_arcsec := PyNumber theta_E;
                          z_l := PyNumber z_l; z_s := PyNumber z_s;
                          theta_E_rad := PyFloat nan; D_l_m := PyFloat nan;
                          Sigma_crit_kg_m2 := PyFloat nan; M_inf_kg := PyFloat nan;
                          S_dlnM_dzs := PyFloat nan;
                          dM_over_M_for_delta_z := PyFloat nan |})))))
    | inl (Sv, fl) =>
        let out :=
          set_S_dlnM_dzs (PyFloat Sv)
            (set_M_inf_kg (mul (mul (PyFloat math_pi) R2) Sigma)
               (set_Sigma_crit_kg_m2 Sigma (set_D_l_m D_l
                  (set_theta_E_rad (PyFloat (theta_E * ARCSEC_TO_RAD))
                     {| is_valid := false; flags := [];
                        theta_E_arcsec := PyNumber theta_E;
                        z_l := PyNumber z_l; z_s := PyNumber z_s;
                        theta_E_rad := PyFloat nan; D_l_m := PyFloat nan;
                        Sigma_crit_kg_m2 := PyFloat nan; M_inf_kg := PyFloat nan;
                        S_dlnM_dzs := PyFloat nan;
                        dM_over_M_for_delta_z := PyFloat nan |})))) in
        if _is_finite Sv
        then Ok (set_inputs (PyNumber theta_E) (PyNumber z_l) (PyNumber z_s)
                   (set_flags fl (set_is_valid true
                      (set_dM_over_M_for_delta_z (PyFloat (Sv * delta_z)) out))))
        else Ok (set_flags ["flag_nonfinite_S"] out)
    end) as Hrun.
  { intros lm Hm.
    unfold Sensitivity.compute_sensitivity. cbv zeta. rewrite Hv. cbn [negb].
    apply validate_strict_inv in Hv
      as (t & l & s & [= <-] & [= <-] & [= <-] & _ & _ & _ & _ & _ & _ & _ & ->).
    cbn [normalized]. destruct (getitem_normalized theta_E z_l z_s) as (-> & -> & ->).
    rsimpl. cbn [as_float]. rewrite Hh. cbn [default from_option id]. rsimpl.
    rewrite HD. rsimpl. rewrite HS. rsimpl.
    rewrite !finite_positive_check, PD, PS. cbn [negb].
    rewrite HR2. rsimpl. rewrite finite_positive_check, PM. cbn [negb].
    lazymatch goal with |- mbind _ ?m = _ =>
      change m with (finite_difference math_log cosmo z_l z_s h) end.
    rewrite (finite_difference_eval _ _ _ _ _ _ _ Hh Hp Hm H0'). rsimpl.
    destruct (difference_ladder ln_plus lm ln_zs h) as [[Sv fl]|flag]; [|reflexivity].
    cbv zeta. now destruct (_is_finite Sv). }
  split.
  - intros lm Hm. rewrite (Hrun lm Hm).
    destruct (difference_ladder ln_plus lm ln_zs h) as [[Sv fl]|flag].
    + cbv zeta. destruct (_is_finite Sv); eexists; (split; [reflexivity|]); now proj.
    + eexists; split; [reflexivity|]. now proj.
  - intros np c -> Hle F0.
    assert (ln_sigma math_log (cosmo_of np float_pow c) z_l (z_s - h) = Ok nan) as Hm.
    { unfold ln_sigma. cbn [sigma_crit cosmo_of].
      now rewrite (sigma_crit_sentinel np float_pow c z_l (z_s - h) Hle). }
    rewrite (Hrun nan Hm). unfold difference_ladder.
    change (_is_finite nan) with false. rewrite andb_false_r, F0. cbn [negb].
    destruct (_is_finite ln_plus); cbn [andb].
    + cbv zeta. destruct (_is_finite ((ln_plus - ln_zs) / h));
        eexists; (split; [reflexivity|]); now proj.
    + eexists; split; [reflexivity|]. now proj.
Qed.

End Kernel.
End SensitivityFacts.

(** ** The claims on concrete inputs *)

Import SensitivityFacts.

Module Examples.
Import Cosmology Validate Sensitivity Spec.
#[local] Open Scope float_scope.

(** C1 at [FlatLambdaCDM(70, 0.3, n_int=3)] and [z = 1]: four subintervals,
    and the distance is Simpson's rule on the five values of
    [1 / sqrt (Om0 (1 + x)^3 + Ode0)]. *)
Lemma comoving_distance_simpson_witness :
  let self := __init__ 70 0.3 None 3 in
  let y i := 1 / sqrt (0.3 * Reference.power (1 + node 0 1 4 i) 3 + (1 - 0.3)) in
  n_int self = 4%Z ∧
  comoving_distance None Reference.float_pow self 1 =
    Ok (PyFloat (C_LIGHT / H0_SI self * simpson_rule running_sum 0 1 4 y)).
Proof.
  intros self y.
  destruct (comoving_distance_simpson None Reference.float_pow 70 0.3 None 3 1
              (C_LIGHT / H0_SI self))
    as ((Hn & _) & _ & _ & Hz); [lia|reflexivity|reflexivity|].
  split; [exact Hn|].
  apply (proj1 (Hz eq_refl) (λ i, Reference.power (1 + node 0 1 4 i) 3)). intros i Hi.
  assert (i = 0 ∨ i = 1 ∨ i = 2 ∨ i = 3 ∨ i = 4)%Z
    as [-> | [-> | [-> | [-> | ->]]]] by (change (n_int _) with 4%Z in Hi; lia);
    vm_compute; repeat split; reflexivity.
Defined.

(** C1 fails at [z = 1e103] without numpy: [(1 + z) ** 3] overflows, [E]
    raises, and no distance is returned. *)
Lemma comoving_distance_simpson_counterexample :
  (0 <? 1e103) = true ∧
  E None Reference.float_pow Reference.cosmo_default (Scalar (PyFloat 1e103))
    = Raise OverflowError ∧
  comoving_distance None Reference.float_pow Reference.cosmo_default 1e103
    = Raise OverflowError.
Proof.
  split; [reflexivity|]. split; vm_compute; reflexivity.
Qed.

(** C9 on a lens behind the observer: reversed redshifts give NaN, ordered
    ones with a negative [z_l] raise. *)
Lemma sigma_crit_order_before_domain_witness :
  Cosmology.sigma_crit None Reference.float_pow Reference.cosmo_default (-1) (-2)
    = Ok (PyFloat nan) ∧
  Cosmology.sigma_crit None Reference.float_pow Reference.cosmo_default (-0.5) 0.5
    = Raise (ValueError "z must be >= 0").
Proof.
  split.
  - apply (proj1 (sigma_crit_order_before_domain None Reference.float_pow
                    Reference.cosmo_default (-1) (-2))). reflexivity.
  - apply (proj2 (sigma_crit_order_before_domain None Reference.float_pow
                    Reference.cosmo_default (-0.5) 0.5)); [reflexivity|].
    left. reflexivity.
Defined.

(** C7 at [z1 = 0.3], [z2 = 1.1]: finite, and here positive. *)
Lemma angular_diameter_distance_z1z2_witness :
  ∃ D,
    angular_diameter_distance_z1z2 None Reference.float_pow Reference.cosmo_default
      0.3 1.1 = Ok D ∧
    _is_finite (val D) = true ∧ (0 <? val D) = true.
Proof.
  eassert (comoving_distance None Reference.float_pow Reference.cosmo_default 0.3
           = Ok _) as H1 by (vm_compute; reflexivity).
  eassert (comoving_distance None Reference.float_pow Reference.cosmo_default 1.1
           = Ok _) as H2 by (vm_compute; reflexivity).
  destruct (proj1 (angular_diameter_distance_z1z2_spec None Reference.float_pow
                     Reference.cosmo_default 0.3 1.1) eq_refl eq_refl _ _ H1 H2)
    as (D & HD & Hv & Hfin).
  exists D. split; [exact HD|]. split.
  - apply Hfin; [reflexivity|reflexivity|now left].
  - rewrite Hv. vm_compute. reflexivity.
Defined.

(** C7 fails to be positive on the smallest positive redshift, whose
    comoving distance underflows to zero, with numpy and without. *)
Lemma angular_diameter_distance_z1z2_counterexample :
  (0 <=? 0) = true ∧ (0 <? 5e-324) = true ∧
  comoving_distance None Reference.float_pow Reference.cosmo_default 0
    = Ok (PyFloat 0) ∧
  comoving_distance None Reference.float_pow Reference.cosmo_default 5e-324
    = Ok (PyFloat 0) ∧
  angular_diameter_distance_z1z2 None Reference.float_pow Reference.cosmo_default
    0 5e-324 = Ok (PyFloat 0) ∧
  angular_diameter_distance_z1z2 (Some Reference.numpy_ref) Reference.float_pow
    Reference.cosmo_default 0 5e-324 = Ok (NpFloat64 0) ∧
  (0 <? 0) = false.
Proof.
  split; [reflexivity|]. split; [reflexivity|].
  split; [vm_compute; reflexivity|]. split; [vm_compute; reflexivity|].
  split; [vm_compute; reflexivity|]. split; [vm_compute; reflexivity|].
  reflexivity.
Qed.

(** C4 at [z_l = 0.3], [z_s = 1.1]: the three distances and [c^2] are of
    moderate size, and the density is positive and finite.  With a Hubble
    constant of [6.17e-281] the distance to the source at [z_s = 3] is
    infinite, and the density is NaN. *)
Lemma sigma_crit_spec_witness :
  (∃ Sigma,
    Cosmology.sigma_crit None Reference.float_pow Reference.cosmo_default 0.3 1.1 = Ok Sigma ∧
    (0 <? val Sigma) = true ∧ _is_finite (val Sigma) = true) ∧
  Cosmology.angular_diameter_distance None Reference.float_pow
    (__init__ 6.17e-281 0.3 None 2048) 3 = Ok (PyFloat infinity) ∧
  val <$> Cosmology.sigma_crit None Reference.float_pow
            (__init__ 6.17e-281 0.3 None 2048) 0.3 3 = Ok nan.
Proof.
  split.
  - eassert (Cosmology.angular_diameter_distance None Reference.float_pow
               Reference.cosmo_default 0.3 = Ok _) as H1 by (vm_compute; reflexivity).
    eassert (Cosmology.angular_diameter_distance None Reference.float_pow
               Reference.cosmo_default 1.1 = Ok _) as H2 by (vm_compute; reflexivity).
    eassert (angular_diameter_distance_z1z2 None Reference.float_pow
               Reference.cosmo_default 0.3 1.1 = Ok _) as H3 by (vm_compute; reflexivity).
    eassert (Reference.float_pow C_LIGHT 2 = Ok _) as Hc by (vm_compute; reflexivity).
    destruct (proj1 (proj2 (sigma_crit_spec None Reference.float_pow
                              Reference.cosmo_default 0.3 1.1)) _ _ _ eq_refl H1 H2 H3)
      as (_ & _ & _ & Hmod).
    destruct (Hmod ltac:(vm_compute; reflexivity) ltac:(vm_compute; reflexivity)
                ltac:(vm_compute; reflexivity) _ Hc ltac:(vm_compute; reflexivity))
      as (Sigma & HS & _ & Hpos & Hfin).
    exists Sigma. split; [exact HS|]. split; assumption.
  - eassert (Cosmology.angular_diameter_distance None Reference.float_pow
               (__init__ 6.17e-281 0.3 None 2048) 0.3 = Ok _) as H1
      by (vm_compute; reflexivity).
    assert (Cosmology.angular_diameter_distance None Reference.float_pow
              (__init__ 6.17e-281 0.3 None 2048) 3 = Ok (PyFloat infinity)) as H2
      by (vm_compute; reflexivity).
    eassert (angular_diameter_distance_z1z2 None Reference.float_pow
               (__init__ 6.17e-281 0.3 None 2048) 0.3 3 = Ok _) as H3
      by (vm_compute; reflexivity).
    split; [exact H2|].
    destruct (proj1 (proj2 (sigma_crit_spec None Reference.float_pow
                              (__init__ 6.17e-281 0.3 None 2048) 0.3 3))
                _ _ _ eq_refl H1 H2 H3) as (_ & Hinf & _).
    apply Hinf; [right; left|]; reflexivity.
Defined.

(** C4 fails at [z_l = 0]: the distance to the lens is zero and the result
    is NaN, with numpy and without; and at [z_l = 0.1] with [z_s] the next
    float, where [D_ls] is zero.  And at [z_l = 1e-300], [z_s = 2e-300]
    the three distances are positive and finite, their product [D_l * D_ls]
    underflows to zero, and the division raises without numpy (with numpy it
    gives an infinity). *)
Lemma sigma_crit_spec_counterexample :
  (0 <=? 0) = true ∧ (0 <? 1.1) = true ∧
  Cosmology.sigma_crit None Reference.float_pow Reference.cosmo_default 0 1.1
    = Ok (PyFloat nan) ∧
  Cosmology.sigma_crit (Some Reference.numpy_ref) Reference.float_pow Reference.cosmo_default
    0 1.1 = Ok (PyFloat nan) ∧
  (0 <? 0.1) = true ∧ (0.1 <? 0.10000000000000002) = true ∧
  angular_diameter_distance_z1z2 None Reference.float_pow Reference.cosmo_default
    0.1 0.10000000000000002 = Ok (PyFloat 0) ∧
  Cosmology.sigma_crit None Reference.float_pow Reference.cosmo_default
    0.1 0.10000000000000002 = Ok (PyFloat nan) ∧
  Cosmology.angular_diameter_distance None Reference.float_pow Reference.cosmo_default
    1e-300 = Ok (PyFloat 1.3215183810725605e-274) ∧
  Cosmology.angular_diameter_distance None Reference.float_pow Reference.cosmo_default
    2e-300 = Ok (PyFloat 2.6430367621451211e-274) ∧
  angular_diameter_distance_z1z2 None Reference.float_pow Reference.cosmo_default
    1e-300 2e-300 = Ok (PyFloat 1.3215183810725605e-274) ∧
  Cosmology.sigma_crit None Reference.float_pow Reference.cosmo_default 1e-300 2e-300
    = Raise ZeroDivisionError ∧
  Cosmology.sigma_crit (Some Reference.numpy_ref) Reference.float_pow Reference.cosmo_default
    1e-300 2e-300 = Ok (NpFloat64 infinity).
Proof.
  split; [reflexivity|]. split; [reflexivity|].
  split; [vm_compute; reflexivity|]. split; [vm_compute; reflexivity|].
  split; [reflexivity|]. split; [reflexivity|].
  split; [vm_compute; reflexivity|]. split; [vm_compute; reflexivity|].
  split; [vm_compute; reflexivity|]. split; [vm_compute; reflexivity|].
  split; [vm_compute; reflexivity|]. split; [vm_compute; reflexivity|].
  vm_compute; reflexivity.
Qed.

(** C5: the flag of the example is ["flag_zs_le_zl"]; the list has no
    element ["zs_le_zl"]. *)
Lemma zs_le_zl_flagged_counterexample :
  let r := validate_lens_inputs (PyNumber 1.2) (PyNumber 0.8) (PyNumber 0.8)
             true true in
  Validate.flags r = ["flag_zs_le_zl"] ∧ ("zs_le_zl" ∉ Validate.flags r).
Proof.
  split; [reflexivity|]. vm_compute Validate.flags.
  rewrite list_elem_of_singleton. discriminate.
Qed.

(** C5 at [z_l = 1], [z_s = 0.5], in non-strict mode with an absent radius. *)
Lemma zs_le_zl_flagged_witness :
  "flag_zs_le_zl" ∈
    Validate.flags (validate_lens_inputs PyNone (PyNumber 1) (PyNumber 0.5) false false).
Proof.
  apply (proj2 zs_le_zl_flagged PyNone 1 0.5 false false); reflexivity.
Defined.

(** C10 on a missing radius and an infinite lens redshift. *)
Lemma lax_mode_binds_failed_fields_witness :
  let r := validate_lens_inputs PyNone (PyNumber infinity) (PyNumber 1.1) true false in
  Validate.is_valid r = true ∧
  normalized r !! "theta_E_arcsec" = Some None ∧
  normalized r !! "z_l" = Some None.
Proof.
  intros r.
  destruct (lax_mode_binds_failed_fields PyNone (PyNumber infinity) (PyNumber 1.1) true)
    as (Hv & _ & _ & Hth & Hzl).
  split; [exact Hv|]. split.
  - apply Hth. now left.
  - apply Hzl. right; right. exists infinity. split; [reflexivity|]. now right.
Defined.

(** C3 on the call of the tests. *)
Lemma valid_iff_checked_outputs_witness :
  ∃ r,
    Reference.run None Reference.cosmo_1024 1.2 0.3 1.1 1e-3 0.1 = Ok r ∧
    Sensitivity.is_valid r = true ∧ all_outputs_ok r = true.
Proof.
  eassert (Reference.run None Reference.cosmo_1024 1.2 0.3 1.1 1e-3 0.1 = Ok _)
    as Hr by (vm_compute; reflexivity).
  eexists. split; [exact Hr|].
  destruct (valid_iff_checked_outputs _ _ _ _ _ _ _ _ _ _ Hr) as (Hv & _ & _ & Ha & _).
  split; [apply Ha|]; vm_compute; reflexivity.
Defined.

(** C3 fails in its "only if" half: with [delta_z = NaN] (or infinite) the
    call of the tests is valid and its bias estimate is not finite. *)
Lemma valid_iff_checked_outputs_counterexample :
  ∃ r r',
    Reference.run None Reference.cosmo_1024 1.2 0.3 1.1 1e-3 nan = Ok r ∧
    Sensitivity.is_valid r = true ∧
    _is_finite (val (dM_over_M_for_delta_z r)) = false ∧
    all_outputs_ok r = false ∧
    Reference.run (Some Reference.numpy_ref) Reference.cosmo_1024 1.2 0.3 1.1 1e-3
      infinity = Ok r' ∧
    Sensitivity.is_valid r' = true ∧
    _is_finite (val (dM_over_M_for_delta_z r')) = false ∧
    all_outputs_ok r' = false.
Proof.
  eexists. eexists.
  split; [vm_compute; reflexivity|]. split; [reflexivity|].
  split; [reflexivity|]. split; [vm_compute; reflexivity|].
  split; [vm_compute; reflexivity|]. split; [reflexivity|].
  split; [reflexivity|]. vm_compute; reflexivity.
Qed.

(** C6 on the two calls of the tests, [theta_E = 0.5] and [theta_E = 2.0]. *)
Lemma S_invariant_to_theta_E_witness :
  ∃ r1 r2,
    Reference.run None Reference.cosmo_1024 0.5 0.3 1.1 1e-3 0.1 = Ok r1 ∧
    Reference.run None Reference.cosmo_1024 2.0 0.3 1.1 1e-3 0.1 = Ok r2 ∧
    Sensitivity.is_valid r1 = true ∧ Sensitivity.is_valid r2 = true ∧
    (abs (val (S_dlnM_dzs r1) - val (S_dlnM_dzs r2)) <? 1e-6) = true.
Proof.
  eassert (Reference.run None Reference.cosmo_1024 0.5 0.3 1.1 1e-3 0.1 = Ok _)
    as H1 by (vm_compute; reflexivity).
  eassert (Reference.run None Reference.cosmo_1024 2.0 0.3 1.1 1e-3 0.1 = Ok _)
    as H2 by (vm_compute; reflexivity).
  eexists. eexists. split; [exact H1|]. split; [exact H2|].
  split; [reflexivity|]. split; [reflexivity|].
  exact (proj2 (S_invariant_to_theta_E _ _ _ _ _ _ _ _ _ _ _ _ H1 H2 eq_refl eq_refl)).
Defined.

(** C2 next to the boundary, [z_l = 0.3], [z_s = 0.3005], [h = 1e-3]: the
    forward difference, flagged, and valid. *)
Lemma fallback_ladder_witness :
  ∃ r,
    Reference.run None Reference.cosmo_1024 1.2 0.3 0.3005 1e-3 0.1 = Ok r ∧
    Sensitivity.is_valid r = true ∧
    Sensitivity.flags r = ["flag_used_forward_diff"].
Proof.
  eassert (angular_diameter_distance
             (cosmo_of None Reference.float_pow Reference.cosmo_1024) 0.3 = Ok _) as HD
    by (vm_compute; reflexivity).
  eassert (sigma_crit (cosmo_of None Reference.float_pow Reference.cosmo_1024)
             0.3 0.3005 = Ok _) as HS by (vm_compute; reflexivity).
  lazymatch type of HD with _ = Ok ?D =>
    eassert (Sensitivity.pow Reference.float_pow Reference.power
               (mul D (PyFloat (1.2 * ARCSEC_TO_RAD))) 2 = Ok _) as HR
      by (vm_compute; reflexivity)
  end.
  lazymatch type of HS with _ = Ok ?Sigma =>
    eassert (Reference.math_log (val Sigma) = Ok _) as H0 by (vm_compute; reflexivity)
  end.
  eassert (ln_sigma Reference.math_log
             (cosmo_of None Reference.float_pow Reference.cosmo_1024)
             0.3 (0.3005 + 1e-3) = Ok _) as Hp
    by (vm_compute; reflexivity).
  lazymatch type of HD with _ = Ok ?D => lazymatch type of HS with _ = Ok ?Sigma =>
    assert (reaches_finite_difference Reference.float_pow Reference.power
              (cosmo_of None Reference.float_pow Reference.cosmo_1024)
              1.2 0.3 0.3005 1e-3 D Sigma) as Hreach
  end end.
  { split; [vm_compute; reflexivity|]. split; [vm_compute; reflexivity|].
    split; [exact HD|]. split; [exact HS|].
    split; [vm_compute; reflexivity|]. split; [vm_compute; reflexivity|].
    eexists. split; [exact HR|]. vm_compute. reflexivity. }
  destruct (proj2 (fallback_ladder Reference.float_pow Reference.power
                     Reference.math_log _ 1.2 0.3 0.3005 1e-3 0.1 _ _ _ _
                     Hreach H0 Hp) None Reference.cosmo_1024)
    as (r & Hr & Hres);
    [reflexivity|vm_compute; reflexivity|vm_compute; reflexivity|].
  exists r. split; [exact Hr|].
  lazymatch type of Hres with if ?c then _ else _ =>
    change c with true in Hres end.
  destruct Hres as (Hv & Hf & _). split; [exact Hv|exact Hf].
Defined.

(** C2 fails on the names of its flags, and in its last sentence: the call
    next to the boundary is flagged ["flag_used_forward_diff"], not
    ["used_forward_diff"]; and with an infinite step the same valid input has
    [z_s - h <= z_l] and fails with ["flag_nonfinite_S"]. *)
Lemma fallback_ladder_counterexample :
  ∃ r r',
    Reference.run None Reference.cosmo_1024 1.2 0.3 0.3005 1e-3 0.1 = Ok r ∧
    Sensitivity.flags r = ["flag_used_forward_diff"] ∧
    ("used_forward_diff" ∉ Sensitivity.flags r) ∧
    (1.1 - infinity <=? 0.3) = true ∧ (0.3 <? 1.1) = true ∧
    Reference.run None Reference.cosmo_1024 1.2 0.3 1.1 infinity 0.1 = Ok r' ∧
    finite_positive (D_l_m r') = true ∧
    finite_positive (Sigma_crit_kg_m2 r') = true ∧
    finite_positive (M_inf_kg r') = true ∧
    Sensitivity.is_valid r' = false ∧
    Sensitivity.flags r' = ["flag_nonfinite_S"].
Proof.
  eexists. eexists.
  split; [vm_compute; reflexivity|]. split; [reflexivity|].
  split; [cbn; rewrite list_elem_of_singleton; discriminate|].
  split; [reflexivity|]. split; [reflexivity|].
  split; [vm_compute; reflexivity|].
  split; [vm_compute; reflexivity|]. split; [vm_compute; reflexivity|].
  split; [vm_compute; reflexivity|]. split; reflexivity.
Qed.

End Examples.

(** * Further properties *)

(** ** The input validator: flags, validity and [normalized] *)

Module ValidateProps.
Import Validate Derived.
#[local] Open Scope float_scope.

Lemma _to_float_app l x name :
  _to_float l x name = (l ++ (_to_float [] x name).1, coerced x).
Proof.
  unfold _to_float, coerced. destruct x as [|v|]; try reflexivity.
  destruct (_is_nan v); [reflexivity|]. destruct (_is_inf v); [reflexivity|].
  now rewrite app_nil_r.
Qed.

Lemma append_if_app c f l : append_if c f l = l ++ flag_if c f.
Proof. destruct c; [reflexivity|]. cbn. now rewrite app_nil_r. Qed.

Lemma validate_unfold th zl zs req strict :
  validate_lens_inputs th zl zs req strict =
    let fl := flag_slots th zl zs req in
    let v := if strict then bool_decide (fl = []) else true in
    {| is_valid := v; flags := fl;
       normalized :=
         if v then
           let n := <["z_l" := coerced zl]> (<["theta_E_arcsec" := coerced th]> ∅) in
           match coerced zs with Some _ => <["z_s" := coerced zs]> n | None => n end
         else ∅ |}.
Proof.
  cbv zeta. unfold validate_lens_inputs.
  rewrite (_to_float_app [] th). rewrite (_to_float_app _ zl).
  cbn [app]. cbv beta iota.
  assert ((if req || is_not_None zs
           then _to_float ((_to_float [] th "thetaE").1 ++ (_to_float [] zl "zl").1) zs "zs"
           else ((_to_float [] th "thetaE").1 ++ (_to_float [] zl "zl").1, None))
          = (((_to_float [] th "thetaE").1 ++ (_to_float [] zl "zl").1) ++
               (if req || is_not_None zs then (_to_float [] zs "zs").1 else []), coerced zs)) as ->.
  { destruct (req || is_not_None zs) eqn:E.
    - now rewrite (_to_float_app (_ ++ _)).
    - rewrite app_nil_r. destruct req, zs; try discriminate. reflexivity. }
  assert (∀ l : list string, bool_decide (length l = 0%nat) = bool_decide (l = [])) as Hlen.
  { intros l. apply bool_decide_ext, length_zero_iff_nil. }
  rewrite !Hlen.
  match goal with |- {| is_valid := _; flags := ?l; normalized := _ |} = _ =>
    assert (l = flag_slots th zl zs req) as ->
  end; [|reflexivity].
  unfold flag_slots. destruct req.
  - rewrite !append_if_app, <- !app_assoc. reflexivity.
  - destruct (coerced zs) as [s|]; cbn [present_and].
    + rewrite !append_if_app, <- !app_assoc. reflexivity.
    + rewrite !append_if_app, <- !app_assoc. cbn [flag_if]. now rewrite !app_nil_r.
Qed.

Lemma validate_flags th zl zs req strict :
  flags (validate_lens_inputs th zl zs req strict) = flag_slots th zl zs req.
Proof. now rewrite validate_unfold. Qed.

Lemma elem_of_flag_if f c g : f ∈ flag_if c g ↔ c = true ∧ f = g.
Proof.
  destruct c; cbn.
  - rewrite list_elem_of_singleton. tauto.
  - rewrite elem_of_nil. intuition congruence.
Qed.

Lemma nan_not_inf v : _is_nan v = true → _is_inf v = false.
Proof. rewrite _is_nan_sf, _is_inf_sf. now destruct (Prim2SF v). Qed.

Lemma elem_of_coercion_flag f x name :
  f ∈ (_to_float [] x name).1 ↔
    (x = PyNone ∧ f = "flag_missing_" +:+ name) ∨
    (x = PyNonNumeric ∧ f = "flag_non_numeric_" +:+ name) ∨
    (∃ v, x = PyNumber v ∧ _is_nan v = true ∧ f = "flag_nan_" +:+ name) ∨
    (∃ v, x = PyNumber v ∧ _is_inf v = true ∧ f = "flag_inf_" +:+ name).
Proof.
  unfold _to_float. destruct x as [|v|]; cbn [fst app].
  - rewrite list_elem_of_singleton. split; [intros ->; now left|].
    intros [[_ ?]|[[? _]|[(? & ? & _)|(? & ? & _)]]]; done.
  - destruct (_is_nan v) eqn:Hn; [|destruct (_is_inf v) eqn:Hi]; cbn [fst app].
    + pose proof (nan_not_inf v Hn) as Hi. rewrite list_elem_of_singleton.
      split; [intros ->; right; right; left; eauto|].
      intros [[? _]|[[? _]|[(? & _ & _ & ?)|(v' & [= <-] & ? & _)]]]; try done. congruence.
    + rewrite list_elem_of_singleton.
      split; [intros ->; right; right; right; eauto|].
      intros [[? _]|[[? _]|[(v' & [= <-] & ? & _)|(? & _ & _ & ?)]]]; try done. congruence.
    + rewrite elem_of_nil. split; [done|].
      intros [[? _]|[[? _]|[(v' & [= <-] & ? & _)|(v' & [= <-] & ? & _)]]];
        try done; congruence.
  - rewrite list_elem_of_singleton. split; [intros ->; right; now left|].
    intros [[? _]|[[_ ?]|[(? & ? & _)|(? & ? & _)]]]; done.
Qed.

Lemma present_and_coerced x p :
  present_and (coerced x) p = true ↔
  ∃ v, x = PyNumber v ∧ _is_nan v = false ∧ _is_inf v = false ∧ p v = true.
Proof.
  unfold coerced. destruct x as [|v|]; cbn [present_and].
  - split; [done|]. now intros (? & ? & _).
  - destruct (_is_nan v) eqn:Hn; [|destruct (_is_inf v) eqn:Hi]; cbn [present_and].
    + split; [done|]. intros (v' & [= <-] & ? & _). congruence.
    + split; [done|]. intros (v' & [= <-] & _ & ? & _). congruence.
    + split; [intros ?; exists v; done|]. now intros (v' & [= <-] & _ & _ & ?).
  - split; [done|]. now intros (? & ? & _).
Qed.

Lemma elem_of_validate_flags f th zl zs req strict :
  f ∈ flags (validate_lens_inputs th zl zs req strict) ↔
    f ∈ (_to_float [] th "thetaE").1 ∨ f ∈ (_to_float [] zl "zl").1 ∨
    (req || is_not_None zs = true ∧ f ∈ (_to_float [] zs "zs").1) ∨
    (f = "flag_thetaE_nonpositive" ∧
       ∃ t, th = PyNumber t ∧ _is_nan t = false ∧ _is_inf t = false ∧ (t <=? 0) = true) ∨
    (f = "flag_zl_negative" ∧
       ∃ l, zl = PyNumber l ∧ _is_nan l = false ∧ _is_inf l = false ∧ (l <? 0) = true) ∨
    (f = "flag_zs_negative" ∧
       ∃ s, zs = PyNumber s ∧ _is_nan s = false ∧ _is_inf s = false ∧ (s <? 0) = true) ∨
    (f = "flag_zs_le_zl" ∧
       ∃ l s, zl = PyNumber l ∧ zs = PyNumber s ∧
         _is_nan l = false ∧ _is_inf l = false ∧ _is_nan s = false ∧ _is_inf s = false ∧
         (l <? s) = false).
Proof.
  rewrite validate_flags. unfold flag_slots.
  rewrite !elem_of_app, !elem_of_flag_if, !present_and_coerced.
  assert (f ∈ (if req || is_not_None zs then (_to_float [] zs "zs").1 else []) ↔
          req || is_not_None zs = true ∧ f ∈ (_to_float [] zs "zs").1) as ->.
  { destruct (req || is_not_None zs); [tauto|]. rewrite elem_of_nil. intuition congruence. }
  assert ((∃ s, zs = PyNumber s ∧ _is_nan s = false ∧ _is_inf s = false ∧
             present_and (coerced zl) (λ l, negb (l <? s)) = true) ↔
          ∃ l s, zl = PyNumber l ∧ zs = PyNumber s ∧
            _is_nan l = false ∧ _is_inf l = false ∧ _is_nan s = false ∧ _is_inf s = false ∧
            (l <? s) = false) as ->.
  { split.
    - intros (s & ? & ? & ? & H). apply present_and_coerced in H as (l & ? & ? & ? & H).
      apply negb_true_iff in H. exists l, s. tauto.
    - intros (l & s & ? & ? & ? & ? & ? & ? & H). exists s. repeat (split; [done|]).
      apply present_and_coerced. exists l. repeat (split; [done|]).
      now apply negb_true_iff. }
  tauto.
Qed.


(** A flag that is a literal string, against the characterization. *)
Ltac flag_names :=
  rewrite elem_of_validate_flags, !elem_of_coercion_flag;
  change ("flag_missing_" +:+ "thetaE") with "flag_missing_thetaE";
  change ("flag_non_numeric_" +:+ "thetaE") with "flag_non_numeric_thetaE";
  change ("flag_nan_" +:+ "thetaE") with "flag_nan_thetaE";
  change ("flag_inf_" +:+ "thetaE") with "flag_inf_thetaE";
  change ("flag_missing_" +:+ "zl") with "flag_missing_zl";
  change ("flag_non_numeric_" +:+ "zl") with "flag_non_numeric_zl";
  change ("flag_nan_" +:+ "zl") with "flag_nan_zl";
  change ("flag_inf_" +:+ "zl") with "flag_inf_zl";
  change ("flag_missing_" +:+ "zs") with "flag_missing_zs";
  change ("flag_non_numeric_" +:+ "zs") with "flag_non_numeric_zs";
  change ("flag_nan_" +:+ "zs") with "flag_nan_zs";
  change ("flag_inf_" +:+ "zs") with "flag_inf_zs".


Ltac flag_cases H :=
  destruct H as
    [ [[? H]|[[? H]|[(? & ? & ? & H)|(? & ? & ? & H)]]]
    | [ [[? H]|[[? H]|[(? & ? & ? & H)|(? & ? & ? & H)]]]
    | [ [? [[? H]|[[? H]|[(? & ? & ? & H)|(? & ? & ? & H)]]]]
    | [ [H ?] | [ [H ?] | [ [H ?] | [H ?] ]]]]]]; try discriminate H.

Ltac leaf := solve [repeat (first [split | eexists]); first [reflexivity | eassumption]].
Ltac disj := first [ leaf | split; [disj|disj] | left; disj | right; disj ].
Ltac flag_iff :=
  flag_names; split;
  [ let H := fresh "H" in intros H; flag_cases H; subst; eauto
  | let H := fresh "H" in intros H; try destruct H as (? & -> & H); subst;
    cbn [is_not_None]; rewrite ?orb_true_r; disj ].

(** X1. Which inputs raise each of the twelve coercion flags: a field that is
    [None], one that [float()] rejects, a NaN and an infinity; a missing
    [z_s] is flagged only when it is required. *)
Theorem coercion_flags th zl zs require_zs strict :
  let r := validate_lens_inputs th zl zs require_zs strict in
  ("flag_missing_thetaE" ∈ flags r ↔ th = PyNone) ∧
  ("flag_non_numeric_thetaE" ∈ flags r ↔ th = PyNonNumeric) ∧
  ("flag_nan_thetaE" ∈ flags r ↔ ∃ v, th = PyNumber v ∧ _is_nan v = true) ∧
  ("flag_inf_thetaE" ∈ flags r ↔ ∃ v, th = PyNumber v ∧ _is_inf v = true) ∧
  ("flag_missing_zl" ∈ flags r ↔ zl = PyNone) ∧
  ("flag_non_numeric_zl" ∈ flags r ↔ zl = PyNonNumeric) ∧
  ("flag_nan_zl" ∈ flags r ↔ ∃ v, zl = PyNumber v ∧ _is_nan v = true) ∧
  ("flag_inf_zl" ∈ flags r ↔ ∃ v, zl = PyNumber v ∧ _is_inf v = true) ∧
  ("flag_missing_zs" ∈ flags r ↔ zs = PyNone ∧ require_zs = true) ∧
  ("flag_non_numeric_zs" ∈ flags r ↔ zs = PyNonNumeric) ∧
  ("flag_nan_zs" ∈ flags r ↔ ∃ v, zs = PyNumber v ∧ _is_nan v = true) ∧
  ("flag_inf_zs" ∈ flags r ↔ ∃ v, zs = PyNumber v ∧ _is_inf v = true).
Proof.
  intros r. subst r.
  split; [flag_iff|]. split; [flag_iff|]. split; [flag_iff|]. split; [flag_iff|].
  split; [flag_iff|]. split; [flag_iff|]. split; [flag_iff|]. split; [flag_iff|].
  split.
  { flag_names. split.
    - intros H. flag_cases H. subst. split; [reflexivity|].
      cbn in *. now rewrite orb_false_r in *.
    - intros [-> ->]. disj. }
  split; [flag_iff|]. split; [flag_iff|]. flag_iff.
Qed.

(** X2. Which inputs raise each of the four domain flags. *)
Theorem domain_flags th zl zs require_zs strict :
  let r := validate_lens_inputs th zl zs require_zs strict in
  ("flag_thetaE_nonpositive" ∈ flags r ↔
     ∃ t, th = PyNumber t ∧ _is_nan t = false ∧ _is_inf t = false ∧ (t <=? 0) = true) ∧
  ("flag_zl_negative" ∈ flags r ↔
     ∃ l, zl = PyNumber l ∧ _is_nan l = false ∧ _is_inf l = false ∧ (l <? 0) = true) ∧
  ("flag_zs_negative" ∈ flags r ↔
     ∃ s, zs = PyNumber s ∧ _is_nan s = false ∧ _is_inf s = false ∧ (s <? 0) = true) ∧
  ("flag_zs_le_zl" ∈ flags r ↔
     ∃ l s, zl = PyNumber l ∧ zs = PyNumber s ∧
       _is_nan l = false ∧ _is_inf l = false ∧ _is_nan s = false ∧ _is_inf s = false ∧
       (l <? s) = false).
Proof.
  intros r. subst r.
  repeat split; flag_names;
    try (intros H; flag_cases H; assumption);
    intros H; do 3 right; tauto.
Qed.

Lemma coercion_flag_sublist x name :
  (_to_float [] x name).1 `sublist_of`
    ["flag_missing_" +:+ name; "flag_non_numeric_" +:+ name;
     "flag_nan_" +:+ name; "flag_inf_" +:+ name].
Proof.
  unfold _to_float. destruct x as [|v|]; [| destruct (_is_nan v); [|destruct (_is_inf v)] |];
    cbn [fst app]; repeat constructor.
Qed.

Lemma flag_if_sublist c g : flag_if c g `sublist_of` [g].
Proof. destruct c; repeat constructor. Qed.

Lemma flag_slots_sublist th zl zs req : flag_slots th zl zs req `sublist_of` validator_flags.
Proof.
  unfold flag_slots.
  change validator_flags with
    (["flag_missing_" +:+ "thetaE"; "flag_non_numeric_" +:+ "thetaE";
      "flag_nan_" +:+ "thetaE"; "flag_inf_" +:+ "thetaE"] ++
     ["flag_missing_" +:+ "zl"; "flag_non_numeric_" +:+ "zl";
      "flag_nan_" +:+ "zl"; "flag_inf_" +:+ "zl"] ++
     ["flag_missing_" +:+ "zs"; "flag_non_numeric_" +:+ "zs";
      "flag_nan_" +:+ "zs"; "flag_inf_" +:+ "zs"] ++
     ["flag_thetaE_nonpositive"] ++ ["flag_zl_negative"] ++ ["flag_zs_negative"] ++
     ["flag_zs_le_zl"]).
  repeat apply sublist_app; try apply coercion_flag_sublist; try apply flag_if_sublist.
  destruct (_ || _); [apply coercion_flag_sublist|apply sublist_nil_l].
Qed.

(** X3. The flags come in a fixed order, each at most once, out of sixteen
    names. *)
Theorem flags_in_order th zl zs require_zs strict :
  let r := validate_lens_inputs th zl zs require_zs strict in
  flags r `sublist_of` validator_flags ∧
  NoDup (flags r) ∧
  (∀ f, f ∈ flags r → f ∈ validator_flags).
Proof.
  intros r. subst r. rewrite validate_flags.
  pose proof (flag_slots_sublist th zl zs require_zs) as Hsub.
  split; [exact Hsub|]. split.
  - eapply sublist_NoDup; [|exact Hsub]. apply (bool_decide_unpack _). vm_compute. exact I.
  - intros f Hf. revert Hf. apply elem_of_subseteq. now apply sublist_subseteq.
Qed.

Lemma flag_slots_nil th zl zs req :
  flag_slots th zl zs req = [] ↔
  (∃ t, th = PyNumber t ∧ _is_nan t = false ∧ _is_inf t = false ∧ (t <=? 0) = false) ∧
  (∃ l, zl = PyNumber l ∧ _is_nan l = false ∧ _is_inf l = false ∧ (l <? 0) = false ∧
     match zs with
     | PyNone => req = false
     | PyNonNumeric => False
     | PyNumber s => _is_nan s = false ∧ _is_inf s = false ∧ (s <? 0) = false ∧ (l <? s) = true
     end).
Proof.
  unfold flag_slots, _to_float, coerced.
  destruct th as [|t|];
    [| destruct (_is_nan t) eqn:?; [|destruct (_is_inf t) eqn:?] |];
    cbn [fst app present_and flag_if];
    try (split; [done|intros [(t' & [= <-] & ? & ? & ?) _]; congruence]);
    try (split; [done|intros [(t' & ? & _) _]; done]).
  destruct zl as [|l|];
    [| destruct (_is_nan l) eqn:?; [|destruct (_is_inf l) eqn:?] |];
    cbn [fst app present_and flag_if];
    try (split; [done|intros [_ (l' & [= <-] & ? & ? & ?)]; congruence]);
    try (split; [done|intros [_ (l' & ? & _)]; done]).
  destruct zs as [|s|];
    [| destruct (_is_nan s) eqn:?; [|destruct (_is_inf s) eqn:?] |];
    cbn [fst app present_and flag_if orb is_not_None]; rewrite ?orb_true_r;
    cbn [fst app present_and flag_if orb is_not_None].
  - destruct req; cbn [orb app];
      destruct (t <=? 0) eqn:?, (l <? 0) eqn:?; cbn [flag_if app];
      (split; [first [done | intros _; split; [exists t; done|exists l; done]]
              |intros [(t' & [= <-] & ? & ? & ?) (l' & [= <-] & ? & ? & ? & ?)];
               first [reflexivity | congruence]]).
  - split; [done|]. intros [_ (l' & [= <-] & ? & ? & ? & ? & _)]; congruence.
  - split; [done|]. intros [_ (l' & [= <-] & ? & ? & ? & _ & ? & _)]; congruence.
  - destruct (t <=? 0) eqn:?, (l <? 0) eqn:?, (s <? 0) eqn:?, (l <? s) eqn:?;
      cbn [flag_if app negb];
      (split; [first [done | intros _; split; [exists t; done|exists l; done]]
              |intros [(t' & [= <-] & ? & ? & ?) (l' & [= <-] & ? & ? & ? & ? & ? & ? & ?)];
               first [reflexivity | congruence]]).
  - split; [done|]. intros [_ (l' & ? & ? & ? & ? & [])].
Qed.

Lemma finite_not_le_0 t :
  _is_nan t = false → _is_inf t = false → (t <=? 0) = false ↔ (0 <? t) = true.
Proof.
  rewrite _is_nan_sf, _is_inf_sf, leb_0_sf, gtb_0_sf.
  now destruct (Prim2SF t) as [[]|[]| |[] m e].
Qed.

Lemma finite_not_lt_0 l :
  _is_nan l = false → _is_inf l = false → (l <? 0) = false ↔ (0 <=? l) = true.
Proof.
  rewrite _is_nan_sf, _is_inf_sf, ltb_0_sf, geb_0_sf.
  now destruct (Prim2SF l) as [[]|[]| |[] m e].
Qed.

Lemma ltb_above_nonneg l s : (l <? 0) = false → (l <? s) = true → (s <? 0) = false.
Proof.
  rewrite !ltb_0_sf, ltb_spec.
  now destruct (Prim2SF l) as [[]|[]| |[] m1 e1], (Prim2SF s) as [[]|[]| |[] m2 e2].
Qed.

(** X4. Strict validation with a required [z_s] passes exactly on three finite
    numbers with [theta_E > 0] and [0 <= z_l < z_s]; the result then has no
    flag and [normalized] holds the three numbers. *)
Theorem strict_validation th zl zs :
  let r := validate_lens_inputs th zl zs true true in
  (is_valid r = true ↔
     ∃ t l s,
       th = PyNumber t ∧ zl = PyNumber l ∧ zs = PyNumber s ∧
       (_is_nan t = false ∧ _is_inf t = false) ∧
       (_is_nan l = false ∧ _is_inf l = false) ∧
       (_is_nan s = false ∧ _is_inf s = false) ∧
       (0 <? t) = true ∧ (0 <=? l) = true ∧ (l <? s) = true) ∧
  (∀ t l s,
     th = PyNumber t → zl = PyNumber l → zs = PyNumber s → is_valid r = true →
     flags r = [] ∧
     normalized r =
       <["z_s" := Some s]> (<["z_l" := Some l]> (<["theta_E_arcsec" := Some t]> ∅))).
Proof.
  intros r. subst r. rewrite validate_unfold. cbv zeta. cbn [is_valid flags normalized].
  split.
  - rewrite bool_decide_eq_true, flag_slots_nil. split.
    + intros [(t & -> & Nt & It & Ht) (l & -> & Nl & Il & Hl & Hs)].
      destruct zs as [|s|]; [done| |done]. destruct Hs as (Ns & Is & Hs & Hls).
      exists t, l, s. repeat (split; [done|]).
      split; [now apply finite_not_le_0|]. split; [now apply finite_not_lt_0|done].
    + intros (t & l & s & -> & -> & -> & [Nt It] & [Nl Il] & [Ns Is] & Ht & Hl & Hls).
      apply finite_not_le_0 in Ht; [|done..]. apply finite_not_lt_0 in Hl; [|done..].
      split; [exists t; done|]. exists l. repeat (split; [done|]).
      split; [now apply (ltb_above_nonneg l s)|done].
  - intros t l s -> -> -> Hv. apply bool_decide_eq_true in Hv. rewrite Hv.
    apply flag_slots_nil in Hv
      as [(t' & [= <-] & Nt & It & _) (l' & [= <-] & Nl & Il & _ & Ns & Is & _)].
    split; [reflexivity|]. rewrite bool_decide_eq_true_2 by done.
    unfold coerced. now rewrite Nt, It, Nl, Il, Ns, Is.
Qed.

(** X5. [require_zs] matters for a missing [z_s] only: with a [z_s] that is not
    [None] the two settings give the same result. *)
Theorem require_zs_only_for_missing th zl strict :
  (∀ v, validate_lens_inputs th zl (PyNumber v) true strict
        = validate_lens_inputs th zl (PyNumber v) false strict) ∧
  validate_lens_inputs th zl PyNonNumeric true strict
    = validate_lens_inputs th zl PyNonNumeric false strict.
Proof. split; [intros v|]; now rewrite !validate_unfold. Qed.

(** X6. A missing [z_s]: when it is required it adds the flag
    ["flag_missing_zs"] to those of the other two fields and strict
    validation fails; when it is optional it raises nothing, [normalized] has
    no key ["z_s"], and strict validation passes exactly on a finite
    [theta_E > 0] and a finite [z_l >= 0]. *)
Theorem missing_zs th zl strict :
  let required := validate_lens_inputs th zl PyNone true strict in
  let optional := validate_lens_inputs th zl PyNone false strict in
  flags required ≡ₚ "flag_missing_zs" :: flags optional ∧
  ("flag_missing_zs" ∉ flags optional) ∧
  (strict = true → is_valid required = false) ∧
  normalized optional !! "z_s" = None ∧
  (is_valid (validate_lens_inputs th zl PyNone false true) = true ↔
     ∃ t l,
       th = PyNumber t ∧ zl = PyNumber l ∧
       (_is_nan t = false ∧ _is_inf t = false) ∧
       (_is_nan l = false ∧ _is_inf l = false) ∧
       (0 <? t) = true ∧ (0 <=? l) = true).
Proof.
  intros required optional. subst required optional.
  split; [|split; [|split; [|split]]].
  - rewrite !validate_flags. unfold flag_slots.
    cbn [orb is_not_None coerced present_and flag_if fst _to_float app].
    rewrite !app_nil_r, !app_assoc.
    set (A := (_to_float [] th "thetaE").1 ++ (_to_float [] zl "zl").1).
    rewrite <- !app_assoc. symmetry. apply Permutation_middle.
  - intros Hin. revert Hin. flag_names. intros Hin. flag_cases Hin. discriminate.
  - intros ->. rewrite validate_unfold. cbv zeta. cbn [is_valid].
    apply bool_decide_eq_false. rewrite flag_slots_nil.
    intros [_ (l & _ & _ & _ & _ & ?)]. done.
  - rewrite validate_unfold. cbv zeta. cbn [normalized coerced].
    destruct (if strict then _ else _); [|done].
    now rewrite !lookup_insert_ne by done.
  - rewrite validate_unfold. cbv zeta. cbn [is_valid].
    rewrite bool_decide_eq_true, flag_slots_nil. split.
    + intros [(t & -> & Nt & It & Ht) (l & -> & Nl & Il & Hl & _)].
      exists t, l. repeat (split; [done|]).
      split; [now apply finite_not_le_0|now apply finite_not_lt_0].
    + intros (t & l & -> & -> & [Nt It] & [Nl Il] & Ht & Hl).
      apply finite_not_le_0 in Ht; [|done..]. apply finite_not_lt_0 in Hl; [|done..].
      split; [exists t; done|]. exists l. done.
Qed.

(** X7. What a valid result has normalized: the float of each field, [None]
    for a field that failed coercion (in non-strict mode), and a key
    ["z_s"] only for a [z_s] that was coerced.  An invalid result has
    normalized nothing. *)
Theorem normalized_fields th zl zs require_zs strict :
  let r := validate_lens_inputs th zl zs require_zs strict in
  if is_valid r then
    normalized r !! "theta_E_arcsec" = Some (coerced th) ∧
    normalized r !! "z_l" = Some (coerced zl) ∧
    normalized r !! "z_s" =
      match coerced zs with Some s => Some (Some s) | None => None end ∧
    ∀ k, k ≠ "theta_E_arcsec" → k ≠ "z_l" → k ≠ "z_s" → normalized r !! k = None
  else normalized r = ∅.
Proof.
  intros r. subst r. rewrite validate_unfold. cbv zeta. cbn [is_valid normalized].
  destruct (if strict then _ else _); [|reflexivity].
  destruct (coerced zs) as [s|];
    (split; [|split; [|split]]; [now simplify_map_eq..|]);
    intros k H1 H2 H3; rewrite !lookup_insert_ne by congruence; apply lookup_empty.
Qed.

End ValidateProps.

(** ** The cosmology engine: edge cases of the distances *)

Module CosmologyProps.
Import Cosmology Spec Derived SignFacts.
#[local] Open Scope float_scope.

Lemma sub_0_r_num a : sub a (PyFloat 0) = a.
Proof. destruct a as [x|x]; cbn; now rewrite sub_0_r. Qed.

Section Engine.
Variable np : option numpy.
Variable float_pow : float → Z → result float.
Variable self : FlatLambdaCDM.

Abbreviation comoving_distance := (comoving_distance np float_pow self).
Abbreviation angular_diameter_distance := (angular_diameter_distance np float_pow self).
Abbreviation angular_diameter_distance_z1z2 := (angular_diameter_distance_z1z2 np float_pow self).
Abbreviation sigma_crit := (sigma_crit np float_pow self).

(** Where no integration is attempted: a redshift that is neither negative
    nor positive (a zero or a NaN). *)
Lemma comoving_distance_no_integral z :
  (z <? 0) = false → (0 <? z) = false →
  comoving_distance z = pref ← truediv C_LIGHT (H0_SI self); Ok (PyFloat (pref * 0)).
Proof.
  intros H1 H2. unfold Cosmology.comoving_distance. rewrite H1, H2. rsimpl.
  now destruct (truediv C_LIGHT (H0_SI self)).
Qed.

(** X8. The distance between the observer and [z2] is the distance of [z2]:
    for [z1] a zero, and for [z1] a NaN as well, which is treated as a zero. *)
Theorem distance_from_the_observer z1 z2 pref :
  truediv C_LIGHT (H0_SI self) = Ok pref →
  (0 <? pref) = true → Sensitivity._is_finite pref = true →
  (z1 <? 0) = false → (0 <? z1) = false →
  (z2 <? 0) = false → (z2 <=? z1) = false →
  angular_diameter_distance_z1z2 z1 z2 = angular_diameter_distance z2.
Proof.
  intros Hpref Hpos Hfin H1 H1' H2 H21.
  unfold Cosmology.angular_diameter_distance_z1z2, Cosmology.angular_diameter_distance.
  rewrite H1, H2, H21. cbn [orb].
  rewrite (comoving_distance_no_integral z1 H1 H1'), Hpref. rsimpl.
  rewrite (mul_pos_0 pref Hpos Hfin).
  destruct (Cosmology.comoving_distance np float_pow self z2) as [Dc|]; [|reflexivity].
  rsimpl. now rewrite sub_0_r_num.
Qed.

(** X9. A NaN redshift: the comoving distance is zero, not NaN, since the test
    [z > 0] fails and no integration is attempted; the angular-diameter
    distance is NaN. *)
Theorem nan_redshift z pref :
  _is_nan z = true →
  truediv C_LIGHT (H0_SI self) = Ok pref → Sensitivity._is_finite pref = true →
  comoving_distance z = Ok (PyFloat (pref * 0)) ∧ (pref * 0 =? 0) = true ∧
  angular_diameter_distance z = Ok (PyFloat nan).
Proof.
  intros Hz Hpref Hfin.
  destruct (nan_not_lt z 0 Hz) as (H1 & H2 & _).
  pose proof (comoving_distance_no_integral z H1 H2) as Hc. rewrite Hpref in Hc.
  split; [exact Hc|]. split; [now apply mul_0_r_finite|].
  unfold Cosmology.angular_diameter_distance. rewrite H1, Hc. rsimpl.
  cbn [div]. unfold truediv.
  pose proof (add_nan_r 1 z Hz) as Hn.
  rewrite (is_nan_eq _ Hn). change (nan =? 0) with false. rsimpl.
  f_equal. f_equal. apply is_nan_eq. now apply is_nan_div_r.
Qed.

(** X10. A subinterval count that is not positive is accepted by the
    constructor, and rejected by the integration: every positive redshift
    raises. *)
Theorem nonpositive_n_int z :
  (n_int self ≤ 0)%Z → (0 <? z) = true →
  comoving_distance z =
    Raise (ValueError "Simpson integration requires positive even n.") ∧
  angular_diameter_distance z =
    Raise (ValueError "Simpson integration requires positive even n.") ∧
  ∀ z_s, (z <? z_s) = true →
    sigma_crit z z_s =
      Raise (ValueError "Simpson integration requires positive even n.").
Proof.
  intros Hn Hz.
  assert ((z <? 0) = false) as Hlt.
  { rewrite ltb_0_sf. rewrite gtb_0_sf in Hz.
    now destruct (Prim2SF z) as [[]|[]| |[] m e]. }
  assert (comoving_distance z =
            Raise (ValueError "Simpson integration requires positive even n.")) as Hc.
  { unfold Cosmology.comoving_distance, _simpson_integrate. rewrite Hlt, Hz.
    destruct (Z.leb_spec (n_int self) 0); [reflexivity|lia]. }
  assert (angular_diameter_distance z =
            Raise (ValueError "Simpson integration requires positive even n.")) as Ha.
  { unfold Cosmology.angular_diameter_distance. now rewrite Hlt, Hc. }
  split; [exact Hc|]. split; [exact Ha|].
  intros z_s Hs. unfold Cosmology.sigma_crit.
  now rewrite (ltb_leb_antisym _ _ Hs), Ha.
Qed.

(** X11. With a Hubble constant of zero no distance is returned: the division
    [C_LIGHT / H0_SI] raises once the integral has been computed. *)
Theorem zero_hubble_constant :
  (H0_SI self =? 0) = true →
  (∀ z, returns (comoving_distance z) = false) ∧
  (∀ z, returns (angular_diameter_distance z) = false) ∧
  (∀ z, (z <? 0) = false → (0 <? z) = false →
     comoving_distance z = Raise ZeroDivisionError) ∧
  (∀ z_l z_s, returns (sigma_crit z_l z_s) = (z_s <=? z_l)).
Proof.
  intros H0.
  assert (∀ z, returns (comoving_distance z) = false) as Hc.
  { intros z. unfold Cosmology.comoving_distance, truediv. rewrite H0.
    destruct (z <? 0); [reflexivity|].
    now destruct (if 0 <? z then _ else _). }
  assert (∀ z, returns (angular_diameter_distance z) = false) as Ha.
  { intros z. unfold Cosmology.angular_diameter_distance.
    destruct (z <? 0); [reflexivity|]. specialize (Hc z).
    now destruct (Cosmology.comoving_distance np float_pow self z). }
  split; [exact Hc|]. split; [exact Ha|]. split.
  - intros z H1 H2. rewrite comoving_distance_no_integral by done.
    unfold truediv. now rewrite H0.
  - intros z_l z_s. unfold Cosmology.sigma_crit.
    destruct (z_s <=? z_l); [reflexivity|]. specialize (Ha z_l).
    now destruct (Cosmology.angular_diameter_distance np float_pow self z_l).
Qed.

(** X12. The critical surface density is never negative: what [sigma_crit]
    returns is NaN, zero, a positive number or [+inf]. *)
Theorem sigma_crit_never_negative z_l z_s Sigma :
  (∀ c2, float_pow C_LIGHT 2 = Ok c2 → (0 <? c2) = true) →
  sigma_crit z_l z_s = Ok Sigma →
  (val Sigma <? 0) = false.
Proof.
  intros Hc2. unfold Cosmology.sigma_crit.
  destruct (z_s <=? z_l); [now intros [= <-]|].
  destruct (Cosmology.angular_diameter_distance np float_pow self z_l) as [D_l|]; [|done].
  destruct (Cosmology.angular_diameter_distance np float_pow self z_s) as [D_s|]; [|done].
  destruct (Cosmology.angular_diameter_distance_z1z2 np float_pow self z_l z_s)
    as [D_ls|]; [|done].
  rsimpl. fold (degenerate D_l D_s D_ls).
  destruct (degenerate D_l D_s D_ls) eqn:Hdeg; [now intros [= <-]|].
  apply degenerate_false in Hdeg as (Hl & Hs & Hls).
  specialize (Hc2).
  destruct (float_pow C_LIGHT 2) as [c2|]; [|done]. rsimpl.
  specialize (Hc2 c2 eq_refl).
  rewrite truediv_ok by reflexivity. rsimpl.
  destruct (div D_s (mul D_l D_ls)) as [q|] eqn:Hq; [|done]. rsimpl.
  intros H.
  match type of H with Ok ?x = Ok Sigma => assert (Sigma = x) as -> by congruence end.
  clear H. apply div_val in Hq. unfold mul in Hq. rewrite !val_arith in Hq.
  assert (∀ p, val (mul (PyFloat p) q) = p * (val D_s / (val D_l * val D_ls))) as ->.
  { intros p. unfold mul. now rewrite val_arith, Hq. }
  apply sign_clear_not_neg.
  match goal with |- context [c2 / ?K] =>
    assert (sign_clear (c2 / K) = true ∨ _is_nan (c2 / K) = true) as [Hp|Hp]
  end.
  { apply sign_clear_div; [now apply sign_clear_pos|reflexivity]. }
  2:{ right. now apply is_nan_mul_l. }
  destruct (sign_clear_mul _ _ (sign_clear_pos _ Hl) (sign_clear_pos _ Hls)) as [Hd|Hd].
  2:{ right. apply mul_nan_r. now apply is_nan_div_r. }
  destruct (sign_clear_div _ _ (sign_clear_pos _ Hs) Hd) as [Hq'|Hq'].
  - now apply sign_clear_mul.
  - right. now apply mul_nan_r.
Qed.
End Engine.

End CosmologyProps.

(** ** The sensitivity kernel: exits, flags and exceptions *)

Module SensitivityProps.
Import Validate Sensitivity Spec Derived SignFacts ValidateProps CosmologyProps.
#[local] Open Scope float_scope.

Section Kernel.
Variable float_pow : float → Z → result float.
Variable np_float64_pow : float → Z → float.
Variable math_log : float → result float.

Abbreviation compute_sensitivity :=
  (Sensitivity.compute_sensitivity float_pow np_float64_pow math_log).
Abbreviation pow := (Sensitivity.pow float_pow np_float64_pow).
Abbreviation kernel := (Derived.kernel float_pow np_float64_pow math_log).

Lemma compute_sensitivity_invalid th zl zs cosmo h dz :
  Validate.is_valid (validate_lens_inputs th zl zs true true) = false →
  compute_sensitivity th zl zs cosmo h dz =
    Ok (set_flags (Validate.flags (validate_lens_inputs th zl zs true true))
          (out_init th zl zs)).
Proof.
  intros Hv. unfold Sensitivity.compute_sensitivity. cbv zeta. now rewrite Hv.
Qed.

Lemma compute_sensitivity_valid th zl zs cosmo h dz :
  Validate.is_valid (validate_lens_inputs th zl zs true true) = true →
  ∃ t l s,
    th = PyNumber t ∧ zl = PyNumber l ∧ zs = PyNumber s ∧
    _is_finite t = true ∧
    compute_sensitivity th zl zs cosmo h dz =
      match h with
      | Some hv => if hv <=? 0 then Ok (set_flags ["flag_invalid_h"] (out_init th zl zs))
                   else kernel cosmo t l s hv dz
      | None => Ok (set_flags ["flag_invalid_h"] (out_init th zl zs))
      end.
Proof.
  intros Hv. unfold Sensitivity.compute_sensitivity. cbv zeta. rewrite Hv. cbn [negb].
  apply validate_strict_inv in Hv
    as (t & l & s & -> & -> & -> & Ft & Fl & Fs & Ht & Hl & Hs & Hls & ->).
  exists t, l, s. repeat (split; [done|]).
  cbn [normalized]. destruct (getitem_normalized t l s) as (-> & -> & ->).
  rsimpl. cbn [as_float].
  destruct h as [hv|]; [|reflexivity].
  destruct (hv <=? 0) eqn:Hh; [reflexivity|].
  cbn [default from_option id]. rsimpl. unfold Derived.kernel.
  destruct (angular_diameter_distance cosmo l) as [D_l|] eqn:HDl; [|done]. rsimpl.
  destruct (sigma_crit cosmo l s) as [Sigma|] eqn:HSig; [|done]. rsimpl.
  rewrite !finite_positive_check. cbv zeta.
  destruct (finite_positive D_l); cbn [negb]; [|reflexivity].
  destruct (finite_positive Sigma); cbn [negb]; [|reflexivity].
  destruct (Sensitivity.pow _ _ _ 2) as [R2|] eqn:HR2; [|done]. rsimpl.
  rewrite finite_positive_check.
  destruct (finite_positive (mul (mul (PyFloat math_pi) R2) Sigma)); cbn [negb];
    [|reflexivity].
  lazymatch goal with |- mbind _ ?m = _ =>
    change m with (finite_difference math_log cosmo l s hv) end.
  destruct (finite_difference math_log cosmo l s hv) as [[[Sv fl]|flag]|]; reflexivity.
Qed.

(** What the finite-difference block can answer. *)
Lemma finite_difference_cases cosmo l s hv sf :
  finite_difference math_log cosmo l s hv = Ok sf →
  match sf with
  | inl (_, fl) => fl = [] ∨ fl = ["flag_used_forward_diff"] ∨ fl = ["flag_used_backward_diff"]
  | inr flag => flag = "flag_nonfinite_lnSigma_at_zs" ∨ flag = "flag_nonfinite_S"
  end.
Proof.
  unfold finite_difference. cbv zeta.
  destruct (ln_sigma math_log cosmo l (s + hv)) as [lp|]; [|done]. rsimpl.
  destruct (ln_sigma math_log cosmo l (s - hv)) as [lm|]; [|done]. rsimpl.
  destruct (_is_finite lp && _is_finite lm).
  { destruct (truediv _ _); [|done]. rsimpl. intros [= <-]. now left. }
  destruct (ln_sigma math_log cosmo l s) as [l0|]; [|done]. rsimpl.
  destruct (negb (_is_finite l0)); [intros [= <-]; now left|].
  destruct (_is_finite lp).
  { destruct (truediv _ _); [|done]. rsimpl. intros [= <-]. right. now left. }
  destruct (_is_finite lm).
  { destruct (truediv _ _); [|done]. rsimpl. intros [= <-]. right. now right. }
  intros [= <-]. now right.
Qed.

(** A result of the kernel: valid with the flags of the difference used, or
    invalid with the one flag of the stage that failed. *)
Lemma kernel_cases cosmo t l s hv dz r :
  kernel cosmo t l s hv dz = Ok r →
  (is_valid r = true ∧
   (flags r = [] ∨ flags r = ["flag_used_forward_diff"] ∨
    flags r = ["flag_used_backward_diff"])) ∨
  (is_valid r = false ∧ ∃ f, flags r = [f] ∧ f ∈ kernel_flags).
Proof.
  unfold Derived.kernel.
  destruct (angular_diameter_distance cosmo l) as [D_l|]; [|done]. rsimpl.
  destruct (sigma_crit cosmo l s) as [Sigma|]; [|done]. rsimpl. cbv zeta.
  destruct (negb (finite_positive D_l)).
  { intros [= <-]. right. split; [done|]. eexists. split; [reflexivity|].
    apply (bool_decide_unpack _). vm_compute. exact I. }
  destruct (negb (finite_positive Sigma)).
  { intros [= <-]. right. split; [done|]. eexists. split; [reflexivity|].
    apply (bool_decide_unpack _). vm_compute. exact I. }
  destruct (Sensitivity.pow _ _ _ 2) as [R2|]; [|done]. rsimpl.
  destruct (negb (finite_positive _)).
  { intros [= <-]. right. split; [done|]. eexists. split; [reflexivity|].
    apply (bool_decide_unpack _). vm_compute. exact I. }
  destruct (finite_difference math_log cosmo l s hv) as [sf|] eqn:Hfd; [|done]. rsimpl.
  apply finite_difference_cases in Hfd. destruct sf as [[Sv fl]|flag].
  - destruct (negb (_is_finite Sv)).
    + intros [= <-]. right. split; [done|]. eexists. split; [reflexivity|].
      apply (bool_decide_unpack _). vm_compute. exact I.
    + intros [= <-]. left. split; [done|]. exact Hfd.
  - intros [= <-]. right. split; [done|]. exists flag. split; [reflexivity|].
    destruct Hfd as [-> | ->]; apply (bool_decide_unpack _); vm_compute; exact I.
Qed.

(** X13. The flags of a result tell whether it is valid: a valid result has no
    flag or the single flag of the one-sided difference it used; an invalid
    one has the flags of the raw validation (at least one, out of its
    sixteen), or exactly one flag of the kernel. *)
Theorem flags_tell_validity theta_E_arcsec z_l z_s cosmo h delta_z r :
  compute_sensitivity theta_E_arcsec z_l z_s cosmo h delta_z = Ok r →
  (is_valid r = true ↔
     flags r = [] ∨ flags r = ["flag_used_forward_diff"] ∨
     flags r = ["flag_used_backward_diff"]) ∧
  (is_valid r = false →
     (flags r ≠ [] ∧
      flags r = Validate.flags (validate_lens_inputs theta_E_arcsec z_l z_s true true)) ∨
     (∃ f, flags r = [f] ∧ f ∈ kernel_flags)).
Proof.
  intros Hr.
  destruct (Validate.is_valid (validate_lens_inputs theta_E_arcsec z_l z_s true true))
    eqn:Hv.
  - destruct (compute_sensitivity_valid _ _ _ cosmo h delta_z Hv) as (t & l & s & -> & -> & -> & _ & Heq).
    rewrite Heq in Hr. clear Heq.
    assert ((is_valid r = true ∧
             (flags r = [] ∨ flags r = ["flag_used_forward_diff"] ∨
              flags r = ["flag_used_backward_diff"])) ∨
            (is_valid r = false ∧ ∃ f, flags r = [f] ∧ f ∈ kernel_flags)) as Hc.
    { destruct h as [hv|].
      - destruct (hv <=? 0); [|now apply kernel_cases in Hr].
        injection Hr as <-. right. split; [done|]. eexists. split; [reflexivity|].
        apply (bool_decide_unpack _). vm_compute. exact I.
      - injection Hr as <-. right. split; [done|]. eexists. split; [reflexivity|].
        apply (bool_decide_unpack _). vm_compute. exact I. }
    destruct Hc as [[Hvr Hf]|[Hvr (f & Hf & Hin)]].
    + split; [done|]. congruence.
    + split; [|intros _; right; eauto]. split; [congruence|].
      intros Hd. exfalso. rewrite Hf in Hd.
      destruct Hd as [?|[[= ->]|[= ->]]]; [done|..];
        apply (bool_decide_pack _) in Hin; vm_compute in Hin; destruct Hin.
  - rewrite (compute_sensitivity_invalid _ _ _ cosmo h delta_z Hv) in Hr.
    injection Hr as <-. cbn [is_valid flags set_flags out_init].
    assert (Validate.flags (validate_lens_inputs theta_E_arcsec z_l z_s true true) ≠ [])
      as Hne.
    { rewrite validate_unfold in Hv |- *. cbv zeta in *. cbn [Validate.is_valid Validate.flags] in *.
      now apply bool_decide_eq_false in Hv. }
    split; [|intros _; left; done]. split; [done|].
    intros Hf. exfalso.
    pose proof (flag_slots_sublist theta_E_arcsec z_l z_s true) as Hsub.
    rewrite <- (validate_flags _ _ _ _ true) in Hsub.
    destruct Hf as [Hf|[Hf|Hf]]; [done| |]; rewrite Hf in Hsub;
      apply sublist_subseteq in Hsub;
      match type of Hsub with [?f] ⊆ _ =>
        specialize (Hsub f ltac:(apply list_elem_of_singleton; reflexivity)) end;
      apply (bool_decide_pack _) in Hsub; vm_compute in Hsub; destruct Hsub.
Qed.

(** X14. Inputs that fail the raw validation, or a step that is [None] or not
    positive, are answered before the cosmology is used: whatever [cosmo]
    is, the call returns an invalid result with the flags of the validator,
    or with ["flag_invalid_h"], every numeric output NaN and the inputs as
    given. *)
Theorem rejected_before_cosmology theta_E_arcsec z_l z_s cosmo h delta_z :
  let v := validate_lens_inputs theta_E_arcsec z_l z_s true true in
  (Validate.is_valid v = false →
     Validate.flags v ≠ [] ∧
     compute_sensitivity theta_E_arcsec z_l z_s cosmo h delta_z =
       Ok (set_flags (Validate.flags v) (out_init theta_E_arcsec z_l z_s))) ∧
  (Validate.is_valid v = true →
     h = None ∨ (∃ hv, h = Some hv ∧ (hv <=? 0) = true) →
     compute_sensitivity theta_E_arcsec z_l z_s cosmo h delta_z =
       Ok (set_flags ["flag_invalid_h"] (out_init theta_E_arcsec z_l z_s))).
Proof.
  intros v. subst v. split.
  - intros Hv. split.
    + rewrite validate_unfold in Hv |- *. cbv zeta in *.
      cbn [Validate.is_valid Validate.flags] in *. now apply bool_decide_eq_false in Hv.
    + now apply compute_sensitivity_invalid.
  - intros Hv Hh.
    destruct (compute_sensitivity_valid _ _ _ cosmo h delta_z Hv) as (t & l & s & -> & -> & -> & _ & ->).
    destruct Hh as [-> | (hv & -> & ->)]; reflexivity.
Qed.

(** X15. Source and lens redshifts in the wrong order (finite, [z_s <= z_l])
    are rejected whatever else is passed: the call returns an invalid result
    that carries ["flag_zs_le_zl"], and the cosmology is not used. *)
Theorem reversed_redshifts_rejected theta_E_arcsec l s cosmo h delta_z :
  _is_nan l = false ∧ _is_inf l = false →
  _is_nan s = false ∧ _is_inf s = false →
  (l <? s) = false →
  ∃ r,
    compute_sensitivity theta_E_arcsec (PyNumber l) (PyNumber s) cosmo h delta_z = Ok r ∧
    is_valid r = false ∧ "flag_zs_le_zl" ∈ flags r ∧
    D_l_m r = PyFloat nan ∧ Sigma_crit_kg_m2 r = PyFloat nan ∧
    S_dlnM_dzs r = PyFloat nan.
Proof.
  intros [Nl Il] [Ns Is] Hls.
  assert ("flag_zs_le_zl" ∈
            Validate.flags (validate_lens_inputs theta_E_arcsec (PyNumber l) (PyNumber s)
                              true true)) as Hin.
  { apply elem_of_validate_flags. do 6 right. split; [reflexivity|].
    exists l, s. now repeat split. }
  assert (Validate.is_valid
            (validate_lens_inputs theta_E_arcsec (PyNumber l) (PyNumber s) true true)
          = false) as Hv.
  { rewrite validate_unfold in Hin |- *. cbv zeta in *.
    cbn [Validate.is_valid Validate.flags] in *.
    apply bool_decide_eq_false. intros E. rewrite E in Hin. now apply elem_of_nil in Hin. }
  eexists. split; [now apply compute_sensitivity_invalid|].
  now repeat split.
Qed.

Lemma ln_sigma_returns cosmo l z :
  returns (sigma_crit cosmo l z) = true →
  (∀ x, _is_finite x = true → (0 <? x) = true → returns (math_log x) = true) →
  returns (ln_sigma math_log cosmo l z) = true.
Proof.
  intros Hs Hlog. unfold ln_sigma.
  destruct (sigma_crit cosmo l z) as [sg|]; [|done]. rsimpl.
  rewrite finite_positive_check. destruct (finite_positive sg) eqn:Hp; [|done].
  cbn [negb]. apply andb_prop in Hp as [? ?]. now apply Hlog.
Qed.

Lemma finite_difference_returns cosmo l s hv :
  (hv <=? 0) = false →
  returns (sigma_crit cosmo l s) = true →
  returns (sigma_crit cosmo l (s + hv)) = true →
  returns (sigma_crit cosmo l (s - hv)) = true →
  (∀ x, _is_finite x = true → (0 <? x) = true → returns (math_log x) = true) →
  returns (finite_difference math_log cosmo l s hv) = true.
Proof.
  intros Hh Hs0 Hsp Hsm Hlog.
  pose proof (ln_sigma_returns cosmo l (s + hv) Hsp Hlog) as Hp.
  pose proof (ln_sigma_returns cosmo l (s - hv) Hsm Hlog) as Hm.
  pose proof (ln_sigma_returns cosmo l s Hs0 Hlog) as H0.
  unfold finite_difference. cbv zeta.
  destruct (ln_sigma math_log cosmo l (s + hv)) as [lp|]; [|done]. rsimpl.
  destruct (ln_sigma math_log cosmo l (s - hv)) as [lm|]; [|done]. rsimpl.
  destruct (ln_sigma math_log cosmo l s) as [l0|]; [|done]. rsimpl.
  rewrite !truediv_ok by (now apply mul_2_pos || now apply leb_0_false_neq). rsimpl.
  destruct (_is_finite lp), (_is_finite lm), (_is_finite l0); reflexivity.
Qed.

(** X16. For a step [h] that is [None] or a float and a float [delta_z],
    the kernel raises only what its callees raise: if
    [cosmo.angular_diameter_distance] returns on the lens redshift,
    [cosmo.sigma_crit] returns at [z_s], [z_s + h] and [z_s - h], the square
    [R ** 2] returns, and [math.log] returns on finite positive numbers,
    then the call returns.  No key is missing from [normalized], no quotient
    has a zero divisor, and [math.log] is never applied outside its domain. *)
Theorem compute_sensitivity_returns theta_E_arcsec z_l z_s cosmo h delta_z :
  (∀ l, z_l = PyNumber l → returns (angular_diameter_distance cosmo l) = true) →
  (∀ l s hv z, z_l = PyNumber l → z_s = PyNumber s → h = Some hv →
     z = s ∨ z = s + hv ∨ z = s - hv →
     returns (sigma_crit cosmo l z) = true) →
  (∀ t l D, theta_E_arcsec = PyNumber t → z_l = PyNumber l →
     angular_diameter_distance cosmo l = Ok D →
     returns (pow (mul D (PyFloat (t * ARCSEC_TO_RAD))) 2) = true) →
  (∀ x, _is_finite x = true → (0 <? x) = true → returns (math_log x) = true) →
  returns (compute_sensitivity theta_E_arcsec z_l z_s cosmo h delta_z) = true.
Proof.
  intros HD HS HP Hlog.
  destruct (Validate.is_valid (validate_lens_inputs theta_E_arcsec z_l z_s true true))
    eqn:Hv; [|now rewrite compute_sensitivity_invalid].
  destruct (compute_sensitivity_valid _ _ _ cosmo h delta_z Hv) as (t & l & s & -> & -> & -> & _ & ->).
  destruct h as [hv|]; [|reflexivity].
  destruct (hv <=? 0) eqn:Hh; [reflexivity|].
  unfold Derived.kernel.
  specialize (HD l eq_refl). specialize (HP t l).
  specialize (HS l s hv).
  destruct (angular_diameter_distance cosmo l) as [D_l|]; [|done]. rsimpl.
  pose proof (HS s eq_refl eq_refl eq_refl ltac:(now left)) as HSs.
  destruct (sigma_crit cosmo l s) as [Sigma|] eqn:HSig; [|done]. rsimpl. cbv zeta.
  destruct (negb (finite_positive D_l)); [reflexivity|].
  destruct (negb (finite_positive Sigma)); [reflexivity|].
  specialize (HP D_l eq_refl eq_refl eq_refl).
  destruct (Sensitivity.pow _ _ _ 2) as [R2|]; [|done]. rsimpl.
  destruct (negb (finite_positive _)); [reflexivity|].
  pose proof (finite_difference_returns cosmo l s hv Hh ltac:(now rewrite HSig)
                (HS _ eq_refl eq_refl eq_refl ltac:(right; now left))
                (HS _ eq_refl eq_refl eq_refl ltac:(right; now right)) Hlog) as Hfd.
  destruct (finite_difference math_log cosmo l s hv) as [[[Sv fl]|flag]|]; [| |done]; rsimpl.
  - now destruct (negb (_is_finite Sv)).
  - reflexivity.
Qed.

(** X17. A valid result holds the quantities of the docstring: the radius in
    radians, the distance and the surface density the cosmology returned,
    and the mass [pi * (D_l * theta) ** 2 * Sigma]. *)
Theorem valid_result_fields theta_E_arcsec z_l z_s cosmo h delta_z r :
  compute_sensitivity theta_E_arcsec z_l z_s cosmo h delta_z = Ok r →
  is_valid r = true →
  ∃ t l s D_l Sigma R2,
    theta_E_arcsec = PyNumber t ∧ z_l = PyNumber l ∧ z_s = PyNumber s ∧
    theta_E_rad r = PyFloat (t * ARCSEC_TO_RAD) ∧
    angular_diameter_distance cosmo l = Ok D_l ∧ D_l_m r = D_l ∧
    sigma_crit cosmo l s = Ok Sigma ∧ Sigma_crit_kg_m2 r = Sigma ∧
    pow (mul D_l (PyFloat (t * ARCSEC_TO_RAD))) 2 = Ok R2 ∧
    M_inf_kg r = mul (mul (PyFloat math_pi) R2) Sigma.
Proof.
  intros Hr Hvr.
  destruct (Validate.is_valid (validate_lens_inputs theta_E_arcsec z_l z_s true true))
    eqn:Hv.
  2:{ rewrite compute_sensitivity_invalid in Hr by done. now injection Hr as <-. }
  destruct (compute_sensitivity_valid _ _ _ cosmo h delta_z Hv) as (t & l & s & -> & -> & -> & _ & Heq).
  rewrite Heq in Hr. clear Heq.
  destruct h as [hv|]; [|now injection Hr as <-].
  destruct (hv <=? 0); [now injection Hr as <-|].
  unfold Derived.kernel in Hr.
  destruct (angular_diameter_distance cosmo l) as [D_l|] eqn:HD; [|done].
  destruct (sigma_crit cosmo l s) as [Sigma|] eqn:HS; [|done].
  revert Hr. rsimpl. cbv zeta.
  destruct (negb (finite_positive D_l)); [now intros [= <-]|].
  destruct (negb (finite_positive Sigma)); [now intros [= <-]|].
  destruct (Sensitivity.pow _ _ _ 2) as [R2|] eqn:HR2; [|done]. rsimpl.
  destruct (negb (finite_positive _)); [now intros [= <-]|].
  destruct (finite_difference math_log cosmo l s hv) as [[[Sv fl]|flag]|]; [| |done]; rsimpl.
  - destruct (negb (_is_finite Sv)); intros [= <-]; [done|].
    exists t, l, s, D_l, Sigma, R2. now repeat split.
  - now intros [= <-].
Qed.

(** X18. [delta_z] enters the bias estimate of a valid result and nothing else:
    a call with another [delta_z] returns the same result with the estimate
    rescaled, and raises when the first one does. *)
Theorem delta_z_only_in_estimate theta_E_arcsec z_l z_s cosmo h dz1 dz2 :
  compute_sensitivity theta_E_arcsec z_l z_s cosmo h dz2 =
    r ← compute_sensitivity theta_E_arcsec z_l z_s cosmo h dz1;
    Ok (if is_valid r
        then set_dM_over_M_for_delta_z (PyFloat (val (S_dlnM_dzs r) * dz2)) r
        else r).
Proof.
  destruct (Validate.is_valid (validate_lens_inputs theta_E_arcsec z_l z_s true true))
    eqn:Hv; [|now rewrite !compute_sensitivity_invalid].
  destruct (compute_sensitivity_valid _ _ _ cosmo h dz1 Hv) as (t & l & s & -> & -> & -> & _ & ->).
  destruct (compute_sensitivity_valid _ _ _ cosmo h dz2 Hv) as (t' & l' & s' & [= <-] & [= <-] & [= <-] & _ & ->).
  destruct h as [hv|]; [|reflexivity].
  destruct (hv <=? 0); [reflexivity|].
  unfold Derived.kernel.
  destruct (angular_diameter_distance cosmo l) as [D_l|]; [|done]. rsimpl.
  destruct (sigma_crit cosmo l s) as [Sigma|]; [|done]. rsimpl. cbv zeta.
  destruct (negb (finite_positive D_l)); [reflexivity|].
  destruct (negb (finite_positive Sigma)); [reflexivity|].
  destruct (Sensitivity.pow _ _ _ 2) as [R2|]; [|done]. rsimpl.
  destruct (negb (finite_positive _)); [reflexivity|].
  destruct (finite_difference math_log cosmo l s hv) as [[[Sv fl]|flag]|]; [| |done]; rsimpl.
  - now destruct (negb (_is_finite Sv)).
  - reflexivity.
Qed.

(** X19. The first quantity that fails its check names the flag, and the
    quantities computed before the check stay in the result: [D_l] is
    checked first, although [Sigma] has been computed by then; then
    [Sigma]; then the mass. *)
Theorem first_failing_quantity t l s hv cosmo delta_z D_l Sigma :
  Validate.is_valid
    (validate_lens_inputs (PyNumber t) (PyNumber l) (PyNumber s) true true) = true →
  (hv <=? 0) = false →
  angular_diameter_distance cosmo l = Ok D_l →
  sigma_crit cosmo l s = Ok Sigma →
  (finite_positive D_l = false →
     compute_sensitivity (PyNumber t) (PyNumber l) (PyNumber s) cosmo (Some hv) delta_z =
       Ok (set_flags ["flag_nonfinite_D_l"] (out_core t l s D_l Sigma))) ∧
  (finite_positive D_l = true → finite_positive Sigma = false →
     compute_sensitivity (PyNumber t) (PyNumber l) (PyNumber s) cosmo (Some hv) delta_z =
       Ok (set_flags ["flag_nonfinite_Sigma_crit"] (out_core t l s D_l Sigma))) ∧
  (finite_positive D_l = true → finite_positive Sigma = true →
     ∀ R2, pow (mul D_l (PyFloat (t * ARCSEC_TO_RAD))) 2 = Ok R2 →
     finite_positive (mul (mul (PyFloat math_pi) R2) Sigma) = false →
     compute_sensitivity (PyNumber t) (PyNumber l) (PyNumber s) cosmo (Some hv) delta_z =
       Ok (set_flags ["flag_nonfinite_M_inf"]
             (set_M_inf_kg (mul (mul (PyFloat math_pi) R2) Sigma)
                (out_core t l s D_l Sigma)))).
Proof.
  intros Hv Hh HD HS.
  destruct (compute_sensitivity_valid _ _ _ cosmo (Some hv) delta_z Hv)
    as (t' & l' & s' & [= <-] & [= <-] & [= <-] & _ & ->).
  rewrite Hh. unfold Derived.kernel. rewrite HD, HS. rsimpl. cbv zeta.
  split; [|split].
  - now intros ->.
  - now intros -> ->.
  - intros -> -> R2 HR HM. cbn [negb]. rewrite HR. rsimpl. now rewrite HM.
Qed.

End Kernel.

Lemma not_positive_not_finite_positive D :
  (0 <? val D) = false → finite_positive D = false.
Proof. intros H. unfold finite_positive. now rewrite H, andb_false_r. Qed.

(** X20. A lens at redshift zero passes the raw validation ([z_l >= 0]) and
    fails in the kernel: on a [FlatLambdaCDM] its distance is zero, the
    surface density is NaN, and the result carries ["flag_nonfinite_D_l"]. *)
Theorem lens_at_redshift_zero np float_pow np_float64_pow math_log c
    t l s hv delta_z pref Dc :
  Validate.is_valid
    (validate_lens_inputs (PyNumber t) (PyNumber l) (PyNumber s) true true) = true →
  (l =? 0) = true → (hv <=? 0) = false →
  truediv Cosmology.C_LIGHT (Cosmology.H0_SI c) = Ok pref →
  Cosmology.comoving_distance np float_pow c s = Ok Dc →
  ∃ r,
    Sensitivity.compute_sensitivity float_pow np_float64_pow math_log
      (PyNumber t) (PyNumber l) (PyNumber s) (cosmo_of np float_pow c) (Some hv) delta_z
      = Ok r ∧
    is_valid r = false ∧ flags r = ["flag_nonfinite_D_l"] ∧
    finite_positive (D_l_m r) = false ∧ Sigma_crit_kg_m2 r = PyFloat nan.
Proof.
  intros Hv Hl Hh Hpref HDc.
  destruct (compute_sensitivity_valid float_pow np_float64_pow math_log
              _ _ _ (cosmo_of np float_pow c) (Some hv) delta_z Hv)
    as (t' & l' & s' & [= <-] & [= <-] & [= <-] & _ & ->).
  apply validate_strict_inv in Hv
    as (t' & l' & s' & [= <-] & [= <-] & [= <-] & _ & _ & _ & _ & Hl0 & Hs0 & Hls & _).
  destruct (eqb_0_ltb l Hl) as [_ Hl1].
  pose proof (comoving_distance_no_integral np float_pow c l Hl0 Hl1) as Hc1.
  rewrite Hpref in Hc1. cbn [mbind result_bind] in Hc1.
  assert (Cosmology.angular_diameter_distance np float_pow c l
          = Ok (PyFloat (pref * 0 / (1 + l)))) as HD.
  { unfold Cosmology.angular_diameter_distance. rewrite Hl0, Hc1. rsimpl.
    rewrite div_ok by now apply add_1_nonneg. reflexivity. }
  destruct (div_mul_0_r pref (1 + l)) as [Hnp Hbad].
  assert (Cosmology.sigma_crit np float_pow c l s = Ok (PyFloat nan)) as HS.
  { assert (∃ D_s, Cosmology.angular_diameter_distance np float_pow c s = Ok D_s)
      as [D_s HDs].
    { unfold Cosmology.angular_diameter_distance. rewrite Hs0, HDc. rsimpl.
      rewrite div_ok by now apply add_1_nonneg. eauto. }
    assert (∃ D_ls, Cosmology.angular_diameter_distance_z1z2 np float_pow c l s = Ok D_ls)
      as [D_ls HDls].
    { unfold Cosmology.angular_diameter_distance_z1z2.
      rewrite Hl0, Hs0, (ltb_leb_antisym _ _ Hls), Hc1, HDc. rsimpl.
      rewrite div_ok by now apply add_1_nonneg. eauto. }
    rewrite (sigma_crit_guard np float_pow c l s _ _ _ (ltb_leb_antisym _ _ Hls) HD HDs HDls).
    replace (degenerate (PyFloat (pref * 0 / (1 + l))) D_s D_ls) with true; [reflexivity|].
    symmetry. unfold degenerate. cbn [val].
    apply orb_prop in Hbad as [-> | ->]; rewrite ?orb_true_r; reflexivity. }
  rewrite Hh. unfold kernel. cbn [angular_diameter_distance sigma_crit cosmo_of].
  rewrite HD, HS. rsimpl. cbv zeta.
  rewrite (not_positive_not_finite_positive (PyFloat _) Hnp). cbn [negb].
  eexists. split; [reflexivity|]. cbn [is_valid flags D_l_m Sigma_crit_kg_m2 set_flags
    out_core set_Sigma_crit_kg_m2 set_D_l_m set_theta_E_rad out_init].
  repeat split. now apply not_positive_not_finite_positive.
Qed.

End SensitivityProps.

(** ** The further properties on concrete inputs *)

Module MoreExamples.
Import Cosmology Validate Sensitivity Spec Derived.
Import ValidateProps CosmologyProps SensitivityProps.
#[local] Open Scope float_scope.

(** The call of the tests with equal redshifts, on a cosmology whose
    methods always raise. *)
Lemma reversed_redshifts_rejected_witness :
  ∃ r,
    Sensitivity.compute_sensitivity Reference.float_pow Reference.power Reference.math_log
      (PyNumber 1.2) (PyNumber 0.8) (PyNumber 0.8)
      {| angular_diameter_distance := λ _, Raise TypeError;
         sigma_crit := λ _ _, Raise TypeError |}
      (Some 1e-3) 0.1 = Ok r ∧
    is_valid r = false ∧ "flag_zs_le_zl" ∈ flags r ∧
    D_l_m r = PyFloat nan ∧ Sigma_crit_kg_m2 r = PyFloat nan ∧
    S_dlnM_dzs r = PyFloat nan.
Proof.
  apply (reversed_redshifts_rejected Reference.float_pow Reference.power
           Reference.math_log (PyNumber 1.2) 0.8 0.8);
    first [reflexivity | split; reflexivity].
Defined.

(** A valid call on a small engine: no flag. *)
Lemma flags_tell_validity_witness :
  ∃ r,
    Reference.run None (__init__ 70 0.3 None 16) 1.2 0.3 1.1 1e-3 0.1 = Ok r ∧
    is_valid r = true ∧ flags r = [].
Proof.
  eassert (Reference.run None (__init__ 70 0.3 None 16) 1.2 0.3 1.1 1e-3 0.1 = Ok _)
    as Hr by (vm_compute; reflexivity).
  eexists. split; [exact Hr|].
  destruct (flags_tell_validity _ _ _ _ _ _ _ _ _ _ Hr) as [Hiff _].
  split; [|vm_compute; reflexivity].
  apply Hiff. left. vm_compute. reflexivity.
Defined.

Lemma math_log_returns x :
  _is_finite x = true → (0 <? x) = true → returns (Reference.math_log x) = true.
Proof.
  intros _ Hx. unfold Reference.math_log.
  rewrite (FloatFacts.ltb_leb_antisym _ _ Hx).
  destruct (_is_nan x || _is_inf x); [reflexivity|].
  now destruct (Z.frexp x).
Qed.

(** The call of the tests on a small engine: every callee returns. *)
Lemma compute_sensitivity_returns_witness :
  returns (Reference.run None (__init__ 70 0.3 None 16) 1.2 0.3 1.1 1e-3 0.1) = true.
Proof.
  apply (compute_sensitivity_returns Reference.float_pow Reference.power
           Reference.math_log).
  - intros l [= <-]. vm_compute. reflexivity.
  - intros l s hv z [= <-] [= <-] [= <-] [-> | [-> | ->]]; vm_compute; reflexivity.
  - intros t l D [= <-] [= <-] HD. vm_compute in HD. injection HD as <-.
    vm_compute. reflexivity.
  - exact math_log_returns.
Defined.

(** The call of the tests on a small engine. *)
Lemma valid_result_fields_witness :
  ∃ r D_l Sigma R2,
    Reference.run None (__init__ 70 0.3 None 16) 1.2 0.3 1.1 1e-3 0.1 = Ok r ∧
    D_l_m r = D_l ∧ Sigma_crit_kg_m2 r = Sigma ∧
    theta_E_rad r = PyFloat (1.2 * ARCSEC_TO_RAD) ∧
    Sensitivity.pow Reference.float_pow Reference.power
      (mul D_l (PyFloat (1.2 * ARCSEC_TO_RAD))) 2 = Ok R2 ∧
    M_inf_kg r = mul (mul (PyFloat math_pi) R2) Sigma.
Proof.
  eassert (Reference.run None (__init__ 70 0.3 None 16) 1.2 0.3 1.1 1e-3 0.1 = Ok _)
    as Hr by (vm_compute; reflexivity).
  destruct (valid_result_fields _ _ _ _ _ _ _ _ _ _ Hr)
    as (t & l & s & D_l & Sigma & R2 & [= <-] & [= <-] & [= <-] & Hth & _ & HD & _ & HS
        & HR & HM); [vm_compute; reflexivity|].
  eexists _, D_l, Sigma, R2. split; [exact Hr|]. now repeat split.
Defined.

(** A lens at redshift zero on a small engine: the distance fails first. *)
Lemma first_failing_quantity_witness :
  Reference.run None (__init__ 70 0.3 None 16) 1.2 0 1.1 1e-3 0.1 =
    Ok (set_flags ["flag_nonfinite_D_l"] (out_core 1.2 0 1.1 (PyFloat 0) (PyFloat nan))).
Proof.
  apply (proj1 (first_failing_quantity Reference.float_pow Reference.power
                  Reference.math_log 1.2 0 1.1 1e-3
                  (cosmo_of None Reference.float_pow (__init__ 70 0.3 None 16)) 0.1
                  (PyFloat 0) (PyFloat nan)
                  ltac:(vm_compute; reflexivity) ltac:(reflexivity)
                  ltac:(vm_compute; reflexivity) ltac:(vm_compute; reflexivity)));
    reflexivity.
Defined.

(** A lens at redshift zero on a small engine. *)
Lemma lens_at_redshift_zero_witness :
  ∃ r,
    Reference.run None (__init__ 70 0.3 None 16) 1.2 0 1.1 1e-3 0.1 = Ok r ∧
    is_valid r = false ∧ flags r = ["flag_nonfinite_D_l"] ∧
    finite_positive (D_l_m r) = false ∧ Sigma_crit_kg_m2 r = PyFloat nan.
Proof.
  eassert (truediv C_LIGHT (H0_SI (__init__ 70 0.3 None 16)) = Ok _) as Hp
    by (vm_compute; reflexivity).
  eassert (comoving_distance None Reference.float_pow (__init__ 70 0.3 None 16) 1.1 = Ok _)
    as Hc by (vm_compute; reflexivity).
  apply (lens_at_redshift_zero None Reference.float_pow Reference.power Reference.math_log
           (__init__ 70 0.3 None 16) 1.2 0 1.1 1e-3 0.1 _ _
           ltac:(vm_compute; reflexivity) eq_refl eq_refl Hp Hc).
Defined.

(** The distance from a lens at zero, and from a NaN lens, on the default
    engine. *)
Lemma distance_from_the_observer_witness :
  angular_diameter_distance_z1z2 None Reference.float_pow (__init__ 70 0.3 None 16) 0 1.1
    = Cosmology.angular_diameter_distance None Reference.float_pow
        (__init__ 70 0.3 None 16) 1.1 ∧
  angular_diameter_distance_z1z2 None Reference.float_pow (__init__ 70 0.3 None 16) nan 1.1
    = Cosmology.angular_diameter_distance None Reference.float_pow
        (__init__ 70 0.3 None 16) 1.1.
Proof.
  eassert (truediv C_LIGHT (H0_SI (__init__ 70 0.3 None 16)) = Ok _) as Hp
    by (vm_compute; reflexivity).
  split;
    apply (distance_from_the_observer None Reference.float_pow _ _ _ _ Hp); reflexivity.
Defined.

(** A NaN redshift on the default engine. *)
Lemma nan_redshift_witness :
  comoving_distance None Reference.float_pow Reference.cosmo_default nan = Ok (PyFloat 0) ∧
  Cosmology.angular_diameter_distance None Reference.float_pow Reference.cosmo_default nan
    = Ok (PyFloat nan).
Proof.
  eassert (truediv C_LIGHT (H0_SI Reference.cosmo_default) = Ok _) as Hp
    by (vm_compute; reflexivity).
  destruct (nan_redshift None Reference.float_pow Reference.cosmo_default nan _
              eq_refl Hp eq_refl) as (Hc & _ & Ha).
  split; [exact Hc|exact Ha].
Defined.

(** [FlatLambdaCDM(n_int=-1)]: the count becomes [0]. *)
Lemma nonpositive_n_int_witness :
  n_int (__init__ 70 0.3 None (-1)) = 0%Z ∧
  comoving_distance None Reference.float_pow (__init__ 70 0.3 None (-1)) 1
    = Raise (ValueError "Simpson integration requires positive even n.") ∧
  Cosmology.sigma_crit None Reference.float_pow (__init__ 70 0.3 None (-1)) 0.3 1.1
    = Raise (ValueError "Simpson integration requires positive even n.").
Proof.
  split; [reflexivity|]. split.
  - apply (nonpositive_n_int None Reference.float_pow (__init__ 70 0.3 None (-1)) 1);
      [vm_compute; discriminate|reflexivity].
  - apply (nonpositive_n_int None Reference.float_pow (__init__ 70 0.3 None (-1)) 0.3);
      [vm_compute; discriminate|reflexivity|reflexivity].
Defined.

(** [FlatLambdaCDM(H0_km_s_Mpc=0)]. *)
Lemma zero_hubble_constant_witness :
  comoving_distance None Reference.float_pow (__init__ 0 0.3 None 2048) 0
    = Raise ZeroDivisionError ∧
  returns (Cosmology.sigma_crit None Reference.float_pow (__init__ 0 0.3 None 2048) 0.3 1.1)
    = false ∧
  Cosmology.sigma_crit None Reference.float_pow (__init__ 0 0.3 None 2048) 1.1 0.3
    = Ok (PyFloat nan).
Proof.
  destruct (zero_hubble_constant None Reference.float_pow (__init__ 0 0.3 None 2048)
              eq_refl) as (_ & _ & Hc & Hs).
  split; [now apply Hc|]. split; [now rewrite Hs|]. reflexivity.
Defined.

(** The surface density at [z_l = 0.3], [z_s = 1.1] on a small engine. *)
Lemma sigma_crit_never_negative_witness :
  ∃ Sigma,
    Cosmology.sigma_crit None Reference.float_pow (__init__ 70 0.3 None 16) 0.3 1.1
      = Ok Sigma ∧
    (val Sigma <? 0) = false.
Proof.
  eassert (Cosmology.sigma_crit None Reference.float_pow (__init__ 70 0.3 None 16) 0.3 1.1
           = Ok _) as Hs by (vm_compute; reflexivity).
  eexists. split; [exact Hs|].
  apply (sigma_crit_never_negative None Reference.float_pow (__init__ 70 0.3 None 16)
           0.3 1.1 _); [|exact Hs].
  intros c2 H. vm_compute in H. injection H as <-. reflexivity.
Defined.

End MoreExamples.
